(** * POC-AppSecret: secret provisioning and cross-execution verification

    A shallow embedding of the two programs of the repository:

    - the secret generator iApp (TargetApp), which draws a typed random
      secret, hashes it, pushes it to the secret store (SMS) and writes a
      result document that carries the digest only;
    - [scripts/test-full-flow.js], the orchestration script that decides
      between re-using a recorded digest and provisioning a new secret,
      drives the two remote executions, fetches their results and compares
      the digests.

    Everything the programs obtain from outside (the random source, the
    clock, the iExec SDK, the result gateway, the environment variables) is
    an explicit input.  JavaScript strings are byte strings here; the
    string helpers are the ASCII restriction of the JavaScript ones.
    Console output is kept as a list of events, without its colours and
    wording; writing and reading files is taken to succeed.

    The file has two halves: the programs and the notions the properties
    are stated with, then the test vectors, the lemmas and the properties
    themselves. *)

From Stdlib Require Import ZArith List String Ascii Bool Lia.
From Stdlib.Strings Require Import Byte.
From Stdlib Require Import DecimalString.
Import ListNotations.

Local Open Scope string_scope.
Local Open Scope Z_scope.

(* ================================================================== *)
(** ** JavaScript strings *)

Module Str.

(** One double-quote character, for the documents [JSON.stringify] emits. *)
Definition dq : string := String "034"%char EmptyString.

Definition code (c : ascii) : Z := Z.of_nat (nat_of_ascii c).

Definition bytes (s : string) : list Z := map code (list_ascii_of_string s).

Definition lower_char (c : ascii) : ascii :=
  if (65 <=? code c) && (code c <=? 90)
  then ascii_of_nat (nat_of_ascii c + 32) else c.

(** [s.toLowerCase()] on ASCII text.  Characters outside ASCII are left
    as they are, whereas JavaScript lowers some of them to ASCII letters
    (the Kelvin sign to k): statements that depend on the case of a text
    are made for ASCII texts. *)
Fixpoint toLowerCase (s : string) : string :=
  match s with
  | EmptyString => EmptyString
  | String c s' => String (lower_char c) (toLowerCase s')
  end.

Definition startsWith (s p : string) : bool := prefix p s.

(** [s.includes(sub)] *)
Fixpoint includes (s sub : string) : bool :=
  prefix sub s ||
  match s with
  | EmptyString => false
  | String _ s' => includes s' sub
  end.

(** [chars[i]] appended to a string: a character, or the text of
    [undefined] when the index is out of range. *)
Definition charAt (chars : string) (i : nat) : string :=
  match get i chars with
  | Some c => String c EmptyString
  | None => "undefined"
  end.

Definition is_space (c : ascii) : bool :=
  let n := code c in
  (n =? 32) || ((9 <=? n) && (n <=? 13)).

Fixpoint trimStart (s : string) : string :=
  match s with
  | EmptyString => EmptyString
  | String c s' => if is_space c then trimStart s' else s
  end.

(** Drops trailing white space; the result of the recursive call is empty
    exactly when the rest of the string is blank. *)
Fixpoint trimEnd (s : string) : string :=
  match s with
  | EmptyString => EmptyString
  | String c s' =>
      match trimEnd s' with
      | EmptyString => if is_space c then EmptyString else String c EmptyString
      | t => String c t
      end
  end.

Definition trim (s : string) : string := trimEnd (trimStart s).

(** [s.split(',')]: always at least one part. *)
Fixpoint split_comma (s : string) : list string :=
  match s with
  | EmptyString => [EmptyString]
  | String c s' =>
      if (code c =? 44)
      then EmptyString :: split_comma s'
      else match split_comma s' with
           | p :: ps => String c p :: ps
           | [] => [String c EmptyString]
           end
  end.

(** [parts.join(sep)] *)
Fixpoint join (sep : string) (parts : list string) : string :=
  match parts with
  | [] => EmptyString
  | [p] => p
  | p :: ps => p ++ sep ++ join sep ps
  end.

(** Decimal text of an integer, as a template literal prints it. *)
Definition of_Z (z : Z) : string := NilZero.string_of_int (Z.to_int z).

(** [s.slice(from, to)] for [0 <= from <= to]. *)
Definition slice (s : string) (from to : nat) : string :=
  substring from (to - from) s.

End Str.

(* ================================================================== *)
(** ** Buffer encodings: hex, base64, base64url *)

Module Enc.

Definition byteZ (b : byte) : Z := Z.of_N (Byte.to_N b).

Definition pick (alphabet : string) (i : Z) : string :=
  match get (Z.to_nat i) alphabet with
  | Some c => String c EmptyString
  | None => EmptyString
  end.

Definition hexdigits : string := "0123456789abcdef".

Definition hex_byte (b : Z) : string :=
  pick hexdigits (b / 16) ++ pick hexdigits (b mod 16).

(** [buffer.toString('hex')] *)
Definition hex (bs : list Z) : string :=
  fold_right (fun b acc => hex_byte b ++ acc) EmptyString bs.

Definition b64_std : string :=
  "ABCDEFGHIJKLMNOPQRSTUVWXYZabcdefghijklmnopqrstuvwxyz0123456789+/".
Definition b64_url : string :=
  "ABCDEFGHIJKLMNOPQRSTUVWXYZabcdefghijklmnopqrstuvwxyz0123456789-_".

(** Three bytes give four sextets; a final group of one or two bytes is
    padded with [=] only in the standard alphabet. *)
Fixpoint b64 (alphabet : string) (padded : bool) (bs : list Z) : string :=
  match bs with
  | [] => EmptyString
  | [a] =>
      pick alphabet (a / 4) ++ pick alphabet ((a mod 4) * 16)
      ++ (if padded then "==" else EmptyString)
  | [a; b] =>
      pick alphabet (a / 4) ++ pick alphabet ((a mod 4) * 16 + b / 16)
      ++ pick alphabet ((b mod 16) * 4)
      ++ (if padded then "=" else EmptyString)
  | a :: b :: c :: rest =>
      pick alphabet (a / 4) ++ pick alphabet ((a mod 4) * 16 + b / 16)
      ++ pick alphabet ((b mod 16) * 4 + c / 64) ++ pick alphabet (c mod 64)
      ++ b64 alphabet padded rest
  end.

(** [buffer.toString('base64')] and [buffer.toString('base64url')] *)
Definition base64 (bs : list Z) : string := b64 b64_std true bs.
Definition base64url (bs : list Z) : string := b64 b64_url false bs.

End Enc.

(* ================================================================== *)
(** ** SHA-256 ([createHash('sha256').update(s).digest('hex')]) *)

Module Sha256.

Definition wrap (x : Z) : Z := x mod 4294967296.
Definition add32 (x y : Z) : Z := wrap (x + y).
Definition rotr (n x : Z) : Z :=
  Z.lor (Z.shiftr x n) (wrap (Z.shiftl x (32 - n))).
Definition not32 (x : Z) : Z := 4294967295 - x.

Definition choose (x y z : Z) : Z :=
  Z.lxor (Z.land x y) (Z.land (not32 x) z).
Definition majority (x y z : Z) : Z :=
  Z.lxor (Z.lxor (Z.land x y) (Z.land x z)) (Z.land y z).
Definition big0 (x : Z) : Z :=
  Z.lxor (Z.lxor (rotr 2 x) (rotr 13 x)) (rotr 22 x).
Definition big1 (x : Z) : Z :=
  Z.lxor (Z.lxor (rotr 6 x) (rotr 11 x)) (rotr 25 x).
Definition small0 (x : Z) : Z :=
  Z.lxor (Z.lxor (rotr 7 x) (rotr 18 x)) (Z.shiftr x 3).
Definition small1 (x : Z) : Z :=
  Z.lxor (Z.lxor (rotr 17 x) (rotr 19 x)) (Z.shiftr x 10).

(** Round constants, as one hexadecimal text of 64 eight-digit words. *)
Definition round_constants_hex : string :=
  "428a2f9871374491b5c0fbcfe9b5dba53956c25b59f111f1923f82a4ab1c5ed5" ++
  "d807aa9812835b01243185be550c7dc372be5d7480deb1fe9bdc06a7c19bf174" ++
  "e49b69c1efbe47860fc19dc6240ca1cc2de92c6f4a7484aa5cb0a9dc76f988da" ++
  "983e5152a831c66db00327c8bf597fc7c6e00bf3d5a7914706ca635114292967" ++
  "27b70a852e1b21384d2c6dfc53380d13650a7354766a0abb81c2c92e92722c85" ++
  "a2bfe8a1a81a664bc24b8b70c76c51a3d192e819d6990624f40e3585106aa070" ++
  "19a4c1161e376c082748774c34b0bcb5391c0cb34ed8aa4a5b9cca4f682e6ff3" ++
  "748f82ee78a5636f84c878148cc7020890befffaa4506cebbef9a3f7c67178f2".

Definition initial_hex : string :=
  "6a09e667bb67ae853c6ef372a54ff53a510e527f9b05688c1f83d9ab5be0cd19".

Definition hexval (c : ascii) : Z :=
  let n := Str.code c in
  if n <? 58 then n - 48 else n - 87.

(** Reads a hexadecimal text as a list of 32-bit words. *)
Fixpoint words_of_hex (s : string) (acc : Z) (k : nat) : list Z :=
  match s with
  | EmptyString => []
  | String c s' =>
      let acc' := acc * 16 + hexval c in
      match k with
      | O => acc' :: words_of_hex s' 0 7
      | S k' => words_of_hex s' acc' k'
      end
  end.

Definition K : list Z := Eval vm_compute in words_of_hex round_constants_hex 0 7.
Definition H0 : list Z := Eval vm_compute in words_of_hex initial_hex 0 7.

(** Message padding: a [0x80] byte, zeros up to 56 modulo 64, and the bit
    length as eight big-endian bytes. *)
Definition be_bytes (n : nat) (x : Z) : list Z :=
  map (fun i => (x / 256 ^ Z.of_nat (n - 1 - i)) mod 256) (seq 0 n).

Definition pad (msg : list Z) : list Z :=
  let len := Z.of_nat (List.length msg) in
  let zeros := Z.to_nat ((55 - len) mod 64) in
  (msg ++ [128] ++ repeat 0 zeros ++ be_bytes 8 (len * 8))%list.

Fixpoint be_words (bs : list Z) : list Z :=
  match bs with
  | a :: b :: c :: d :: rest =>
      (((a * 256 + b) * 256 + c) * 256 + d) :: be_words rest
  | _ => []
  end.

(** The working variables [a..h]. *)
Definition Regs : Type := (Z * Z * Z * Z * Z * Z * Z * Z)%type.

Definition regs_of (l : list Z) : Regs :=
  (nth 0 l 0, nth 1 l 0, nth 2 l 0, nth 3 l 0,
   nth 4 l 0, nth 5 l 0, nth 6 l 0, nth 7 l 0).

Definition list_of (r : Regs) : list Z :=
  let '(a, b, c, d, e, f, g, h) := r in [a; b; c; d; e; f; g; h].

(** One round.  The message schedule is kept as a window of the sixteen
    most recent words: its head is the word of this round, and the word
    sixteen rounds ahead is appended. *)
Definition round (st : Regs * list Z) (k : Z) : Regs * list Z :=
  let '((a, b, c, d, e, f, g, h), win) := st in
  let w := nth 0 win 0 in
  let t1 := add32 (add32 (add32 (add32 h (big1 e)) (choose e f g)) k) w in
  let t2 := add32 (big0 a) (majority a b c) in
  let next :=
    add32 (add32 (add32 (small1 (nth 14 win 0)) (nth 9 win 0))
                 (small0 (nth 1 win 0))) w in
  ((add32 t1 t2, a, b, c, add32 d t1, e, f, g), (tl win ++ [next])%list).

Definition compress (h : list Z) (block : list Z) : list Z :=
  let '(r, _) := fold_left round K (regs_of h, block) in
  map (fun p => add32 (fst p) (snd p)) (combine h (list_of r)).

(** Consumes the padded message sixteen words at a time. *)
Fixpoint blocks (fuel : nat) (h : list Z) (ws : list Z) : list Z :=
  match fuel, ws with
  | S fuel', _ :: _ => blocks fuel' (compress h (firstn 16 ws)) (skipn 16 ws)
  | _, _ => h
  end.

Definition digest (msg : list Z) : list Z :=
  let ws := be_words (pad msg) in
  List.concat (map (be_bytes 4) (blocks (List.length ws) H0 ws)).

Definition sha256_hex (s : string) : string := Enc.hex (digest (Str.bytes s)).

End Sha256.

(* ================================================================== *)
(** ** JavaScript values read from JSON documents *)

Module Js.

(** A parsed JSON document.  A number is the dyadic rational [m * 2^e]
    (every finite double is one); an object is its list of own
    properties. *)
#[local] Unset Elimination Schemes.
Inductive json : Type :=
| JNull
| JBool (b : bool)
| JNum (m e : Z)
| JStr (s : string)
| JArr (items : list json)
| JObj (fields : list (string * json)).
#[local] Set Elimination Schemes.

(** A JavaScript value that came out of a JSON document, or [undefined]. *)
Definition value : Type := option json.
Definition undefined : value := None.

Definition JInt (n : Z) : json := JNum n 0.

Definition truthy (v : value) : bool :=
  match v with
  | None => false
  | Some JNull => false
  | Some (JBool b) => b
  | Some (JNum m _) => negb (m =? 0)
  | Some (JStr s) => negb (s =? "")%string
  | Some (JArr _) => true
  | Some (JObj _) => true
  end.

Fixpoint lookup (k : string) (fields : list (string * json)) : value :=
  match fields with
  | [] => None
  | (k', v) :: rest => if (k =? k')%string then Some v else lookup k rest
  end.

(** [v.k] for the property names the programs read (none of them is a
    built-in property of strings, numbers or arrays).  Reading a property
    of [null] or [undefined] throws. *)
Inductive Access : Type :=
| TypeError
| Got (v : value).

Definition member (v : value) (k : string) : Access :=
  match v with
  | None => TypeError
  | Some JNull => TypeError
  | Some (JObj fields) => Got (lookup k fields)
  | Some _ => Got None
  end.

(** [v?.k] *)
Definition member_opt (v : value) (k : string) : value :=
  match member v k with
  | TypeError => None
  | Got x => x
  end.

(** [v.k] where the program has already tested [v] to be truthy. *)
Definition field (v : value) (k : string) : value := member_opt v k.

(** [a || b] *)
Definition or_else (a b : value) : value := if truthy a then a else b.

Definition num_eqb (m1 e1 m2 e2 : Z) : bool :=
  let k := Z.min e1 e2 in
  (m1 * 2 ^ (e1 - k) =? m2 * 2 ^ (e2 - k)).

(** [a === b] for two values that were parsed from different documents
    (or are primitive): objects and arrays are then distinct references. *)
Definition strict_eq (a b : value) : bool :=
  match a, b with
  | None, None => true
  | Some JNull, Some JNull => true
  | Some (JBool x), Some (JBool y) => Bool.eqb x y
  | Some (JNum m1 e1), Some (JNum m2 e2) => num_eqb m1 e1 m2 e2
  | Some (JStr x), Some (JStr y) => (x =? y)%string
  | _, _ => false
  end.

Definition of_string (s : option string) : value := option_map JStr s.

(** The document [JSON.stringify] writes for an object literal: properties
    whose value is [undefined] are left out. *)
Fixpoint obj_fields (props : list (string * value)) : list (string * json) :=
  match props with
  | [] => []
  | (k, Some v) :: rest => (k, v) :: obj_fields rest
  | (_, None) :: rest => obj_fields rest
  end.

Definition obj (props : list (string * value)) : json := JObj (obj_fields props).

(** What a thrown value exposes to the handlers: its [message], if any. *)
Record Error : Type := mkError { message : option string }.

Definition error (m : string) : Error := mkError (Some m).

(** Outcome of awaiting one SDK call that settles.  (A call whose
    promise never settles is not represented; only the wait on a status
    feed can stay pending here.) *)
Inductive Sdk (A : Type) : Type :=
| Resolves (a : A)
| Rejects (e : Error).
Arguments Resolves {A} a.
Arguments Rejects {A} e.

(** One awaited call after another inside a [try] block: the first
    rejection leaves the block. *)
Definition and_then {A B} (call : Sdk A) (k : A -> Sdk B) : Sdk B :=
  match call with
  | Resolves a => k a
  | Rejects e => Rejects e
  end.

End Js.
Export Js.

(* ================================================================== *)
(** ** The secret generator iApp (TargetApp) *)

Module TargetApp.

Definition Entropy : Type := nat -> byte.

(** [randomBytes(n)]: the next [n] bytes of the source, and the source
    after them. *)
Definition randomBytes (n : nat) (src : Entropy) : list Z * Entropy :=
  (map (fun i => Enc.byteZ (src i)) (seq 0 n), fun i => src (n + i)%nat).

Definition DEFAULT_SMS_URL : string := "https://sms.arbitrum-sepolia-testnet.iex.ec".
Definition DEFAULT_RPC_URL : string := "https://sepolia-rollup.arbitrum.io/rpc".

Definition charsets : list (string * string) :=
  [ ("alphanumeric", "ABCDEFGHIJKLMNOPQRSTUVWXYZabcdefghijklmnopqrstuvwxyz0123456789");
    ("alphanumericSpecial",
     "ABCDEFGHIJKLMNOPQRSTUVWXYZabcdefghijklmnopqrstuvwxyz0123456789!@#$%^&*()_+-=[]{}|;:,.<>?");
    ("hex", "0123456789abcdef");
    ("numeric", "0123456789");
    ("alpha", "ABCDEFGHIJKLMNOPQRSTUVWXYZabcdefghijklmnopqrstuvwxyz") ].

(** [charsets[name]], for the names of the table: a name the object
    only inherits (such as constructor) counts as missing here. *)
Fixpoint charset_named (name : string) (table : list (string * string)) : option string :=
  match table with
  | [] => None
  | (n, cs) :: rest => if (name =? n)%string then Some cs else charset_named name rest
  end.

Definition generateRandomString (len : nat) (charset : string) (src : Entropy)
  : string * Entropy :=
  let chars :=
    match charset_named charset charsets with
    | Some cs => cs
    | None => "ABCDEFGHIJKLMNOPQRSTUVWXYZabcdefghijklmnopqrstuvwxyz0123456789"
    end in
  let '(bytes, src') := randomBytes len src in
  (fold_left
     (fun result b =>
        result ++ Str.charAt chars (Z.to_nat (b mod Z.of_nat (String.length chars))))
     bytes EmptyString,
   src').

Fixpoint set_nth (i : nat) (x : Z) (l : list Z) : list Z :=
  match l, i with
  | [], _ => []
  | _ :: t, O => x :: t
  | h :: t, S i' => h :: set_nth i' x t
  end.

Definition generateUUID (src : Entropy) : string * Entropy :=
  let '(bytes, src') := randomBytes 16 src in
  let bytes := set_nth 6 (Z.lor (Z.land (nth 6 bytes 0) 15) 64) bytes in
  let bytes := set_nth 8 (Z.lor (Z.land (nth 8 bytes 0) 63) 128) bytes in
  let hex := Enc.hex bytes in
  (Str.slice hex 0 8 ++ "-" ++ Str.slice hex 8 12 ++ "-" ++ Str.slice hex 12 16
   ++ "-" ++ Str.slice hex 16 20 ++ "-" ++ Str.slice hex 20 (String.length hex),
   src').

Record Secret : Type := mkSecret {
  secret : string;
  hash : string;
  type : string;
  generatedAt : string;
  metadata : json
}.

(** The clock, read as [Date.now()] and as [new Date().toISOString()];
    one reading serves a whole run. *)
Record Clock : Type := mkClock { now_ms : Z; now_iso : string }.

Definition jwt_header : string :=
  "{" ++ Str.dq ++ "alg" ++ Str.dq ++ ":" ++ Str.dq ++ "HS256" ++ Str.dq ++ ","
  ++ Str.dq ++ "typ" ++ Str.dq ++ ":" ++ Str.dq ++ "JWT" ++ Str.dq ++ "}".

Definition jwt_payload (iat : Z) (jti : string) : string :=
  "{" ++ Str.dq ++ "iat" ++ Str.dq ++ ":" ++ Str.of_Z iat ++ ","
  ++ Str.dq ++ "jti" ++ Str.dq ++ ":" ++ Str.dq ++ jti ++ Str.dq ++ "}".

(** The [switch] of [generateSecret]: the value and its metadata. *)
Definition secretValue_of (secretType : string) (clock : Clock) (src : Entropy)
  : string * json :=
  let t := Str.toLowerCase secretType in
  if (t =? "api-key")%string then
    let '(prefix, src1) := generateRandomString 4 "alpha" src in
    let '(key, _) := generateRandomString 32 "alphanumeric" src1 in
    (Str.toLowerCase prefix ++ "_" ++ key,
     obj [("format", Some (JStr "prefix_key")); ("keyLength", Some (JInt 32))])
  else if (t =? "password")%string then
    let '(pw, _) := generateRandomString 24 "alphanumericSpecial" src in
    (pw, obj [("format", Some (JStr "strong_password")); ("length", Some (JInt 24));
              ("hasSpecialChars", Some (JBool true))])
  else if (t =? "token")%string then
    let header := Enc.base64url (Str.bytes jwt_header) in
    let '(jti, src1) := generateUUID src in
    let payload :=
      Enc.base64url (Str.bytes (jwt_payload (now_ms clock / 1000) jti)) in
    let '(sig, _) := randomBytes 32 src1 in
    (header ++ "." ++ payload ++ "." ++ Enc.base64url sig,
     obj [("format", Some (JStr "jwt-like"))])
  else if (t =? "uuid")%string then
    let '(u, _) := generateUUID src in
    (u, obj [("format", Some (JStr "uuid-v4"))])
  else if (t =? "hex")%string then
    let '(bs, _) := randomBytes 32 src in
    (Enc.hex bs, obj [("format", Some (JStr "hex")); ("bits", Some (JInt 256))])
  else if (t =? "private-key")%string then
    let '(bs, _) := randomBytes 32 src in
    ("0x" ++ Enc.hex bs,
     obj [("format", Some (JStr "ethereum-compatible")); ("bits", Some (JInt 256))])
  else
    let '(bs, _) := randomBytes 32 src in
    (Enc.base64 bs, obj [("format", Some (JStr "base64")); ("bytes", Some (JInt 32))]).

Definition generateSecret (secretType : string) (clock : Clock) (src : Entropy)
  : Secret :=
  let timestamp := now_iso clock in
  let '(secretValue, metadata) := secretValue_of secretType clock src in
  let secretHash := Sha256.sha256_hex secretValue in
  {| secret := secretValue;
     hash := secretHash;
     type := secretType;
     generatedAt := timestamp;
     metadata := metadata |}.

(** *** The App Secret configuration *)

(** [process.env.IEXEC_APP_DEVELOPER_SECRET] as [JSON.parse] sees it. *)
Inductive SecretText : Type :=
| Unset                      (* absent or empty *)
| Unparsable                 (* [JSON.parse] throws *)
| Parses (config : json).

Record AppConfig : Type := mkAppConfig {
  privateKey : value;
  smsUrl : value;
  rpcUrl : value
}.

Definition parseAppSecret (text : SecretText) : option AppConfig :=
  match text with
  | Unset => None
  | Unparsable => None
  | Parses config =>
      match member (Some config) "DEDICATED_PRIVATE_KEY" with
      | TypeError => None
      | Got key =>
          Some {| privateKey := key;
                  smsUrl := or_else (field (Some config) "SMS_URL")
                                    (Some (JStr DEFAULT_SMS_URL));
                  rpcUrl := or_else (field (Some config) "RPC_URL")
                                    (Some (JStr DEFAULT_RPC_URL)) |}
      end
  end.

(** *** Pushing to the secret store *)

(** The answers of the SDK during one push. *)
Record Sms : Type := mkSms {
  isAddress : string -> bool;          (* ethers' address check *)
  getSigner : Sdk unit;                (* utils.getSignerFromPrivateKey *)
  getAddress : Sdk string;             (* iexec.wallet.getAddress *)
  pushAppSecret : string -> string -> Sdk bool
                                       (* iexec.app.pushAppSecret, of the
                                          application address and the value *)
}.

Record PushResult : Type := mkPushResult {
  success : bool;
  pushedName : option string;          (* [secretName] of the result *)
  address : option string;
  error : option string
}.

Definition failed (e : Error) : PushResult :=
  {| success := false; pushedName := None; address := None; error := message e |}.

(** The result, and the secrets the store now holds for an application
    address: the store has taken the value exactly when the SDK call
    resolved to [true].  Everything after the address check runs inside
    [try { ... } catch (error) { return { success: false, ... } }]. *)
Definition pushSecretToSMS (sms : Sms) (targetAppAddress : option string)
           (secretName secretValue : string) (config : AppConfig)
  : PushResult * list (string * string) :=
  match targetAppAddress with
  | None => (failed (Js.error "Invalid or missing Consume App Address. Cannot push App Secret."), [])
  | Some addr =>
      if negb (negb (addr =? "")%string && isAddress sms addr) then
        (failed (Js.error "Invalid or missing Consume App Address. Cannot push App Secret."), [])
      else
        match
          and_then (getSigner sms) (fun _ =>
          and_then (getAddress sms) (fun walletAddress =>
          and_then (pushAppSecret sms addr secretValue) (fun isPushed =>
            if isPushed : bool then
              Resolves ({| success := true;
                           pushedName := Some "IEXEC_APP_DEVELOPER_SECRET";
                           address := Some walletAddress;
                           error := None |},
                        [(addr, secretValue)])
            else
              Rejects (Js.error "Failed to push App Secret (SDK returned false)"))))
        with
        | Resolves pushed => pushed
        | Rejects error => (failed error, [])
        end
  end.

(** *** Arguments *)

Record Args : Type := mkArgs {
  consumeAppAddress : option string;
  secretName : string;
  secretType : string
}.

(** [parts[i] || fallback] *)
Definition part_or (parts : list string) (i : nat) (fallback : string) : string :=
  match nth_error parts i with
  | Some p => if (p =? "")%string then fallback else p
  | None => fallback
  end.

Definition parseArgs (args : list string) (clock : Clock) : Args :=
  let argString := Str.trim (Str.join " " args) in
  let fresh := "secret-" ++ Str.of_Z (now_ms clock) in
  if (argString =? "")%string then
    {| consumeAppAddress := None; secretName := fresh; secretType := "random" |}
  else
    let parts := map Str.trim (Str.split_comma argString) in
    if Str.startsWith (part_or parts 0 "") "0x" then
      {| consumeAppAddress := nth_error parts 0;
         secretName := part_or parts 1 fresh;
         secretType := part_or parts 2 "random" |}
    else
      {| consumeAppAddress := None;
         secretName := part_or parts 0 fresh;
         secretType := part_or parts 1 "random" |}.

(** *** The run *)

Record Env : Type := mkEnv {
  IEXEC_APP_DEVELOPER_SECRET : SecretText;
  CONSUME_APP_ADDRESS : option string;
  argv : list string;
  clock : Clock;
  entropy : Entropy;
  sms : Sms
}.

(** What a run leaves behind: the document in [result.json] and the
    secrets the store accepted. *)
Record Run : Type := mkRun {
  result_json : json;
  stored : list (string * string)
}.

Definition not_configured : json :=
  obj [ ("success", Some (JBool false));
        ("error", Some (JStr "App Secret not configured"));
        ("instructions",
         Some (JStr "Deploy this iApp with an App Secret containing DEDICATED_PRIVATE_KEY")) ].

(** Truthiness and [a || b] on optional strings *)
Definition str_truthy (a : option string) : bool :=
  match a with
  | Some s => negb (s =? "")%string
  | None => false
  end.

Definition str_or (a b : option string) : option string :=
  if str_truthy a then a else b.

(** The [output] object of [main], as written to [result.json]. *)
Definition output (pushResult : PushResult) (name : string) (secretData : Secret) : json :=
  obj [ ("success", Some (JBool (success pushResult)));
        ("secretName", of_string (str_or (pushedName pushResult) (Some name)));
        ("dedicatedAddress", of_string (address pushResult));
        ("secretInfo",
         Some (obj [ ("hash", Some (JStr (hash secretData)));
                     ("type", Some (JStr (type secretData)));
                     ("generatedAt", Some (JStr (generatedAt secretData)));
                     ("metadata", Some (metadata secretData)) ]));
        ("smsInfo",
         Some (obj [ ("pushed", Some (JBool (success pushResult)));
                     ("error", or_else (of_string (error pushResult)) (Some JNull)) ]));
        ("consumeInstructions",
         Some (obj [ ("description", Some (JStr "To use this secret in ConsumeApp:"));
                     ("requesterAddress", of_string (address pushResult));
                     ("secretType", Some (JStr "App Secret (Global)"));
                     ("note",
                      Some (JStr "The secret is set as the App Owner Secret for the Consume App.")) ])) ].

(** The secret a configured run generates. *)
Definition generated (env : Env) : Secret :=
  generateSecret (secretType (parseArgs (argv env) (clock env))) (clock env) (entropy env).

Definition main (env : Env) : Run :=
  match parseAppSecret (IEXEC_APP_DEVELOPER_SECRET env) with
  | None => {| result_json := not_configured; stored := [] |}
  | Some appConfig =>
      if negb (truthy (privateKey appConfig)) then
        {| result_json := not_configured; stored := [] |}
      else
        let a := parseArgs (argv env) (clock env) in
        let targetAddress := str_or (consumeAppAddress a) (CONSUME_APP_ADDRESS env) in
        let secretData := generateSecret (secretType a) (clock env) (entropy env) in
        let '(pushResult, held) :=
          if str_truthy targetAddress then
            pushSecretToSMS (sms env) targetAddress (secretName a)
                            (secret secretData) appConfig
          else
            ({| success := false; pushedName := None; address := None;
                error := Some "No Consume App Address provided" |}, []) in
        {| result_json := output pushResult (secretName a) secretData;
           stored := held |}
  end.

End TargetApp.

(* ================================================================== *)
(** ** The orchestration script ([scripts/test-full-flow.js]) *)

Module FullFlow.

Local Open Scope list_scope.

(** *** The status feed and [waitForTask] *)

Record Task : Type := mkTask { statusName : string }.

(** One [next] notification of the task observable: its [message] and
    its [task]. *)
Record Notice : Type := mkNotice { msg : string; task : option Task }.

(** How the observable ends: never, with [error], or with [complete].
    Nothing is delivered after either. *)
Inductive FeedEnd : Type :=
| StillOpen
| Errored (e : Error)
| Completed.

(** The whole life of a task observable: every notification it ever
    delivers, in order, and how it ends. *)
Record Feed : Type := mkFeed { notices : list Notice; ending : FeedEnd }.

(** State of the promise [waitForTask] returns. *)
Inductive Settled : Type :=
| Pending
| Fulfilled (t : option Task)
| Rejected (e : Error).

(** The lock file, by what reading it back gives. *)
Inductive LockFile : Type :=
| NoFile
| Corrupt                                 (* [JSON.parse] throws *)
| Holds (data : json).

(** What a run prints and does, in order. *)
Inductive Event : Type :=
| LogWallet (a : string)
| LogPermissionUpdated
| LogPermissionExists
| LogPermissionError (m : option string)
| LogReuse (h : value)
| LogStep1 (consumer : option string)
| LogArgs (args : string)
| LogStep2
| LogDeal (dealid : string)
| LogWaiting (taskId : string)
| LogStatus (m : string)
| LogPollingWarn (m : string)
| LogFinished
| LogResult (location : option string)
| LogFetchError
| LogHashTarget (h : value)
| WroteLock (data : json)
| LogSaved
| LogPreview (p : value)
| LogHashConsume (h : value)
| LogErrorTarget (m : option string)
| LogErrorConsume (m : option string)
| LogExpected (h : value)
| LogActual (h : value)
| LogMatch
| LogPersistent
| LogInitial
| LogMismatch
| LogMissingTarget
| LogFatal (m : option string).

(** *** Computations: a lock file, a log, and four ways to end *)

Inductive Res (A : Type) : Type :=
| Ret (a : A)
| Throw (e : Error)
| Exit (code : Z)                         (* [process.exit] *)
| Hang.                                   (* an awaited promise never settles *)
Arguments Ret {A} a.
Arguments Throw {A} e.
Arguments Exit {A} code.
Arguments Hang {A}.

Record Step (A : Type) : Type := mkStep {
  res : Res A;
  file : LockFile;
  out : list Event
}.
Arguments mkStep {A} res file out.
Arguments res {A} s.
Arguments file {A} s.
Arguments out {A} s.

Definition M (A : Type) : Type := LockFile -> Step A.

Definition ret {A} (a : A) : M A := fun lk => mkStep (Ret a) lk [].
Definition throw {A} (e : Error) : M A := fun lk => mkStep (Throw e) lk [].
Definition exit {A} (code : Z) : M A := fun lk => mkStep (Exit code) lk [].
Definition emit (ev : Event) : M unit := fun lk => mkStep (Ret tt) lk [ev].
Definition emits (evs : list Event) : M unit := fun lk => mkStep (Ret tt) lk evs.
Definition readLock : M LockFile := fun lk => mkStep (Ret lk) lk [].
Definition writeLock (data : json) : M unit :=
  fun _ => mkStep (Ret tt) (Holds data) [WroteLock data].

Definition bind {A B} (m : M A) (k : A -> M B) : M B :=
  fun lk =>
    match m lk with
    | mkStep (Ret a) lk' o =>
        match k a lk' with
        | mkStep r lk'' o' => mkStep r lk'' (o ++ o')
        end
    | mkStep (Throw e) lk' o => mkStep (Throw e) lk' o
    | mkStep (Exit c) lk' o => mkStep (Exit c) lk' o
    | mkStep Hang lk' o => mkStep Hang lk' o
    end.

(** [try { m } catch (error) { handler error }] *)
Definition try_catch {A} (m : M A) (handler : Error -> M A) : M A :=
  fun lk =>
    match m lk with
    | mkStep (Throw e) lk' o =>
        match handler e lk' with
        | mkStep r lk'' o' => mkStep r lk'' (o ++ o')
        end
    | s => s
    end.

(** [await] of one SDK call *)
Definition await {A} (call : Sdk A) : M A :=
  match call with
  | Resolves a => ret a
  | Rejects e => throw e
  end.

Declare Scope flow_scope.
Delimit Scope flow_scope with flow.
Notation "x <- m ;; k" := (bind m (fun x => k))
  (at level 61, m at next level, right associativity) : flow_scope.
Notation "m ;; k" := (bind m (fun _ => k))
  (at level 61, right associativity) : flow_scope.
Local Open Scope flow_scope.

(** The [next] callback over the notifications, up to the one that
    settles the promise (a later one can only print). *)
Definition logged (n : Notice) : list Event :=
  match task n with
  | Some t =>
      if existsb (String.eqb (statusName t)) ["TASK_COMPLETED"; "TASK_FAILED"; "TASK_TIMEDOUT"]
      then [LogStatus (msg n)] else []
  | None => [LogStatus (msg n)]
  end.

Definition settles (n : Notice) : Settled :=
  match task n with
  | Some t =>
      if (statusName t =? "COMPLETED")%string then Fulfilled (Some t)
      else if (statusName t =? "FAILED")%string || (statusName t =? "TIMEDOUT")%string
           then Rejected (Js.error ("Task ended with status " ++ statusName t))
           else Pending
  | None => Pending
  end.

Fixpoint subscribe (ns : list Notice) : list Event * Settled :=
  match ns with
  | [] => ([], Pending)
  | n :: rest =>
      match settles n with
      | Pending => let '(evs, s) := subscribe rest in (logged n ++ evs, s)
      | s => (logged n, s)
      end
  end.

(** The [error] and [complete] callbacks. *)
Definition ended (e : FeedEnd) : list Event * Settled :=
  match e with
  | StillOpen => ([], Pending)
  | Errored err =>
      (match message err with
       | Some m => if negb (m =? "")%string && negb (Str.includes m "Task not found")
                   then [LogPollingWarn m] else []
       | None => []
       end, Pending)
  | Completed => ([], Fulfilled None)
  end.

Definition observe (f : Feed) : list Event * Settled :=
  match subscribe (notices f) with
  | (evs, Pending) => let '(evs', s) := ended (ending f) in (evs ++ evs', s)
  | r => r
  end.

(** (The five seconds [waitForTask] lets pass before it subscribes do not
    change what it returns.) *)
Definition waitForTask (obsTask : Sdk Feed) (taskId : string) : M (option Task) :=
  emit (LogWaiting (substring 0 10 taskId));;
  taskObservable <- await obsTask;;
  let '(evs, s) := observe taskObservable in
  emits evs;;
  match s with
  | Fulfilled t => ret t
  | Rejected e => throw e
  | Pending => fun lk => mkStep Hang lk []
  end.

(** *** Remote executions *)

(** The answers of the SDK during one execution. *)
Record Remote : Type := mkRemote {
  createApporder : Sdk unit;
  signApporder : Sdk unit;
  fetchWorkerpoolOrderbook : Sdk (list string);   (* the [orders] found *)
  createRequestorder : Sdk unit;
  signRequestorder : Sdk unit;
  matchOrders : Sdk string;                       (* [dealid] *)
  dealShow : Sdk string;                          (* [deal.tasks['0']] *)
  obsTask : Sdk Feed;
  taskShow : Sdk (option string)                  (* [results?.location] *)
}.

Record Config : Type := mkConfig {
  targetApp : option string;
  consumeApp : option string
}.

Record World : Type := mkWorld {
  CONFIG : Config;
  clock : TargetApp.Clock;
  wallet : Sdk string;                 (* signer, SDK object, [getAddress] *)
  permissionPush : Sdk bool;           (* [pushAppSecret] of step 0 *)
  target : Remote;
  consume : Remote;
  gateway : option string -> option json
    (* download, unzip and parse of [result.json]; [None] when any of it throws *)
}.

Record ExecResult : Type := mkExecResult {
  dealId : string;
  taskId : string;
  resultLocation : option string
}.

Definition fetchWorkerpoolOrder (r : Remote) : M string :=
  orders <- await (fetchWorkerpoolOrderbook r);;
  match orders with
  | [] => throw (Js.error "No TEE workerpool order available")
  | o :: _ => ret o
  end.

Definition createAppOrder (r : Remote) : M unit :=
  await (createApporder r);; await (signApporder r).

(** [`${x}`] of a configuration string *)
Definition shown (x : option string) : string :=
  match x with Some s => s | None => "undefined" end.

Section Run.

Variable w : World.

Definition setupTargetAppPermissions : M unit :=
  try_catch
    (isPushed <- await (permissionPush w);;
     if isPushed : bool then emit LogPermissionUpdated
     else throw (Js.error "Push returned false"))
    (fun error =>
       match message error with
       | Some m =>
           if negb (m =? "")%string && Str.includes m "already exists"
           then emit LogPermissionExists
           else emit (LogPermissionError (message error));; throw error
       | None => emit (LogPermissionError None);; throw error
       end).

Definition executeTargetApp (consumeAppAddress : option string) (secretName : string)
  : M ExecResult :=
  let r := target w in
  emit (LogStep1 consumeAppAddress);;
  createAppOrder r;;
  _ <- fetchWorkerpoolOrder r;;
  let args := (shown consumeAppAddress ++ "," ++ secretName ++ ",api-key")%string in
  emit (LogArgs args);;
  await (createRequestorder r);;
  await (signRequestorder r);;
  dealid <- await (matchOrders r);;
  emit (LogDeal dealid);;
  taskId <- await (dealShow r);;
  waitForTask (obsTask r) taskId;;
  location <- await (taskShow r);;
  emit LogFinished;;
  ret {| dealId := dealid; taskId := taskId; resultLocation := location |}.

Definition executeConsumeApp : M ExecResult :=
  let r := consume w in
  emit LogStep2;;
  createAppOrder r;;
  _ <- fetchWorkerpoolOrder r;;
  await (createRequestorder r);;
  await (signRequestorder r);;
  dealid <- await (matchOrders r);;
  emit (LogDeal dealid);;
  taskId <- await (dealShow r);;
  waitForTask (obsTask r) taskId;;
  location <- await (taskShow r);;
  emit LogFinished;;
  ret {| dealId := dealid; taskId := taskId; resultLocation := location |}.

(** Every failure inside is caught and turned into [null]. *)
Definition fetchResult (location : option string) : M value :=
  match gateway w location with
  | Some doc => ret (Some doc)
  | None => emit LogFetchError;; ret (Some JNull)
  end.

Definition getLockState : M value :=
  lk <- readLock;;
  match lk with
  | NoFile => ret (Some JNull)
  | Corrupt => ret (Some JNull)
  | Holds data =>
      match member (Some data) "appAddress" with
      | TypeError => ret (Some JNull)
      | Got a =>
          if strict_eq a (of_string (consumeApp (CONFIG w)))
          then ret (Some data) else ret (Some JNull)
      end
  end.

Definition saveLockState (h : value) : M unit :=
  writeLock (obj [ ("appAddress", of_string (consumeApp (CONFIG w)));
                   ("secretHash", h);
                   ("timestamp", Some (JStr (TargetApp.now_iso (clock w)))) ]).

(** [targetData.secretInfo?.hash], with the [generatedSecret.sha256]
    fallback. *)
Definition targetHash (targetData : value) : value :=
  let h := member_opt (field targetData "secretInfo") "hash" in
  if negb (truthy h) && truthy (field targetData "generatedSecret")
     && truthy (field (field targetData "generatedSecret") "sha256")
  then field (field targetData "generatedSecret") "sha256"
  else h.

(** The test that selects the re-use branch. *)
Definition reuse (existingState : value) : bool :=
  truthy existingState && truthy (field existingState "secretHash").

(** Step 1, the [else] branch: provisioning.  (Printing the fetched
    digest is taken to succeed: a digest that cannot be turned into text,
    see [printable] below, would throw inside the [try].) *)
Definition provision (secretName : string) : M value :=
  try_catch
    (targetResult <- executeTargetApp (consumeApp (CONFIG w)) secretName;;
     emit (LogResult (resultLocation targetResult));;
     targetData <- fetchResult (resultLocation targetResult);;
     if truthy targetData then
       let targetAppHash := targetHash targetData in
       emit (LogHashTarget targetAppHash);;
       (if truthy targetAppHash
        then saveLockState targetAppHash;; emit LogSaved
        else ret tt);;
       ret targetAppHash
     else ret undefined)
    (fun error => emit (LogErrorTarget (message error));; exit 1).

(** Step 2: the consumer.  (Printing the preview and the digest is taken
    to succeed, as in step 1.) *)
Definition consumption : M value :=
  try_catch
    (consumeResult <- executeConsumeApp;;
     emit (LogResult (resultLocation consumeResult));;
     consumeData <- fetchResult (resultLocation consumeResult);;
     if truthy consumeData then
       let consumeAppHash := member_opt (field consumeData "hashes") "sha256" in
       (if truthy (field consumeData "preview")
        then emit (LogPreview (field consumeData "preview")) else ret tt);;
       emit (LogHashConsume consumeAppHash);;
       ret consumeAppHash
     else ret undefined)
    (fun error => emit (LogErrorConsume (message error));; exit 1).

(** Step 3: the comparison and the verdict it prints. *)
Definition verdict (targetAppHash consumeAppHash existingState : value) : list Event :=
  if truthy targetAppHash && truthy consumeAppHash
     && strict_eq targetAppHash consumeAppHash
  then LogMatch :: (if truthy existingState then [LogPersistent] else [LogInitial])
  else LogMismatch :: (if negb (truthy targetAppHash) then [LogMissingTarget] else []).

(** Step 3 as a whole: the two digests as shown, then the verdict. *)
Definition verification (targetAppHash consumeAppHash existingState : value)
  : list Event :=
  [ LogExpected (or_else targetAppHash (Some (JStr "Unknown")));
    LogActual (or_else consumeAppHash (Some (JStr "N/A"))) ]
  ++ verdict targetAppHash consumeAppHash existingState.

(** Step 1 as a whole: re-use the recorded digest, or provision. *)
Definition step1 (existingState : value) (secretName : string) : M value :=
  if reuse existingState
  then emit (LogReuse (field existingState "secretHash"));;
       ret (field existingState "secretHash")
  else provision secretName.

(** [`app-secret-test-${Date.now()}`] *)
Definition secretName : string :=
  ("app-secret-test-" ++ Str.of_Z (TargetApp.now_ms (clock w)))%string.

Definition main : M unit :=
  walletAddress <- await (wallet w);;
  emit (LogWallet walletAddress);;
  existingState <- getLockState;;
  setupTargetAppPermissions;;
  targetAppHash <- step1 existingState secretName;;
  consumeAppHash <- consumption;;
  emits (verification targetAppHash consumeAppHash existingState).

(** [main().catch(err => ... process.exit(1))] *)
Definition run : M unit :=
  try_catch main (fun err => emit (LogFatal (message err));; exit 1).

End Run.

End FullFlow.

(* ================================================================== *)
(** ** The two programs together *)

Module End2End.

Import FullFlow.

(** Where the producer execution leaves its result, when [task.show]
    answers. *)
Definition target_location (w : World) : option string :=
  match taskShow (target w) with
  | Resolves l => l
  | Rejects _ => None
  end.

Definition same_location (a b : option string) : bool :=
  match a, b with
  | Some x, Some y => (x =? y)%string
  | None, None => true
  | _, _ => false
  end.

(** The world in which the result gateway serves, at the producer's
    result location, the document the generator iApp wrote in [env]. *)
Definition link (env : TargetApp.Env) (w : World) : World :=
  {| CONFIG := CONFIG w;
     clock := clock w;
     wallet := wallet w;
     permissionPush := permissionPush w;
     target := target w;
     consume := consume w;
     gateway := fun loc =>
       if same_location loc (target_location w)
       then Some (TargetApp.result_json (TargetApp.main env))
       else gateway w loc |}.


End End2End.

(* ================================================================== *)
(** ** Notions used to state the properties *)

Module Notions.

Import FullFlow End2End.
Local Open Scope list_scope.
Local Open Scope flow_scope.

(** *** The generator *)

(** The App Secret is present and carries a private key. *)
Definition configured (env : TargetApp.Env) : bool :=
  match TargetApp.parseAppSecret (TargetApp.IEXEC_APP_DEVELOPER_SECRET env) with
  | Some cfg => truthy (TargetApp.privateKey cfg)
  | None => false
  end.

(** The types [generateSecret] knows by name. *)
Definition recognised (secretType : string) : bool :=
  existsb (String.eqb (Str.toLowerCase secretType))
          ["api-key"; "password"; "token"; "uuid"; "hex"; "private-key"].

(** *** The orchestration *)

(** What [getLockState] returns. *)
Definition lockState (w : World) (lk : LockFile) : value :=
  match res (getLockState w lk) with
  | Ret v => v
  | _ => Some JNull
  end.

(** The record [saveLockState] writes for a digest. *)
Definition lock_record (w : World) (h : value) : json :=
  obj [ ("appAddress", of_string (consumeApp (CONFIG w)));
        ("secretHash", h);
        ("timestamp", Some (JStr (TargetApp.now_iso (clock w)))) ].

Inductive CoordState : Type := NEEDS_PROVISION | REUSE.

(** The state the coordinator is in once the lock file has been read. *)
Definition coordinator (w : World) (lk : LockFile) : CoordState :=
  if reuse (lockState w lk) then REUSE else NEEDS_PROVISION.

(** The errors step 0 tolerates. *)
Definition already_exists (e : Error) : bool :=
  match message e with
  | Some m => negb (m =? "")%string && Str.includes m "already exists"
  | None => false
  end.

(** Step 0 lets the run go on. *)
Definition setup_passes (w : World) : bool :=
  match permissionPush w with
  | Resolves isPushed => isPushed
  | Rejects e => already_exists e
  end.

(** The digest step 1 obtains from a result location. *)
Definition fetched_digest (w : World) (location : option string) : value :=
  match gateway w location with
  | Some doc => if truthy (Some doc) then targetHash (Some doc) else undefined
  | None => undefined
  end.

(** How a run ends when the stage [s] did not return, after printing
    [pre]: an uncaught error reaches the final handler. *)
Definition halted {A B} (s : Step A) (pre : list Event) : Step B :=
  match res s with
  | Throw e => mkStep (Exit 1) (file s) (pre ++ out s ++ [LogFatal (message e)])
  | Exit c => mkStep (Exit c) (file s) (pre ++ out s)
  | _ => mkStep Hang (file s) (pre ++ out s)
  end.

(** A computation is [quiet P] when it leaves the lock file alone and
    prints only events of the class [P]. *)
Definition quiet {A} (P : Event -> bool) (m : M A) : Prop :=
  forall lk, file (m lk) = lk /\ forallb P (out (m lk)) = true.

(** Classes of events. *)
Definition of_polling (ev : Event) : bool :=
  match ev with
  | LogWaiting _ | LogStatus _ | LogPollingWarn _ => true
  | _ => false
  end.

Definition of_execution (ev : Event) : bool :=
  match ev with
  | LogDeal _ | LogFinished => true
  | _ => of_polling ev
  end.

Definition of_target (ev : Event) : bool :=
  match ev with
  | LogStep1 _ | LogArgs _ => true
  | _ => of_execution ev
  end.

Definition of_consume (ev : Event) : bool :=
  match ev with
  | LogStep2 => true
  | _ => of_execution ev
  end.

Definition of_setup (ev : Event) : bool :=
  match ev with
  | LogPermissionUpdated | LogPermissionExists | LogPermissionError _ => true
  | _ => false
  end.

Definition of_consumption (ev : Event) : bool :=
  match ev with
  | LogResult _ | LogFetchError | LogPreview _ | LogHashConsume _
  | LogErrorConsume _ => true
  | _ => of_consume ev
  end.

Definition of_verification (ev : Event) : bool :=
  match ev with
  | LogExpected _ | LogActual _ | LogMatch | LogPersistent | LogInitial
  | LogMismatch | LogMissingTarget => true
  | _ => false
  end.

Definition of_provision (ev : Event) : bool :=
  match ev with
  | LogStep1 _ | LogArgs _ | LogHashTarget _ | WroteLock _ | LogSaved
  | LogErrorTarget _ => true
  | _ => false
  end.

(** Events of step 1 when it provisions. *)
Definition of_step1 (ev : Event) : bool :=
  match ev with
  | LogResult _ | LogFetchError => true
  | _ => of_target ev || of_provision ev
  end.

(** Events of every stage but step 1. *)
Definition of_frame (ev : Event) : bool :=
  match ev with
  | LogWallet _ | LogFatal _ => true
  | _ => of_setup ev || of_consumption ev || of_verification ev
  end.

(** The run obtains a producer result. *)
Definition provisions (w : World) (lk : LockFile) : bool :=
  match wallet w with
  | Resolves _ =>
      setup_passes w && negb (reuse (lockState w lk))
      && match res (executeTargetApp w (consumeApp (CONFIG w)) (secretName w) lk) with
         | Ret _ => true
         | _ => false
         end
  | Rejects _ => false
  end.

(** *** What is persisted *)



(** *** Texts *)

(** The characters of a string. *)
Definition chars (s : string) : list ascii := list_ascii_of_string s.

Definition is_lower (c : ascii) : bool := (97 <=? Str.code c) && (Str.code c <=? 122).

Definition is_hexdigit (c : ascii) : bool :=
  ((48 <=? Str.code c) && (Str.code c <=? 57))
  || ((97 <=? Str.code c) && (Str.code c <=? 102)).

Definition is_alphanumeric (c : ascii) : bool :=
  ((48 <=? Str.code c) && (Str.code c <=? 57))
  || ((65 <=? Str.code c) && (Str.code c <=? 90))
  || ((97 <=? Str.code c) && (Str.code c <=? 122)).

(** Text within the ASCII range, where the string helpers are exact. *)
Definition ascii_only (s : string) : bool :=
  forallb (fun c => Str.code c <? 128) (chars s).

(** An ASCII character that is neither a comma nor white space. *)
Definition is_plain (c : ascii) : bool :=
  (Str.code c <? 128) && negb (Str.is_space c) && negb (Str.code c =? 44).

Definition plain (s : string) : bool := forallb is_plain (chars s).

(** Length of the base64 text of [n] bytes. *)
Fixpoint b64_length (padded : bool) (n : nat) : nat :=
  match n with
  | O => 0
  | S O => if padded then 4 else 2
  | S (S O) => if padded then 4 else 3
  | S (S (S m)) => 4 + b64_length padded m
  end%nat.

(** *** The generator's report *)

(** The address the generator pushes to: the one of the arguments, or
    else [CONSUME_APP_ADDRESS]. *)
Definition targetAddress (env : TargetApp.Env) : option string :=
  TargetApp.str_or
    (TargetApp.consumeAppAddress (TargetApp.parseArgs (TargetApp.argv env) (TargetApp.clock env)))
    (TargetApp.CONSUME_APP_ADDRESS env).

(** [smsInfo.error] of a result document. *)
Definition reported_error (doc : json) : value :=
  field (field (Some doc) "smsInfo") "error".

(** *** The stages of the orchestration *)

(** A computation that neither reads nor writes the lock file and does
    not end the process: its result and its output are the same whatever
    the lock file holds. *)
Definition detached {A} (m : M A) : Prop :=
  exists r o, (forall lk, m lk = mkStep r lk o) /\ (forall c, r <> Exit c).

(** Events of the stages before step 3. *)
Definition of_stage (ev : Event) : bool := negb (of_verification ev).

(** The digest step 2 obtains from a result location. *)
Definition observed_digest (w : World) (location : option string) : value :=
  match gateway w location with
  | Some doc =>
      if truthy (Some doc) then member_opt (field (Some doc) "hashes") "sha256"
      else undefined
  | None => undefined
  end.

(** Every SDK call of an execution resolved, a workerpool order was on
    offer, and the task completed: the result the execution returns. *)
Definition completes (r : Remote) (result : ExecResult) : Prop :=
  createApporder r = Resolves tt /\ signApporder r = Resolves tt
  /\ (exists order rest, fetchWorkerpoolOrderbook r = Resolves (order :: rest))
  /\ createRequestorder r = Resolves tt /\ signRequestorder r = Resolves tt
  /\ matchOrders r = Resolves (dealId result)
  /\ dealShow r = Resolves (taskId result)
  /\ (exists f t, obsTask r = Resolves f /\ snd (observe f) = Fulfilled t)
  /\ taskShow r = Resolves (resultLocation result).

(** *** The record and its renewal *)

(** A Fingerprint Record: a lock-file document that carries a digest.
    Every document [saveLockState] writes is one, since the script calls
    it with a truthy digest only. *)
Definition fingerprint_record (data : json) : bool :=
  truthy (field (Some data) "secretHash").

(** The world with other answers of the SDK to the producer execution. *)
Definition with_target (w : World) (t : Remote) : World :=
  {| CONFIG := CONFIG w;
     clock := clock w;
     wallet := wallet w;
     permissionPush := permissionPush w;
     target := t;
     consume := consume w;
     gateway := gateway w |}.

(** The arguments the script hands to the generator iApp. *)
Definition producer_args (w : World) : string :=
  (shown (consumeApp (CONFIG w)) ++ "," ++ secretName w ++ ",api-key")%string.

(** The run provisions anew.  It cannot end normally unless the producer
    execution completed.  When that execution completes, the run has made
    the deal with the generator's arguments and has asked for its result;
    a digest read from that result (a non-empty text) then replaces
    whatever the lock file held, and is the digest step 3 expects; a
    result without a digest leaves the lock file as it was. *)
Definition reprovisions (w : World) (lk : LockFile) : Prop :=
  (res (run w lk) = Ret tt -> exists r, completes (target w) r)
  /\ (forall r, completes (target w) r ->
      In (LogArgs (producer_args w)) (out (run w lk))
      /\ In (LogDeal (dealId r)) (out (run w lk))
      /\ In (LogResult (resultLocation r)) (out (run w lk))
      /\ (forall h, fetched_digest w (resultLocation r) = Some (JStr h) -> h <> "" ->
          file (run w lk) = Holds (lock_record w (Some (JStr h)))
          /\ In (WroteLock (lock_record w (Some (JStr h)))) (out (run w lk))
          /\ (forall h', In (LogExpected h') (out (run w lk)) -> h' = Some (JStr h)))
      /\ (truthy (fetched_digest w (resultLocation r)) = false ->
          file (run w lk) = lk)).

(** *** Printing what was fetched *)



(** *** The value and the result document *)




(** Every text of a document: property names and string values. *)
Fixpoint texts (doc : json) : list string :=
  match doc with
  | JStr s => [s]
  | JArr items => flat_map texts items
  | JObj fields => flat_map (fun kv => fst kv :: texts (snd kv)) fields
  | _ => []
  end.

(** Some text of the document contains [v]. *)
Definition mentions (doc : json) (v : string) : bool :=
  existsb (fun t => Str.includes t v) (texts doc).

(** *** Statements of the specification that the code does not meet *)

(** The reading of C3: without a digest the run ends before the consumer
    stage. *)
Definition aborts_without_digest (w : World) (lk : LockFile) : Prop :=
  forall r,
    res (executeTargetApp w (consumeApp (CONFIG w)) (secretName w) lk) = Ret r ->
    truthy (fetched_digest w (resultLocation r)) = false ->
    res (run w lk) = Exit 1 /\ ~ In LogStep2 (out (run w lk)).


(** The reading of C6: the verdict tells an absent observed digest from a
    present one that differs from the expected digest. *)
Definition verdict_tells_missing_observed : Prop :=
  forall expected observed observed' existingState : value,
    truthy expected = true -> truthy observed = false ->
    truthy observed' = true -> strict_eq expected observed' = false ->
    verdict expected observed existingState
    <> verdict expected observed' existingState.

(** The reading of C7: a wait on a feed that delivers no terminal status
    and never ends is ended by an error. *)
Definition wait_times_out (f : Feed) : Prop :=
  Forall (fun n => settles n = Pending) (notices f) -> ending f = StillOpen ->
  forall taskId lk, exists e, res (waitForTask (Resolves f) taskId lk) = Throw e.

(** The reading of C1: a record is written only for a digest whose secret
    the store accepted. *)
Definition recorded_only_if_pushed (env : TargetApp.Env) (w : World) (lk : LockFile)
  : Prop :=
  forall data,
    In (WroteLock data) (out (run (link env w) lk)) ->
    exists address value,
      In (address, value) (TargetApp.stored (TargetApp.main env))
      /\ field (Some data) "secretHash" = Some (JStr (Sha256.sha256_hex value)).

(** The reading of C4: no text of the result document contains the
    generated value. *)
Definition value_kept_out_of_result (env : TargetApp.Env) : Prop :=
  mentions (TargetApp.result_json (TargetApp.main env))
           (TargetApp.secret (TargetApp.generated env)) = false.

End Notions.
Export Notions.

(* ================================================================== *)
(** ** Sample inputs *)

Module Sample.

Import FullFlow.

Definition zero_entropy : TargetApp.Entropy := fun _ => x00%byte.
Definition count_entropy : TargetApp.Entropy :=
  fun i => match Byte.of_N (N.of_nat i mod 256) with Some b => b | None => x00%byte end.
Definition clock0 : TargetApp.Clock := TargetApp.mkClock 1700000000123 "2023-11-14T22:13:20.123Z".

Definition consumer : string := "0x1111111111111111111111111111111111111111".
Definition owner : string := "0x2222222222222222222222222222222222222222".

Definition completed : Feed :=
  mkFeed [ mkNotice "TASK_UPDATED" (Some (mkTask "ACTIVE"));
           mkNotice "TASK_COMPLETED" (Some (mkTask "COMPLETED")) ] Completed.

Definition timed_out : Feed :=
  mkFeed [ mkNotice "TASK_UPDATED" (Some (mkTask "ACTIVE"));
           mkNotice "TASK_TIMEDOUT" (Some (mkTask "TIMEDOUT")) ] Completed.

Definition silent : Feed := mkFeed [] StillOpen.

Definition remote (feed : Feed) (deal location : string) : Remote :=
  {| createApporder := Resolves tt;
     signApporder := Resolves tt;
     fetchWorkerpoolOrderbook := Resolves ["workerpoolorder"];
     createRequestorder := Resolves tt;
     signRequestorder := Resolves tt;
     matchOrders := Resolves deal;
     dealShow := Resolves (deal ++ "-task0")%string;
     obsTask := Resolves feed;
     taskShow := Resolves (Some location) |}.

Definition consumer_doc (digest : string) : json :=
  obj [ ("hashes", Some (obj [("sha256", Some (JStr digest))]));
        ("preview", Some (JStr "abcd****")) ].

(** A world in which both executions complete and the consumer reports
    [digest]; the producer's document is supplied by [End2End.link]. *)
Definition world (digest : string) : World :=
  {| CONFIG := mkConfig (Some "0x3333333333333333333333333333333333333333") (Some consumer);
     clock := clock0;
     wallet := Resolves owner;
     permissionPush := Resolves true;
     target := remote completed "0xdeal1" "/ipfs/target";
     consume := remote completed "0xdeal2" "/ipfs/consume";
     gateway := fun loc =>
       if End2End.same_location loc (Some "/ipfs/consume")
       then Some (consumer_doc digest) else None |}.

Definition app_secret : json :=
  obj [ ("DEDICATED_PRIVATE_KEY", Some (JStr "0xkey"));
        ("SMS_URL", Some (JStr "https://sms.example")) ].

(** The generator iApp as the script starts it, with a given answer of
    the secret store. *)
Definition env (push : Sdk bool) : TargetApp.Env :=
  {| TargetApp.IEXEC_APP_DEVELOPER_SECRET := TargetApp.Parses app_secret;
     TargetApp.CONSUME_APP_ADDRESS := None;
     TargetApp.argv := [(consumer ++ ",app-secret-test-1700000000123,api-key")%string];
     TargetApp.clock := clock0;
     TargetApp.entropy := count_entropy;
     TargetApp.sms :=
       {| TargetApp.isAddress := fun a => (String.length a =? 42)%nat;
          TargetApp.getSigner := Resolves tt;
          TargetApp.getAddress := Resolves owner;
          TargetApp.pushAppSecret := fun _ _ => push |} |}.


Definition digest0 : string :=
  Eval vm_compute in Sha256.sha256_hex "abcd_EFGHIJKLMNOPQRSTUVWXYZabcdefghij".

Definition record (digest : string) : json :=
  obj [ ("appAddress", Some (JStr consumer));
        ("secretHash", Some (JStr digest));
        ("timestamp", Some (JStr "2023-11-14T22:13:20.123Z")) ].

Definition foreign_record : json :=
  obj [ ("appAddress", Some (JStr "0x9999999999999999999999999999999999999999"));
        ("secretHash", Some (JStr digest0));
        ("timestamp", Some (JStr "2023-11-14T22:13:20.123Z")) ].

Definition bare_record : json :=
  obj [ ("appAddress", Some (JStr consumer));
        ("secretHash", Some (JStr ""));
        ("timestamp", Some (JStr "2023-11-14T22:13:20.123Z")) ].

(** The producer task runs out of time. *)
Definition overdue : World :=
  {| CONFIG := CONFIG (world digest0);
     clock := clock0;
     wallet := Resolves owner;
     permissionPush := Resolves true;
     target := remote timed_out "0xdeal1" "/ipfs/target";
     consume := consume (world digest0);
     gateway := gateway (world digest0) |}.


(** The consumer task fails. *)
Definition consumer_fails : World :=
  {| CONFIG := CONFIG (Sample.world Sample.digest0);
     clock := Sample.clock0;
     wallet := Resolves Sample.owner;
     permissionPush := Resolves true;
     target := target (Sample.world Sample.digest0);
     consume := Sample.remote Sample.timed_out "0xdeal2" "/ipfs/consume";
     gateway := gateway (Sample.world Sample.digest0) |}.

(** No workerpool order is on offer for the producer. *)
Definition no_workers : World :=
  {| CONFIG := CONFIG (Sample.world Sample.digest0);
     clock := Sample.clock0;
     wallet := Resolves Sample.owner;
     permissionPush := Resolves true;
     target :=
       {| createApporder := Resolves tt;
          signApporder := Resolves tt;
          fetchWorkerpoolOrderbook := Resolves [];
          createRequestorder := Resolves tt;
          signRequestorder := Resolves tt;
          matchOrders := Resolves "0xdeal1";
          dealShow := Resolves "0xdeal1-task0";
          obsTask := Resolves Sample.completed;
          taskShow := Resolves (Some "/ipfs/target") |};
     consume := consume (Sample.world Sample.digest0);
     gateway := gateway (Sample.world Sample.digest0) |}.

End Sample.

(* ================================================================== *)
(** ** Test vectors *)

Example sha256_abc :
  Sha256.sha256_hex "abc"
  = "ba7816bf8f01cfea414140de5dae2223b00361a396177a9cb410ff61f20015ad".
Proof. vm_compute. reflexivity. Qed.

Example sha256_empty :
  Sha256.sha256_hex ""
  = "e3b0c44298fc1c149afbf4c8996fb92427ae41e4649b934ca495991b7852b855".
Proof. vm_compute. reflexivity. Qed.

Example sha256_two_blocks :
  Sha256.sha256_hex "abcdbcdecdefdefgefghfghighijhijkijkljklmklmnlmnomnopnopq"
  = "248d6a61d20638b8e5c026930c3e6039a33ce45964ff2167f6ecedd419db06c1".
Proof. vm_compute. reflexivity. Qed.

Example base64url_header :
  Enc.base64url (Str.bytes ("{" ++ Str.dq ++ "alg" ++ Str.dq ++ ":" ++ Str.dq ++ "HS256"
                           ++ Str.dq ++ "," ++ Str.dq ++ "typ" ++ Str.dq ++ ":" ++ Str.dq
                           ++ "JWT" ++ Str.dq ++ "}"))
  = "eyJhbGciOiJIUzI1NiIsInR5cCI6IkpXVCJ9".
Proof. vm_compute. reflexivity. Qed.

Example base64_padding :
  Enc.base64 (Str.bytes "Ma") = "TWE=" /\ Enc.base64 (Str.bytes "M") = "TQ=="
  /\ Enc.base64 (Str.bytes "Man") = "TWFu".
Proof. vm_compute. auto. Qed.

Example trim_split :
  map Str.trim (Str.split_comma (Str.trim "  0xabc , my name,api-key "))
  = ["0xabc"; "my name"; "api-key"].
Proof. vm_compute. reflexivity. Qed.

Example uuid_count :
  fst (TargetApp.generateUUID Sample.count_entropy) = "00010203-0405-4607-8809-0a0b0c0d0e0f".
Proof. vm_compute. reflexivity. Qed.

Example apikey_count :
  TargetApp.secret (TargetApp.generateSecret "API-Key" Sample.clock0 Sample.count_entropy)
  = "abcd_EFGHIJKLMNOPQRSTUVWXYZabcdefghij".
Proof. vm_compute. reflexivity. Qed.

Example fallback_zero :
  TargetApp.secret (TargetApp.generateSecret "no such type" Sample.clock0 Sample.zero_entropy)
  = "AAAAAAAAAAAAAAAAAAAAAAAAAAAAAAAAAAAAAAAAAAA=".
Proof. vm_compute. reflexivity. Qed.

(** A first run: the secret is provisioned, its digest recorded, and the
    consumer reports the same digest. *)
Example scenario_first_run :
  let s := FullFlow.run (End2End.link (Sample.env (Resolves true))
                                      (Sample.world Sample.digest0)) FullFlow.NoFile in
  FullFlow.res s = FullFlow.Ret tt
  /\ FullFlow.file s = FullFlow.Holds (Sample.record Sample.digest0)
  /\ firstn 2 (rev (FullFlow.out s)) = [FullFlow.LogInitial; FullFlow.LogMatch].
Proof. vm_compute. repeat split. Qed.

(** A second run: the record is re-used and the producer is not run. *)
Example scenario_reuse :
  let s := FullFlow.run (Sample.world Sample.digest0)
                        (FullFlow.Holds (Sample.record Sample.digest0)) in
  FullFlow.res s = FullFlow.Ret tt
  /\ FullFlow.file s = FullFlow.Holds (Sample.record Sample.digest0)
  /\ firstn 3 (FullFlow.out s)
     = [ FullFlow.LogWallet Sample.owner; FullFlow.LogPermissionUpdated;
         FullFlow.LogReuse (Some (JStr Sample.digest0)) ]
  /\ firstn 2 (rev (FullFlow.out s)) = [FullFlow.LogPersistent; FullFlow.LogMatch].
Proof. vm_compute. repeat split. Qed.

(** The consumer reports another digest than the recorded one. *)
Example scenario_drift :
  let s := FullFlow.run (Sample.world "ffff")
                        (FullFlow.Holds (Sample.record Sample.digest0)) in
  FullFlow.res s = FullFlow.Ret tt
  /\ firstn 1 (rev (FullFlow.out s)) = [FullFlow.LogMismatch].
Proof. vm_compute. repeat split. Qed.

(** The producer task times out: the run stops with exit code 1, nothing
    is recorded, and the next run provisions again. *)
Example scenario_timed_out :
  let s := FullFlow.run Sample.overdue FullFlow.NoFile in
  FullFlow.res s = FullFlow.Exit 1
  /\ FullFlow.file s = FullFlow.NoFile
  /\ firstn 1 (rev (FullFlow.out s))
     = [FullFlow.LogErrorTarget (Some "Task ended with status TIMEDOUT")]
  /\ coordinator Sample.overdue (FullFlow.file s) = NEEDS_PROVISION.
Proof. vm_compute. repeat split. Qed.

(* ================================================================== *)
(** ** The digest *)

Module DigestFacts.

Import Sha256.

Lemma length_append (a b : string) :
  String.length (a ++ b) = (String.length a + String.length b)%nat.
Proof. induction a as [|c a IH]; simpl; auto. Qed.

Lemma pick_hex_length i :
  0 <= i < 16 -> String.length (Enc.pick Enc.hexdigits i) = 1%nat.
Proof.
  intros H. unfold Enc.pick.
  assert (Hn : (Z.to_nat i < 16)%nat) by lia.
  revert Hn. generalize (Z.to_nat i) as n. intros n Hn.
  do 16 (destruct n as [|n]; [ reflexivity | ]). lia.
Qed.

Lemma hex_byte_length b :
  0 <= b < 256 -> String.length (Enc.hex_byte b) = 2%nat.
Proof.
  intros H. unfold Enc.hex_byte.
  rewrite length_append, !pick_hex_length; auto.
  - apply Z.mod_pos_bound; lia.
  - split; [ apply Z.div_pos | apply Z.div_lt_upper_bound ]; lia.
Qed.

Lemma hex_length bs :
  Forall (fun b => 0 <= b < 256) bs ->
  String.length (Enc.hex bs) = (2 * List.length bs)%nat.
Proof.
  induction 1 as [|b bs Hb _ IH]; simpl; auto.
  rewrite length_append, hex_byte_length, IH; auto. lia.
Qed.

Lemma be_bytes_range n x : Forall (fun b => 0 <= b < 256) (be_bytes n x).
Proof.
  unfold be_bytes. apply Forall_forall. intros b Hb.
  apply in_map_iff in Hb. destruct Hb as [i [<- _]].
  apply Z.mod_pos_bound; lia.
Qed.

Lemma be_bytes_length n x : List.length (be_bytes n x) = n.
Proof. unfold be_bytes. rewrite length_map, length_seq. reflexivity. Qed.

Lemma compress_length h block :
  List.length h = 8%nat -> List.length (compress h block) = 8%nat.
Proof.
  intros Hh. unfold compress.
  destruct (fold_left round K (regs_of h, block)) as [r win].
  rewrite length_map, length_combine, Hh.
  destruct r as [[[[[[[a b] c] d] e] f] g] h']. reflexivity.
Qed.

Lemma blocks_length fuel : forall h ws,
  List.length h = 8%nat -> List.length (blocks fuel h ws) = 8%nat.
Proof.
  induction fuel as [|fuel IH]; intros h ws Hh; simpl; auto.
  destruct ws; auto. apply IH. apply compress_length; auto.
Qed.

Lemma concat_be_bytes ws :
  List.length (List.concat (map (be_bytes 4) ws)) = (4 * List.length ws)%nat
  /\ Forall (fun b => 0 <= b < 256) (List.concat (map (be_bytes 4) ws)).
Proof.
  induction ws as [|x ws [IHl IHr]]; cbn [List.concat map].
  - split; auto.
  - split.
    + rewrite length_app, be_bytes_length, IHl. cbn [List.length]. lia.
    + apply Forall_app. split; auto. apply be_bytes_range.
Qed.

(** The digest is 64 hexadecimal characters, whatever the message. *)
Lemma sha256_hex_length s : String.length (sha256_hex s) = 64%nat.
Proof.
  unfold sha256_hex, digest.
  destruct (concat_be_bytes
              (blocks (List.length (be_words (pad (Str.bytes s)))) H0
                      (be_words (pad (Str.bytes s))))) as [Hl Hr].
  rewrite hex_length, Hl, blocks_length; auto.
Qed.

Lemma sha256_hex_truthy s : truthy (Some (JStr (sha256_hex s))) = true.
Proof.
  simpl. pose proof (sha256_hex_length s) as H.
  destruct (sha256_hex s); [ discriminate | reflexivity ].
Qed.

End DigestFacts.

(* ================================================================== *)
(** ** The generator iApp: facts *)

Module TargetFacts.

Import TargetApp.

Lemma generateSecret_hash t c s :
  hash (generateSecret t c s) = Sha256.sha256_hex (secret (generateSecret t c s)).
Proof.
  unfold generateSecret. destruct (secretValue_of t c s) as [v m]. reflexivity.
Qed.

Lemma generateSecret_type t c s : type (generateSecret t c s) = t.
Proof.
  unfold generateSecret. destruct (secretValue_of t c s) as [v m]. reflexivity.
Qed.


Lemma generateSecret_metadata t c s :
  metadata (generateSecret t c s) = snd (secretValue_of t c s).
Proof.
  unfold generateSecret. destruct (secretValue_of t c s) as [v m]. reflexivity.
Qed.



Lemma main_unconfigured env :
  configured env = false -> main env = mkRun not_configured [].
Proof.
  unfold configured, main.
  destruct (parseAppSecret (IEXEC_APP_DEVELOPER_SECRET env)) as [cfg|]; auto.
  intros ->. reflexivity.
Qed.

Lemma main_configured env :
  configured env = true ->
  exists p,
    result_json (main env)
    = output p (secretName (parseArgs (argv env) (clock env))) (generated env)
    /\ (success p = false -> stored (main env) = [])
    /\ (success p = true ->
        exists addr,
          pushAppSecret (sms env) addr (secret (generated env)) = Resolves true).
Proof.
  unfold configured, main, generated.
  destruct (parseAppSecret (IEXEC_APP_DEVELOPER_SECRET env)) as [cfg|]; [ | discriminate ].
  intros ->. cbn [negb].
  destruct (str_truthy _).
  - unfold pushSecretToSMS, and_then.
    destruct (str_or _ _) as [addr|];
      [ | eexists; repeat split; simpl; congruence ].
    destruct (negb _); [ eexists; repeat split; simpl; congruence | ].
    destruct (getSigner _); [ | eexists; repeat split; simpl; congruence ].
    destruct (getAddress _); [ | eexists; repeat split; simpl; congruence ].
    destruct (pushAppSecret _ addr _) as [[|]|] eqn:Hp;
      eexists; repeat split; simpl; try congruence.
    intros _. exists addr. exact Hp.
  - eexists; repeat split; simpl; congruence.
Qed.

End TargetFacts.

(* ================================================================== *)
(** ** The orchestration script: facts *)

Module FlowFacts.

Import FullFlow.
Local Open Scope list_scope.
Local Open Scope flow_scope.

Section Combinators.

Context {A B : Type}.

Lemma res_bind (m : M A) (k : A -> M B) lk :
  res (bind m k lk) =
  match res (m lk) with
  | Ret a => res (k a (file (m lk)))
  | Throw e => Throw e
  | Exit c => Exit c
  | Hang => Hang
  end.
Proof.
  unfold bind. destruct (m lk) as [[a| | |] f o]; simpl; try reflexivity.
  destruct (k a f); reflexivity.
Qed.

Lemma file_bind (m : M A) (k : A -> M B) lk :
  file (bind m k lk) =
  match res (m lk) with
  | Ret a => file (k a (file (m lk)))
  | _ => file (m lk)
  end.
Proof.
  unfold bind. destruct (m lk) as [[a| | |] f o]; simpl; try reflexivity.
  destruct (k a f); reflexivity.
Qed.

Lemma out_bind (m : M A) (k : A -> M B) lk :
  out (bind m k lk) =
  out (m lk) ++
  match res (m lk) with
  | Ret a => out (k a (file (m lk)))
  | _ => []
  end.
Proof.
  unfold bind. destruct (m lk) as [[a| | |] f o]; simpl;
    rewrite ?app_nil_r; try reflexivity.
  destruct (k a f); reflexivity.
Qed.

Lemma res_try_catch (m : M A) (h : Error -> M A) lk :
  res (try_catch m h lk) =
  match res (m lk) with
  | Throw e => res (h e (file (m lk)))
  | r => r
  end.
Proof.
  unfold try_catch. destruct (m lk) as [[a|e| |] f o]; simpl; try reflexivity.
  destruct (h e f); reflexivity.
Qed.

Lemma file_try_catch (m : M A) (h : Error -> M A) lk :
  file (try_catch m h lk) =
  match res (m lk) with
  | Throw e => file (h e (file (m lk)))
  | _ => file (m lk)
  end.
Proof.
  unfold try_catch. destruct (m lk) as [[a|e| |] f o]; simpl; try reflexivity.
  destruct (h e f); reflexivity.
Qed.

Lemma out_try_catch (m : M A) (h : Error -> M A) lk :
  out (try_catch m h lk) =
  out (m lk) ++
  match res (m lk) with
  | Throw e => out (h e (file (m lk)))
  | _ => []
  end.
Proof.
  unfold try_catch. destruct (m lk) as [[a|e| |] f o]; simpl;
    rewrite ?app_nil_r; try reflexivity.
  destruct (h e f); reflexivity.
Qed.

Lemma res_bind_ret (m : M A) (k : A -> M B) lk b :
  res (bind m k lk) = Ret b ->
  exists a, res (m lk) = Ret a /\ res (k a (file (m lk))) = Ret b.
Proof.
  rewrite res_bind. destruct (res (m lk)) as [a| | |]; try discriminate.
  eauto.
Qed.

End Combinators.

Section Quiet.

Context {A B : Type} (P : Event -> bool).

Lemma quiet_ret (a : A) : quiet P (ret a).
Proof. split; reflexivity. Qed.

Lemma quiet_throw (e : Error) : quiet P (@throw A e).
Proof. split; reflexivity. Qed.

Lemma quiet_exit (c : Z) : quiet P (@exit A c).
Proof. split; reflexivity. Qed.

Lemma quiet_await (call : Sdk A) : quiet P (await call).
Proof. destruct call; split; reflexivity. Qed.

Lemma quiet_emits evs : forallb P evs = true -> quiet P (emits evs).
Proof. split; simpl; auto. Qed.

Lemma quiet_emit ev : P ev = true -> quiet P (emit ev).
Proof. intros H; split; simpl; rewrite ?H; auto. Qed.

Lemma quiet_bind (m : M A) (k : A -> M B) :
  quiet P m -> (forall a, quiet P (k a)) -> quiet P (bind m k).
Proof.
  intros Hm Hk lk. destruct (Hm lk) as [Hf Ho].
  rewrite file_bind, out_bind, forallb_app, Ho, Hf.
  destruct (res (m lk)) as [a| | |]; simpl; auto.
  destruct (Hk a lk); auto.
Qed.

Lemma quiet_try_catch (m : M A) (h : Error -> M A) :
  quiet P m -> (forall e, quiet P (h e)) -> quiet P (try_catch m h).
Proof.
  intros Hm Hh lk. destruct (Hm lk) as [Hf Ho].
  rewrite file_try_catch, out_try_catch, forallb_app, Ho, Hf.
  destruct (res (m lk)) as [|e| |]; simpl; auto.
  destruct (Hh e lk); auto.
Qed.

End Quiet.

Lemma quiet_weaken {A} (P Q : Event -> bool) (m : M A) :
  (forall ev, P ev = true -> Q ev = true) -> quiet P m -> quiet Q m.
Proof.
  intros HPQ Hm lk. destruct (Hm lk) as [Hf Ho]. split; auto.
  rewrite forallb_forall in *. auto.
Qed.

Lemma quiet_in {A} (P : Event -> bool) (m : M A) lk ev :
  quiet P m -> In ev (out (m lk)) -> P ev = true.
Proof.
  intros Hm Hin. destruct (Hm lk) as [_ Ho].
  rewrite forallb_forall in Ho. auto.
Qed.

Create HintDb flow.
#[export] Hint Extern 1 (_ = true) => reflexivity : flow.
#[export] Hint Resolve quiet_ret quiet_throw quiet_exit quiet_await quiet_emit
  quiet_emits : flow.

Ltac quiet_steps :=
  repeat match goal with
    | |- quiet _ (bind _ _) => apply quiet_bind; [ | intros ? ]
    | |- quiet _ (try_catch _ _) => apply quiet_try_catch; [ | intros ? ]
    | |- quiet _ _ => solve [ auto with flow ]
    end.

Lemma subscribe_polling ns : forallb of_polling (fst (subscribe ns)) = true.
Proof.
  induction ns as [|n rest IH]; simpl; auto.
  assert (Hl : forallb of_polling (logged n) = true).
  { unfold logged. destruct (task n); [destruct (existsb _ _)|]; reflexivity. }
  destruct (settles n); simpl; auto.
  destruct (subscribe rest) as [evs s]; simpl in *.
  rewrite forallb_app, Hl, IH. reflexivity.
Qed.

Lemma observe_polling f : forallb of_polling (fst (observe f)) = true.
Proof.
  unfold observe. pose proof (subscribe_polling (notices f)) as H.
  destruct (subscribe (notices f)) as [evs s]; simpl in H.
  destruct s; simpl; auto.
  destruct (ending f) as [|e|]; simpl; rewrite ?app_nil_r; auto.
  rewrite forallb_app, H; simpl.
  destruct (message e) as [m|]; auto.
  destruct (negb (m =? "")%string && negb (Str.includes m "Task not found")); auto.
Qed.

Lemma waitForTask_quiet P obs id :
  (forall ev, of_polling ev = true -> P ev = true) ->
  quiet P (waitForTask obs id).
Proof.
  intros HP. apply (quiet_weaken of_polling); auto.
  unfold waitForTask.
  apply quiet_bind; [ auto with flow | intros _ ].
  apply quiet_bind; [ auto with flow | intros f ].
  pose proof (observe_polling f) as H.
  destruct (observe f) as [evs s]; simpl in H.
  apply quiet_bind; [ auto with flow | intros _ ].
  destruct s; auto with flow. split; reflexivity.
Qed.

#[local] Arguments truthy : simpl never.
#[local] Arguments targetHash : simpl never.
#[local] Arguments field : simpl never.
#[local] Arguments member_opt : simpl never.

Section Stages.

Variable w : World.

Lemma fetchWorkerpoolOrder_quiet P r : quiet P (fetchWorkerpoolOrder r).
Proof.
  unfold fetchWorkerpoolOrder.
  apply quiet_bind; [ auto with flow | intros orders ].
  destruct orders; auto with flow.
Qed.

Lemma createAppOrder_quiet P r : quiet P (createAppOrder r).
Proof. unfold createAppOrder. quiet_steps. Qed.

#[local] Hint Resolve fetchWorkerpoolOrder_quiet createAppOrder_quiet : flow.

Lemma executeTargetApp_quiet c n : quiet of_target (executeTargetApp w c n).
Proof.
  unfold executeTargetApp. quiet_steps.
  apply waitForTask_quiet. intros ev; destruct ev; simpl; auto.
Qed.

Lemma executeConsumeApp_quiet : quiet of_consume (executeConsumeApp w).
Proof.
  unfold executeConsumeApp. quiet_steps.
  apply waitForTask_quiet. intros ev; destruct ev; simpl; auto.
Qed.

Lemma setup_quiet : quiet of_setup (setupTargetAppPermissions w).
Proof.
  unfold setupTargetAppPermissions.
  apply quiet_try_catch; [ | intros e ].
  - apply quiet_bind; [ auto with flow | intros isPushed ].
    destruct isPushed; auto with flow.
  - destruct (message e) as [m|]; [destruct (_ && _)|]; quiet_steps.
Qed.

Lemma getLockState_total lk :
  getLockState w lk = mkStep (Ret (lockState w lk)) lk [].
Proof.
  unfold lockState, getLockState, bind, readLock; simpl.
  destruct lk as [| |data]; try reflexivity.
  destruct data; simpl;
    repeat match goal with
           | |- context [if ?c then _ else _] => destruct c
           end; reflexivity.
Qed.

(** The provisioning branch in closed form. *)
Lemma provision_unfold name lk :
  provision w name lk =
  let s := executeTargetApp w (consumeApp (CONFIG w)) name lk in
  match res s with
  | Ret r =>
      let shown := out s ++ [LogResult (resultLocation r)] in
      match gateway w (resultLocation r) with
      | Some doc =>
          if truthy (Some doc) then
            let h := targetHash (Some doc) in
            if truthy h
            then mkStep (Ret h) (Holds (lock_record w h))
                   (shown ++ [LogHashTarget h; WroteLock (lock_record w h); LogSaved])
            else mkStep (Ret h) lk (shown ++ [LogHashTarget h])
          else mkStep (Ret undefined) lk shown
      | None => mkStep (Ret undefined) lk (shown ++ [LogFetchError])
      end
  | Throw e => mkStep (Exit 1) lk (out s ++ [LogErrorTarget (message e)])
  | Exit c => mkStep (Exit c) lk (out s)
  | Hang => mkStep Hang lk (out s)
  end.
Proof.
  destruct (executeTargetApp_quiet (consumeApp (CONFIG w)) name lk) as [Hf _].
  unfold provision, try_catch, bind, fetchResult, saveLockState, lock_record.
  destruct (executeTargetApp w (consumeApp (CONFIG w)) name lk) as [r f o].
  simpl in Hf; subst f. destruct r as [r| | |]; simpl; try reflexivity.
  destruct (gateway w (resultLocation r)) as [doc|]; simpl.
  - destruct (truthy (Some doc)); simpl;
      [ destruct (truthy (targetHash (Some doc))); simpl | ];
      rewrite ?app_nil_r, <- ?app_assoc; reflexivity.
  - rewrite <- ?app_assoc; reflexivity.
Qed.

(** The consumer stage in closed form. *)
Lemma consumption_unfold lk :
  consumption w lk =
  let s := executeConsumeApp w lk in
  match res s with
  | Ret r =>
      let shown := out s ++ [LogResult (resultLocation r)] in
      match gateway w (resultLocation r) with
      | Some doc =>
          if truthy (Some doc) then
            let h := member_opt (field (Some doc) "hashes") "sha256" in
            mkStep (Ret h) lk
              (shown ++ (if truthy (field (Some doc) "preview")
                         then [LogPreview (field (Some doc) "preview")] else [])
                     ++ [LogHashConsume h])
          else mkStep (Ret undefined) lk shown
      | None => mkStep (Ret undefined) lk (shown ++ [LogFetchError])
      end
  | Throw e => mkStep (Exit 1) lk (out s ++ [LogErrorConsume (message e)])
  | Exit c => mkStep (Exit c) lk (out s)
  | Hang => mkStep Hang lk (out s)
  end.
Proof.
  destruct (executeConsumeApp_quiet lk) as [Hf _].
  unfold consumption, try_catch, bind, fetchResult.
  destruct (executeConsumeApp w lk) as [r f o].
  simpl in Hf; subst f. destruct r as [r| | |]; simpl; try reflexivity.
  destruct (gateway w (resultLocation r)) as [doc|]; simpl.
  - destruct (truthy (Some doc)); simpl;
      [ destruct (truthy (field (Some doc) "preview")); simpl | ];
      rewrite ?app_nil_r, <- ?app_assoc; reflexivity.
  - rewrite <- ?app_assoc; reflexivity.
Qed.

#[local] Arguments setupTargetAppPermissions : simpl never.
#[local] Arguments provision : simpl never.
#[local] Arguments consumption : simpl never.
#[local] Arguments verification : simpl never.
#[local] Arguments reuse : simpl never.
#[local] Arguments step1 : simpl never.
#[local] Arguments secretName : simpl never.

(** The whole run in closed form, stage by stage. *)
Lemma run_unfold lk :
  run w lk =
  match wallet w with
  | Rejects e => mkStep (Exit 1) lk [LogFatal (message e)]
  | Resolves a =>
      let s0 := setupTargetAppPermissions w lk in
      match res s0 with
      | Ret _ =>
          let e := lockState w lk in
          let s1 := step1 w e (secretName w) lk in
          match res s1 with
          | Ret t =>
              let s2 := consumption w (file s1) in
              match res s2 with
              | Ret c =>
                  mkStep (Ret tt) (file s2)
                    ([LogWallet a] ++ out s0 ++ out s1 ++ out s2
                     ++ verification t c e)
              | _ => halted s2 ([LogWallet a] ++ out s0 ++ out s1)
              end
          | _ => halted s1 ([LogWallet a] ++ out s0)
          end
      | _ => halted s0 [LogWallet a]
      end
  end.
Proof.
  unfold run, main, try_catch, bind, halted.
  destruct (wallet w) as [a|e]; simpl; [ | reflexivity ].
  rewrite getLockState_total; simpl.
  destruct (setup_quiet lk) as [Hf _].
  destruct (setupTargetAppPermissions w lk) as [r0 f0 o0].
  simpl in Hf; subst f0.
  destruct r0 as [[]| | |]; simpl; try reflexivity.
  destruct (step1 w (lockState w lk) (secretName w) lk) as [r1 f1 o1].
  destruct r1 as [t| | |]; simpl; rewrite <- ?app_assoc; try reflexivity.
  destruct (consumption w f1) as [r2 f2 o2].
  destruct r2 as [c| | |]; simpl; rewrite <- ?app_assoc; try reflexivity.
Qed.

Lemma setup_unfold lk :
  setupTargetAppPermissions w lk =
  match permissionPush w with
  | Resolves true => mkStep (Ret tt) lk [LogPermissionUpdated]
  | Resolves false =>
      mkStep (Throw (Js.error "Push returned false")) lk
             [LogPermissionError (Some "Push returned false")]
  | Rejects e =>
      if already_exists e then mkStep (Ret tt) lk [LogPermissionExists]
      else mkStep (Throw e) lk [LogPermissionError (message e)]
  end.
Proof.
  unfold setupTargetAppPermissions, try_catch, bind, already_exists.
  destruct (permissionPush w) as [[|]|e]; simpl; try reflexivity.
  destruct (message e) as [m|]; simpl; try reflexivity.
  destruct (negb (m =? "")%string && Str.includes m "already exists");
    reflexivity.
Qed.

Lemma setup_res lk :
  res (setupTargetAppPermissions w lk) = Ret tt <-> setup_passes w = true.
Proof.
  rewrite setup_unfold. unfold setup_passes.
  destruct (permissionPush w) as [[|]|e]; simpl; try (split; congruence).
  destruct (already_exists e); simpl; split; congruence.
Qed.

Lemma executeTargetApp_starts c n lk :
  exists rest, out (executeTargetApp w c n lk) = LogStep1 c :: rest.
Proof.
  unfold executeTargetApp. rewrite out_bind. simpl. eauto.
Qed.

Lemma executeConsumeApp_starts lk :
  exists rest, out (executeConsumeApp w lk) = LogStep2 :: rest.
Proof.
  unfold executeConsumeApp. rewrite out_bind. simpl. eauto.
Qed.

(** The result location is the one [task.show] answered. *)
Lemma executeTargetApp_location c n lk r :
  res (executeTargetApp w c n lk) = Ret r ->
  taskShow (target w) = Resolves (resultLocation r).
Proof.
  unfold executeTargetApp. intros H.
  repeat (apply res_bind_ret in H; destruct H as [? [? H]]; cbv beta in H).
  simpl in H. injection H as <-. simpl.
  destruct (taskShow (target w)); simpl in *; congruence.
Qed.

Lemma consumption_quiet : quiet of_consumption (consumption w).
Proof.
  intros lk. rewrite consumption_unfold.
  destruct (executeConsumeApp_quiet lk) as [_ Ho].
  assert (Ho' : forallb of_consumption (out (executeConsumeApp w lk)) = true).
  { rewrite forallb_forall in *. intros ev Hev. specialize (Ho ev Hev).
    destruct ev; simpl in *; auto. }
  cbv zeta.
  destruct (res (executeConsumeApp w lk)) as [r| | |]; simpl;
    rewrite ?forallb_app, ?Ho'; auto.
  destruct (gateway w (resultLocation r)) as [doc|]; simpl;
    [ destruct (truthy (Some doc)); simpl;
      [ destruct (truthy (field (Some doc) "preview")); simpl | ] | ];
    rewrite ?forallb_app, ?Ho'; auto.
Qed.

Lemma provision_events name lk ev :
  In ev (out (provision w name lk)) -> of_step1 ev = true.
Proof.
  rewrite provision_unfold. cbv zeta.
  pose proof (quiet_in _ _ lk ev
                (executeTargetApp_quiet (consumeApp (CONFIG w)) name)) as Ht.
  assert (Ht' : In ev (out (executeTargetApp w (consumeApp (CONFIG w)) name lk))
                -> of_step1 ev = true).
  { intros Hev. specialize (Ht Hev). destruct ev; simpl in *; auto. }
  destruct (res (executeTargetApp w (consumeApp (CONFIG w)) name lk)) as [r| | |];
    simpl; auto.
  - destruct (gateway w (resultLocation r)) as [doc|]; simpl;
      [ destruct (truthy (Some doc)); simpl;
        [ destruct (truthy (targetHash (Some doc))); simpl | ] | ];
      rewrite ?in_app_iff; simpl; intuition (subst; auto).
  - rewrite in_app_iff; simpl; intuition (subst; auto).
Qed.

Lemma branch_reuse e name lk :
  reuse e = true ->
  step1 w e name lk =
  mkStep (Ret (field e "secretHash")) lk [LogReuse (field e "secretHash")].
Proof. unfold step1. intros ->. reflexivity. Qed.

Lemma branch_provision e name lk :
  reuse e = false -> step1 w e name lk = provision w name lk.
Proof. unfold step1. intros ->. reflexivity. Qed.

(** The lock file a run leaves is the one step 1 leaves. *)
Lemma run_file lk :
  file (run w lk) =
  match wallet w with
  | Rejects _ => lk
  | Resolves _ =>
      if setup_passes w then file (step1 w (lockState w lk) (secretName w) lk) else lk
  end.
Proof.
  rewrite run_unfold. destruct (wallet w) as [a|e]; [ | reflexivity ].
  pose proof (setup_res lk) as Hs. destruct (setup_quiet lk) as [Hf _].
  cbv zeta. unfold halted.
  destruct (res (setupTargetAppPermissions w lk)) as [[]| | |];
    destruct (setup_passes w);
    try (destruct Hs as [Hs1 Hs2]; (discriminate (Hs1 eq_refl) || discriminate (Hs2 eq_refl)));
    simpl; auto.
  destruct (res (step1 w (lockState w lk) (secretName w) lk)) as [t| | |]; simpl; auto.
  destruct (consumption_quiet (file (step1 w (lockState w lk) (secretName w) lk))) as [Hc _].
  destruct (res (consumption w (file (step1 w (lockState w lk) (secretName w) lk)))); simpl; auto.
Qed.

(** Every event of a run belongs to step 1 or to the stages around it. *)
Lemma run_events lk ev :
  In ev (out (run w lk)) ->
  of_frame ev = true \/ In ev (out (step1 w (lockState w lk) (secretName w) lk)).
Proof.
  rewrite run_unfold. destruct (wallet w) as [a|e].
  2:{ simpl. intros [<-|[]]. auto. }
  cbv zeta. unfold halted.
  assert (H0 : In ev (out (setupTargetAppPermissions w lk)) -> of_frame ev = true).
  { intros Hev. pose proof (quiet_in _ _ lk ev setup_quiet Hev).
    destruct ev; simpl in *; auto. }
  assert (H2 : forall lk', In ev (out (consumption w lk')) -> of_frame ev = true).
  { intros lk' Hev. pose proof (quiet_in _ _ lk' ev consumption_quiet Hev) as H.
    destruct ev; simpl in *; auto; discriminate. }
  assert (H3 : forall t c e, In ev (verification t c e) -> of_frame ev = true).
  { intros t c e. unfold verification, verdict. rewrite in_app_iff. simpl.
    destruct (_ && _); [ destruct (truthy e) | destruct (negb _) ]; simpl;
      intuition (subst; auto). }
  destruct (res (setupTargetAppPermissions w lk)) as [[]| | |]; simpl;
    rewrite ?in_app_iff; simpl; try solve [ intuition (subst; auto) ].
  destruct (res (step1 w (lockState w lk) (secretName w) lk)) as [t| | |]; simpl;
    rewrite ?in_app_iff; simpl; try solve [ intuition (subst; auto) ].
  destruct (res (consumption w _)) as [c| | |] eqn:Hc; simpl;
    rewrite ?in_app_iff; simpl; try solve [ intuition (subst; eauto) ].
  specialize (H3 t c (lockState w lk)). unfold verification, verdict in H3.
  rewrite in_app_iff in H3. simpl in H3.
  intuition (subst; eauto).
Qed.

(** The expected digest shown by step 3 is the one step 1 returned. *)
Lemma run_expected lk h :
  In (LogExpected h) (out (run w lk)) ->
  exists t, res (step1 w (lockState w lk) (secretName w) lk) = Ret t
            /\ h = or_else t (Some (JStr "Unknown")).
Proof.
  rewrite run_unfold. destruct (wallet w) as [a|e].
  2:{ simpl. intros [H|[]]. discriminate. }
  cbv zeta. unfold halted.
  assert (H0 : ~ In (LogExpected h) (out (setupTargetAppPermissions w lk))).
  { intros Hev. pose proof (quiet_in _ _ lk _ setup_quiet Hev). discriminate. }
  assert (H1 : ~ In (LogExpected h) (out (step1 w (lockState w lk) (secretName w) lk))).
  { unfold step1. destruct (reuse (lockState w lk)).
    - simpl. intros [H|[]]. discriminate.
    - intros Hev. apply provision_events in Hev. discriminate. }
  assert (H2 : forall lk', ~ In (LogExpected h) (out (consumption w lk'))).
  { intros lk' Hev. pose proof (quiet_in _ _ lk' _ consumption_quiet Hev).
    discriminate. }
  destruct (res (setupTargetAppPermissions w lk)) as [[]| | |]; simpl;
    rewrite ?in_app_iff; simpl;
    try solve [ intuition (try discriminate) ].
  destruct (res (step1 w (lockState w lk) (secretName w) lk)) as [t| | |]; simpl;
    rewrite ?in_app_iff; simpl;
    try solve [ intuition (try discriminate) ].
  destruct (res (consumption w _)) as [c| | |] eqn:Hc; simpl;
    rewrite ?in_app_iff; simpl;
    try solve [ intros H; exfalso; intuition (try discriminate); eapply H2; eauto ].
  intros [H|[H|[H|[H|[H|[H|H]]]]]]; try discriminate;
    try (exfalso; tauto); try (exfalso; eapply H2; eassumption).
  - injection H as <-. eauto.
  - exfalso. unfold verdict in H.
    destruct (_ && _); [ destruct (truthy _) | destruct (negb _) ];
      simpl in H; intuition discriminate.
Qed.

(** Once step 0 is passed, a run that does not re-use goes through
    step 1 and everything it prints there is printed. *)
Lemma run_step1 lk a ev :
  wallet w = Resolves a -> setup_passes w = true ->
  In ev (out (step1 w (lockState w lk) (secretName w) lk)) -> In ev (out (run w lk)).
Proof.
  intros Hw Hs Hev. rewrite run_unfold, Hw. cbv zeta. unfold halted.
  apply (setup_res lk) in Hs. rewrite Hs.
  destruct (res (step1 w (lockState w lk) (secretName w) lk)) as [t| | |]; simpl;
    rewrite ?in_app_iff; auto.
  destruct (res (consumption w _)) as [c| | |]; simpl;
    rewrite ?in_app_iff; auto.
Qed.

End Stages.
End FlowFacts.

(* ================================================================== *)
(** ** The properties of the specification *)

Import FullFlow FlowFacts.
Local Open Scope list_scope.

#[local] Arguments truthy : simpl never.

Lemma strict_eq_string a c :
  strict_eq a (of_string c) = true <-> a = of_string c.
Proof.
  destruct c as [c|]; simpl.
  - destruct a as [[| | |s| |]|]; simpl; try (split; congruence).
    rewrite String.eqb_eq. split; congruence.
  - destruct a as [[| | | | |]|]; simpl; split; congruence.
Qed.

Lemma field_truthy_object data k :
  truthy (field (Some data) k) = true -> truthy (Some data) = true.
Proof. destruct data; simpl; auto; discriminate. Qed.

Lemma lockState_holds w data :
  lockState w (Holds data) =
  if strict_eq (field (Some data) "appAddress") (of_string (consumeApp (CONFIG w)))
  then Some data else Some JNull.
Proof.
  unfold lockState, getLockState, bind, readLock, field, member_opt; simpl.
  destruct data; simpl;
    repeat match goal with
           | |- context [if ?c then _ else _] => destruct c
           end; reflexivity.
Qed.

Lemma lockState_absent w lk :
  (forall data, lk <> Holds data) -> lockState w lk = Some JNull.
Proof. destruct lk as [| |data]; auto. intros H. elim (H data). reflexivity. Qed.

Lemma reuse_record data :
  reuse (Some data) = truthy (field (Some data) "secretHash").
Proof.
  unfold reuse. destruct (truthy (field (Some data) "secretHash")) eqn:E.
  - rewrite (field_truthy_object _ _ E). reflexivity.
  - apply andb_false_r.
Qed.

(** When the coordinator re-uses: the lock file holds a record for the
    target consumer with a truthy digest. *)
Lemma reuse_iff w lk :
  coordinator w lk = REUSE <->
  exists data, lk = Holds data
    /\ field (Some data) "appAddress" = of_string (consumeApp (CONFIG w))
    /\ truthy (field (Some data) "secretHash") = true.
Proof.
  unfold coordinator. destruct lk as [| |data].
  - split; [ discriminate | intros [d [H _]]; discriminate ].
  - split; [ discriminate | intros [d [H _]]; discriminate ].
  - rewrite lockState_holds.
    pose proof (strict_eq_string (field (Some data) "appAddress")
                                 (consumeApp (CONFIG w))) as Heq.
    destruct (strict_eq _ _).
    + rewrite reuse_record. split.
      * intros H. exists data. repeat split; [ apply Heq; reflexivity | ].
        destruct (truthy _); [ reflexivity | discriminate ].
      * intros [d [Hd [_ Ht]]]. injection Hd as <-. rewrite Ht. reflexivity.
    + split; [ discriminate | ].
      intros [d [Hd [Ha _]]]. injection Hd as <-.
      apply Heq in Ha. discriminate.
Qed.

Lemma needs_provision_iff w lk :
  coordinator w lk = NEEDS_PROVISION <-> reuse (lockState w lk) = false.
Proof. unfold coordinator. destruct (reuse _); split; congruence. Qed.

(* ------------------------------------------------------------------ *)
(** ** The generator *)

Lemma unrecognised_value t c s :
  recognised t = false ->
  TargetApp.secretValue_of t c s
  = (Enc.base64 (fst (TargetApp.randomBytes 32 s)),
     obj [("format", Some (JStr "base64")); ("bytes", Some (JInt 32))]).
Proof.
  unfold recognised, TargetApp.secretValue_of. cbn [existsb].
  intros H. repeat (apply orb_false_elim in H; destruct H as [-> H]).
  reflexivity.
Qed.

(** C9 -- For every secret type, the named ones and the fallback for any
    other text, the digest of the generated secret is the hex-encoded
    SHA-256 (64 hexadecimal characters) of exactly the generated value; a
    type written in ASCII that is none of the six names, whatever its
    case, yields the base64 text of 32 random bytes.  (Outside ASCII
    [toLowerCase] is not modelled: the Kelvin sign lowers to the letter k,
    so a type spelt with it can name one of the six.) *)
Theorem C9_digest_is_sha256_of_value :
  forall (secretType : string) (clock : TargetApp.Clock) (src : TargetApp.Entropy),
    let s := TargetApp.generateSecret secretType clock src in
    TargetApp.hash s = Sha256.sha256_hex (TargetApp.secret s)
    /\ String.length (TargetApp.hash s) = 64%nat
    /\ (ascii_only secretType = true -> recognised secretType = false ->
        TargetApp.secret s = Enc.base64 (fst (TargetApp.randomBytes 32 src))).
Proof.
  intros secretType clock src s. subst s.
  rewrite TargetFacts.generateSecret_hash.
  split; [ reflexivity | split ].
  - apply DigestFacts.sha256_hex_length.
  - intros _ H. unfold TargetApp.generateSecret.
    rewrite (unrecognised_value _ _ _ H). reflexivity.
Qed.

(* ------------------------------------------------------------------ *)
(** ** Verification *)

(** C6 -- The verdict of step 3 is a match exactly when both digests are
    present and strictly equal, and a mismatch otherwise; the mismatch
    carries the missing-target note exactly when the expected digest is
    absent.  An absent observed digest has no reason of its own: with the
    expected digest present, the verdict is the plain mismatch, and the
    report shows the text N/A in its place. *)
Theorem C6_verification_outcomes :
  forall targetAppHash consumeAppHash existingState : value,
    let equal := truthy targetAppHash && truthy consumeAppHash
                 && strict_eq targetAppHash consumeAppHash in
    (In LogMatch (verdict targetAppHash consumeAppHash existingState)
     <-> equal = true)
    /\ (In LogMismatch (verdict targetAppHash consumeAppHash existingState)
        <-> equal = false)
    /\ (In LogMissingTarget (verdict targetAppHash consumeAppHash existingState)
        <-> truthy targetAppHash = false)
    /\ (truthy targetAppHash = true -> truthy consumeAppHash = false ->
        verdict targetAppHash consumeAppHash existingState = [LogMismatch]
        /\ verification targetAppHash consumeAppHash existingState
           = [ LogExpected targetAppHash; LogActual (Some (JStr "N/A"));
               LogMismatch ]).
Proof.
  intros t c e equal. subst equal. unfold verification, verdict, or_else.
  destruct (truthy t) eqn:Ht; destruct (truthy c) eqn:Hc; simpl;
    try destruct (strict_eq t c); try destruct (truthy e); simpl;
    repeat split; intros; try discriminate; try reflexivity; auto;
    repeat match goal with
           | H : _ \/ _ |- _ => destruct H
           | H : False |- _ => destruct H
           end; try discriminate.
Qed.

(** Against C6: an absent observed digest and one that differs from the
    expected digest get the same verdict. *)
Lemma C6_no_missing_observed_reason : ~ verdict_tells_missing_observed.
Proof.
  intros H.
  apply (H (Some (JStr "d1")) undefined (Some (JStr "d2")) (Some JNull));
    reflexivity.
Qed.

(* ------------------------------------------------------------------ *)
(** ** Waiting for a task *)

Lemma waitForTask_res f id lk :
  res (waitForTask (Resolves f) id lk) =
  match snd (observe f) with
  | Pending => Hang
  | Fulfilled t => Ret t
  | Rejected e => Throw e
  end.
Proof.
  unfold waitForTask, bind. simpl.
  destruct (observe f) as [evs s]. destruct s; reflexivity.
Qed.

Lemma settles_rejected n e :
  settles n = Rejected e ->
  exists t, task n = Some t
    /\ (statusName t = "FAILED" \/ statusName t = "TIMEDOUT")
    /\ e = Js.error ("Task ended with status " ++ statusName t).
Proof.
  unfold settles. destruct (task n) as [t|]; [ | discriminate ].
  destruct (statusName t =? "COMPLETED")%string; [ discriminate | ].
  destruct (statusName t =? "FAILED")%string eqn:Ef; simpl.
  - intros H. injection H as <-. exists t. rewrite String.eqb_eq in Ef. auto.
  - destruct (statusName t =? "TIMEDOUT")%string eqn:Et; [ | discriminate ].
    intros H. injection H as <-. exists t. rewrite String.eqb_eq in Et. auto.
Qed.

Lemma settles_fulfilled n t :
  settles n = Fulfilled t ->
  exists t', task n = Some t' /\ statusName t' = "COMPLETED" /\ t = Some t'.
Proof.
  unfold settles. destruct (task n) as [t'|]; [ | discriminate ].
  destruct (statusName t' =? "COMPLETED")%string eqn:Ec.
  - intros H. injection H as <-. exists t'. rewrite String.eqb_eq in Ec. auto.
  - destruct (_ || _); discriminate.
Qed.

Lemma subscribe_fulfilled ns t :
  snd (subscribe ns) = Fulfilled t -> exists n, In n ns /\ settles n = Fulfilled t.
Proof.
  induction ns as [|n rest IH]; simpl; [ discriminate | ].
  destruct (settles n) eqn:E.
  - destruct (subscribe rest) as [evs s]; simpl in *.
    intros H. destruct (IH H) as [m [Hm Hs]]. eauto.
  - simpl. intros H. injection H as <-. eauto.
  - discriminate.
Qed.

Lemma subscribe_pending ns :
  snd (subscribe ns) = Pending <-> Forall (fun n => settles n = Pending) ns.
Proof.
  induction ns as [|n rest IH]; simpl.
  - split; auto.
  - destruct (settles n) eqn:E.
    + destruct (subscribe rest) as [evs s]; simpl in *. rewrite IH.
      split; [ auto | intros H; inversion H; auto ].
    + simpl. split; [ discriminate | intros H; inversion H; congruence ].
    + simpl. split; [ discriminate | intros H; inversion H; congruence ].
Qed.

Lemma subscribe_rejected ns e :
  snd (subscribe ns) = Rejected e -> exists n, In n ns /\ settles n = Rejected e.
Proof.
  induction ns as [|n rest IH]; simpl; [ discriminate | ].
  destruct (settles n) eqn:E.
  - destruct (subscribe rest) as [evs s]; simpl in *.
    intros H. destruct (IH H) as [m [Hm Hs]]. eauto.
  - discriminate.
  - simpl. intros H. injection H as <-. eauto.
Qed.

Lemma observe_snd f :
  snd (observe f) =
  match snd (subscribe (notices f)) with
  | Pending => match ending f with Completed => Fulfilled None | _ => Pending end
  | s => s
  end.
Proof.
  unfold observe. destruct (subscribe (notices f)) as [evs s].
  destruct s; try reflexivity. destruct (ending f); reflexivity.
Qed.

(** C7 -- The wait has no timer of its own.  It never ends exactly when the
    feed delivers no COMPLETED, FAILED or TIMEDOUT status and does not
    complete; the only errors it raises name a FAILED or TIMEDOUT status
    the feed delivered (there is no timeout error of the wait); and it
    returns only on a COMPLETED status or on the completion of the feed. *)
Theorem C7_wait_ends_only_on_feed :
  forall (f : Feed) (taskId : string) (lk : LockFile),
    (res (waitForTask (Resolves f) taskId lk) = Hang <->
     Forall (fun n => settles n = Pending) (notices f) /\ ending f <> Completed)
    /\ (forall e, res (waitForTask (Resolves f) taskId lk) = Throw e ->
        exists n t, In n (notices f) /\ task n = Some t
          /\ (statusName t = "FAILED" \/ statusName t = "TIMEDOUT")
          /\ e = Js.error ("Task ended with status " ++ statusName t))
    /\ (forall t, res (waitForTask (Resolves f) taskId lk) = Ret t ->
        (exists n t', In n (notices f) /\ task n = Some t'
           /\ statusName t' = "COMPLETED" /\ t = Some t')
        \/ (t = None /\ ending f = Completed)).
Proof.
  intros f taskId lk. rewrite waitForTask_res, observe_snd. split; [ | split ].
  - rewrite <- subscribe_pending.
    destruct (snd (subscribe (notices f))); [ destruct (ending f) | | ];
      split; try discriminate; try tauto; try (intros [H _]; discriminate);
      try (intros [_ H]; congruence); split; congruence.
  - intros e. destruct (snd (subscribe (notices f))) as [|t|e'] eqn:E.
    + destruct (ending f); discriminate.
    + discriminate.
    + intros H. injection H as <-.
      destruct (subscribe_rejected _ _ E) as [n [Hn Hs]].
      destruct (settles_rejected _ _ Hs) as [t Ht]. exists n, t. tauto.
  - intros t. destruct (snd (subscribe (notices f))) as [|t0|e'] eqn:E.
    + destruct (ending f); try discriminate.
      intros H. injection H as <-. right. split; reflexivity.
    + intros H. injection H as <-.
      destruct (subscribe_fulfilled _ _ E) as [n [Hn Hs]].
      destruct (settles_fulfilled _ _ Hs) as [t' Ht]. left. exists n, t'. tauto.
    + discriminate.
Qed.

(** Against C7: on a feed that stays silent for ever the wait never ends;
    no timeout error is raised. *)
Lemma C7_silent_feed_hangs : ~ wait_times_out Sample.silent.
Proof.
  intros H.
  destruct (H (Forall_nil _) eq_refl "0xtask" NoFile) as [e He].
  discriminate He.
Qed.

(* ------------------------------------------------------------------ *)
(** ** The coordinator *)

Lemma provision_starts w name lk :
  exists rest, out (provision w name lk) = LogStep1 (consumeApp (CONFIG w)) :: rest.
Proof.
  rewrite provision_unfold. cbv zeta.
  destruct (executeTargetApp_starts w (consumeApp (CONFIG w)) name lk) as [rest ->].
  destruct (res _) as [r| | |]; simpl; eauto.
  destruct (gateway w _) as [doc|]; simpl; eauto.
  destruct (truthy (Some doc)); simpl; eauto.
  destruct (truthy (targetHash (Some doc))); simpl; eauto.
Qed.

(** A run that does not re-use never prints the re-use banner, and once
    step 0 is passed it starts the producer execution. *)
Lemma needs_provision_run w lk :
  coordinator w lk = NEEDS_PROVISION ->
  (forall h, ~ In (LogReuse h) (out (run w lk)))
  /\ (forall a, wallet w = Resolves a -> setup_passes w = true ->
      In (LogStep1 (consumeApp (CONFIG w))) (out (run w lk))).
Proof.
  intros Hc. apply needs_provision_iff in Hc. split.
  - intros h Hin. apply run_events in Hin. destruct Hin as [Hin|Hin].
    + discriminate.
    + rewrite branch_provision in Hin by assumption.
      apply provision_events in Hin. discriminate.
  - intros a Hw Hs. apply (run_step1 w lk a); auto.
    rewrite branch_provision by assumption.
    destruct (provision_starts w (secretName w) lk) as [rest ->]. left; reflexivity.
Qed.

(* ------------------------------------------------------------------ *)
(** ** Failures *)

Lemma consumption_starts w lk :
  exists rest, out (consumption w lk) = LogStep2 :: rest.
Proof.
  rewrite consumption_unfold. cbv zeta.
  destruct (executeConsumeApp_starts w lk) as [rest ->].
  destruct (res _) as [r| | |]; simpl; eauto.
  destruct (gateway w _) as [doc|]; simpl; eauto.
  destruct (truthy (Some doc)); simpl; eauto.
Qed.

(** The only record step 1 writes carries the digest of the fetched
    producer result. *)
Lemma provision_writes w name lk data :
  In (WroteLock data) (out (provision w name lk)) ->
  exists r doc,
    res (executeTargetApp w (consumeApp (CONFIG w)) name lk) = Ret r
    /\ gateway w (resultLocation r) = Some doc
    /\ truthy (Some doc) = true
    /\ truthy (targetHash (Some doc)) = true
    /\ data = lock_record w (targetHash (Some doc)).
Proof.
  rewrite provision_unfold. cbv zeta.
  assert (Ht : ~ In (WroteLock data)
                 (out (executeTargetApp w (consumeApp (CONFIG w)) name lk))).
  { intros Hin.
    pose proof (quiet_in _ _ lk _ (executeTargetApp_quiet w _ name) Hin).
    discriminate. }
  destruct (res (executeTargetApp w (consumeApp (CONFIG w)) name lk)) as [r| | |];
    simpl; try tauto.
  - destruct (gateway w (resultLocation r)) as [doc|] eqn:Eg; simpl.
    + destruct (truthy (Some doc)) eqn:Ed; simpl;
        [ destruct (truthy (targetHash (Some doc))) eqn:Eh; simpl | ];
        rewrite ?in_app_iff; simpl; intros H;
        repeat match goal with
               | H : _ \/ _ |- _ => destruct H
               | H : False |- _ => destruct H
               end; try discriminate; try tauto.
      match goal with H : WroteLock _ = WroteLock _ |- _ => injection H as <- end.
      exists r, doc. auto.
    + rewrite ?in_app_iff; simpl. intros H.
      repeat match goal with
             | H : _ \/ _ |- _ => destruct H
             | H : False |- _ => destruct H
             end; try discriminate; tauto.
  - rewrite in_app_iff; simpl. intros [H|[H|[]]]; [ tauto | discriminate ].
Qed.

(** A record is written only by the provisioning branch of step 1. *)
Lemma run_writes w lk data :
  In (WroteLock data) (out (run w lk)) ->
  reuse (lockState w lk) = false
  /\ In (WroteLock data) (out (provision w (secretName w) lk)).
Proof.
  intros Hin. apply run_events in Hin. destruct Hin as [Hin|Hin]; [ discriminate | ].
  destruct (reuse (lockState w lk)) eqn:Er.
  - rewrite branch_reuse in Hin by assumption.
    destruct Hin as [Hin|[]]. discriminate.
  - rewrite branch_provision in Hin by assumption. auto.
Qed.

(** C3 -- In NEEDS_PROVISION, once step 0 is passed: a failure thrown by
    the producer execution ends the run with exit code 1 before the
    consumer stage, and no record is written; a result that cannot be
    fetched or parsed, or that carries no digest, writes no record either,
    but does not end the run: the consumer stage follows. *)
Theorem C3_no_digest_no_record :
  forall (w : World) (lk : LockFile) (a : string),
    wallet w = Resolves a -> setup_passes w = true ->
    coordinator w lk = NEEDS_PROVISION ->
    (forall e,
        res (executeTargetApp w (consumeApp (CONFIG w)) (secretName w) lk) = Throw e ->
        res (run w lk) = Exit 1 /\ file (run w lk) = lk
        /\ (forall data, ~ In (WroteLock data) (out (run w lk)))
        /\ ~ In LogStep2 (out (run w lk)))
    /\ (forall r,
        res (executeTargetApp w (consumeApp (CONFIG w)) (secretName w) lk) = Ret r ->
        truthy (fetched_digest w (resultLocation r)) = false ->
        file (run w lk) = lk
        /\ (forall data, ~ In (WroteLock data) (out (run w lk)))
        /\ In LogStep2 (out (run w lk))).
Proof.
  intros w lk a Hw Hs Hc. apply needs_provision_iff in Hc.
  pose proof (proj2 (setup_res w lk) Hs) as Hs'.
  split.
  - intros e He.
    assert (Hp : provision w (secretName w) lk
                 = mkStep (Exit 1) lk
                     (out (executeTargetApp w (consumeApp (CONFIG w)) (secretName w) lk)
                      ++ [LogErrorTarget (message e)])).
    { rewrite provision_unfold. cbv zeta. rewrite He. reflexivity. }
    assert (Hnw : forall data, ~ In (WroteLock data) (out (run w lk))).
    { intros data Hin. apply run_writes in Hin. destruct Hin as [_ Hin].
      apply provision_writes in Hin. destruct Hin as [r [doc [Hr _]]]. congruence. }
    rewrite run_unfold, Hw in *. cbv zeta in *. rewrite Hs' in *.
    rewrite branch_provision in * by assumption. rewrite Hp in *.
    unfold halted in *. simpl in *.
    repeat split; [ exact Hnw | ]. rewrite !in_app_iff. simpl.
    intros [H|[H|[H|[H|[]]]]]; try discriminate.
    + pose proof (quiet_in _ _ lk _ (setup_quiet w) H). discriminate.
    + pose proof (quiet_in _ _ lk _ (executeTargetApp_quiet w _ _) H). discriminate.
  - intros r Hr Hd.
    assert (Hp : exists t o, provision w (secretName w) lk = mkStep (Ret t) lk o).
    { rewrite provision_unfold. cbv zeta. rewrite Hr. unfold fetched_digest in Hd.
      destruct (gateway w (resultLocation r)) as [doc|]; [ | eauto ].
      destruct (truthy (Some doc)); [ | eauto ]. rewrite Hd. eauto. }
    assert (Hnw : forall data, ~ In (WroteLock data) (out (run w lk))).
    { intros data Hin. apply run_writes in Hin. destruct Hin as [_ Hin].
      apply provision_writes in Hin.
      destruct Hin as [r' [doc [Hr' [Hg [Hdoc [Ht _]]]]]].
      rewrite Hr in Hr'. injection Hr' as <-.
      unfold fetched_digest in Hd. rewrite Hg, Hdoc in Hd. congruence. }
    destruct Hp as [t [o Hp]].
    destruct (consumption_starts w lk) as [rest Hrest].
    destruct (consumption_quiet w lk) as [Hf _].
    split; [ | split; [ exact Hnw | ] ];
      rewrite run_unfold, Hw; cbv zeta; rewrite Hs';
      rewrite branch_provision by assumption; rewrite Hp; simpl; unfold halted;
      destruct (res (consumption w lk)); simpl; rewrite ?Hf, ?Hrest;
      try reflexivity; rewrite ?in_app_iff; simpl; auto 10.
Qed.

(** Against C3: when the producer's result cannot be fetched the run goes
    on to the consumer stage and ends normally. *)
Lemma C3_fetch_failure_does_not_abort :
  ~ aborts_without_digest (Sample.world Sample.digest0) NoFile.
Proof.
  intros H.
  destruct (H (mkExecResult "0xdeal1" "0xdeal1-task0" (Some "/ipfs/target"))
              eq_refl eq_refl) as [Hres _].
  vm_compute in Hres. discriminate Hres.
Qed.

Lemma C3_witness :
  file (run (Sample.world Sample.digest0) NoFile) = NoFile
  /\ (forall data,
      ~ In (WroteLock data) (out (run (Sample.world Sample.digest0) NoFile)))
  /\ In LogStep2 (out (run (Sample.world Sample.digest0) NoFile)).
Proof.
  exact (proj2 (C3_no_digest_no_record (Sample.world Sample.digest0) NoFile
                  Sample.owner eq_refl eq_refl eq_refl)
               (mkExecResult "0xdeal1" "0xdeal1-task0" (Some "/ipfs/target"))
               eq_refl eq_refl).
Defined.

(* ------------------------------------------------------------------ *)
(** ** The two programs together *)

Import End2End.

Lemma same_location_refl l : same_location l l = true.
Proof. destruct l as [s|]; simpl; auto. apply String.eqb_refl. Qed.

(** With the gateway linked, what step 1 fetches is the generator's
    document. *)
Lemma linked_fetch env w name lk r :
  res (executeTargetApp (link env w) (consumeApp (CONFIG w)) name lk) = Ret r ->
  gateway (link env w) (resultLocation r)
  = Some (TargetApp.result_json (TargetApp.main env)).
Proof.
  intros H. apply executeTargetApp_location in H.
  change (target (link env w)) with (target w) in H.
  unfold link; simpl. unfold target_location. rewrite H.
  rewrite same_location_refl. reflexivity.
Qed.

Lemma targetHash_output p n s :
  targetHash (Some (TargetApp.output p n s)) = Some (JStr (TargetApp.hash s)).
Proof.
  unfold TargetApp.output, targetHash, field, member_opt, obj.
  destruct (TargetApp.str_or (TargetApp.pushedName p) (Some n));
    destruct (TargetApp.address p); simpl;
    destruct (truthy (Some (JStr (TargetApp.hash s)))); reflexivity.
Qed.

Lemma targetHash_not_configured :
  targetHash (Some TargetApp.not_configured) = None.
Proof. reflexivity. Qed.

(** The digest step 1 reads from the generator's document. *)
Lemma targetHash_main env :
  targetHash (Some (TargetApp.result_json (TargetApp.main env)))
  = if configured env
    then Some (JStr (Sha256.sha256_hex (TargetApp.secret (TargetApp.generated env))))
    else None.
Proof.
  destruct (configured env) eqn:E.
  - destruct (TargetFacts.main_configured env E) as [p [-> _]].
    rewrite targetHash_output. unfold TargetApp.generated.
    rewrite TargetFacts.generateSecret_hash. reflexivity.
  - rewrite (TargetFacts.main_unconfigured env E). reflexivity.
Qed.

(* ------------------------------------------------------------------ *)
(** ** What is persisted *)



Lemma result_truthy env :
  truthy (Some (TargetApp.result_json (TargetApp.main env))) = true.
Proof.
  destruct (configured env) eqn:E.
  - destruct (TargetFacts.main_configured env E) as [p [-> _]]. reflexivity.
  - rewrite (TargetFacts.main_unconfigured env E). reflexivity.
Qed.

(** The lock file a linked run leaves. *)
Lemma linked_file env w lk :
  file (run (link env w) lk) =
  if provisions w lk && configured env
  then Holds (lock_record w
                (Some (JStr (Sha256.sha256_hex
                               (TargetApp.secret (TargetApp.generated env))))))
  else lk.
Proof.
  rewrite run_file. unfold provisions.
  change (wallet (link env w)) with (wallet w).
  change (setup_passes (link env w)) with (setup_passes w).
  change (lockState (link env w) lk) with (lockState w lk).
  change (secretName (link env w)) with (secretName w).
  destruct (wallet w) as [a|e]; [ | reflexivity ].
  destruct (setup_passes w); [ | reflexivity ]. simpl.
  destruct (reuse (lockState w lk)) eqn:Er.
  - rewrite branch_reuse by assumption. reflexivity.
  - rewrite branch_provision by assumption. rewrite provision_unfold. cbv zeta.
    change (consumeApp (CONFIG (link env w))) with (consumeApp (CONFIG w)).
    pose proof (linked_fetch env w (secretName w) lk) as Hfetch.
    change (executeTargetApp (link env w)) with (executeTargetApp w) in *.
    destruct (res (executeTargetApp w (consumeApp (CONFIG w)) (secretName w) lk))
      as [r| | |]; try reflexivity.
    rewrite (Hfetch r eq_refl), result_truthy, targetHash_main. simpl.
    destruct (configured env); [ | reflexivity ].
    rewrite DigestFacts.sha256_hex_truthy. reflexivity.
Qed.

(* ================================================================== *)
(** * Further properties of the two programs *)

(** Lemmas first, by subject; the properties follow. *)

(* ------------------------------------------------------------------ *)
(** ** Strings *)

Module StringFacts.

Lemma chars_append a b : chars (a ++ b)%string = chars a ++ chars b.
Proof.
  induction a as [|c a IH]; simpl; [ reflexivity | ].
  unfold chars in *. simpl. rewrite IH. reflexivity.
Qed.

Lemma get_in s : forall i c, get i s = Some c -> In c (chars s).
Proof.
  induction s as [|a s IH]; intros i c; simpl; [ discriminate | ].
  destruct i as [|i]; [ intros H; injection H as <-; left; reflexivity | ].
  intros H. right. exact (IH i c H).
Qed.

Lemma get_some s : forall i, (i < String.length s)%nat -> exists c, get i s = Some c.
Proof.
  induction s as [|a s IH]; intros i; simpl; [ lia | ].
  destruct i as [|i]; [ eauto | ]. intros H. apply IH. lia.
Qed.

Lemma charAt_in cs i :
  (i < String.length cs)%nat ->
  exists c, Str.charAt cs i = String c "" /\ In c (chars cs).
Proof.
  intros H. destruct (get_some cs i H) as [c Hc].
  exists c. unfold Str.charAt. rewrite Hc. split; [ reflexivity | ].
  exact (get_in cs i c Hc).
Qed.

Lemma pick_in alphabet i :
  0 <= i < Z.of_nat (String.length alphabet) ->
  exists c, Enc.pick alphabet i = String c "" /\ In c (chars alphabet).
Proof.
  intros H. destruct (get_some alphabet (Z.to_nat i)) as [c Hc]; [ lia | ].
  exists c. unfold Enc.pick. rewrite Hc. split; [ reflexivity | ].
  exact (get_in _ _ _ Hc).
Qed.

Lemma toLowerCase_length s : String.length (Str.toLowerCase s) = String.length s.
Proof. induction s as [|c s IH]; simpl; auto. Qed.

Lemma toLowerCase_chars s : chars (Str.toLowerCase s) = map Str.lower_char (chars s).
Proof.
  induction s as [|c s IH]; simpl; [ reflexivity | ].
  unfold chars in *. simpl. rewrite IH. reflexivity.
Qed.

End StringFacts.

(* ------------------------------------------------------------------ *)
(** ** The random source and the strings drawn from it *)

Module RandomFacts.

Import TargetApp StringFacts.

Lemma randomBytes_length n src : List.length (fst (randomBytes n src)) = n.
Proof. unfold randomBytes. simpl. rewrite length_map, length_seq. reflexivity. Qed.

Lemma byteZ_range b : 0 <= Enc.byteZ b < 256.
Proof. destruct b; vm_compute; split; congruence. Qed.

Lemma randomBytes_range n src :
  Forall (fun b => 0 <= b < 256) (fst (randomBytes n src)).
Proof.
  unfold randomBytes. simpl. apply Forall_forall. intros b Hb.
  apply in_map_iff in Hb. destruct Hb as [i [<- _]]. apply byteZ_range.
Qed.

(** The bytes drawn are the first [n] of the source. *)
Lemma randomBytes_ext n src src' :
  (forall i, (i < n)%nat -> src i = src' i) ->
  fst (randomBytes n src) = fst (randomBytes n src').
Proof.
  intros H. unfold randomBytes. simpl. apply map_ext_in.
  intros i Hi. apply in_seq in Hi. rewrite H; [ reflexivity | lia ].
Qed.

Lemma draw_fold cs : (0 < String.length cs)%nat ->
  forall bytes acc,
    let r := fold_left
               (fun result b =>
                  (result ++ Str.charAt cs (Z.to_nat (b mod Z.of_nat (String.length cs))))%string)
               bytes acc in
    String.length r = (String.length acc + List.length bytes)%nat
    /\ forall c, In c (chars r) -> In c (chars acc) \/ In c (chars cs).
Proof.
  intros Hcs bytes. induction bytes as [|b bytes IH]; intros acc; simpl.
  - split; [ lia | auto ].
  - destruct (charAt_in cs (Z.to_nat (b mod Z.of_nat (String.length cs)))) as [c [Hc Hin]].
    { pose proof (Z.mod_pos_bound b (Z.of_nat (String.length cs))). lia. }
    destruct (IH (acc ++ Str.charAt cs (Z.to_nat (b mod Z.of_nat (String.length cs))))%string)
      as [Hl Hi].
    split.
    + rewrite Hl, DigestFacts.length_append, Hc. simpl. lia.
    + intros c' Hc'. destruct (Hi c' Hc') as [H|H]; [ | auto ].
      rewrite chars_append, Hc in H. apply in_app_iff in H.
      destruct H as [H|[<-|[]]]; auto.
Qed.

Lemma charset_nonempty name cs :
  charset_named name charsets = Some cs -> (0 < String.length cs)%nat.
Proof.
  unfold charset_named, charsets.
  repeat match goal with
         | |- context [if ?b then _ else _] => destruct b
         end; intros H; try discriminate; injection H as <-; simpl; lia.
Qed.

Lemma generateRandomString_drawn len name cs src :
  charset_named name charsets = Some cs ->
  String.length (fst (generateRandomString len name src)) = len
  /\ (forall c, In c (chars (fst (generateRandomString len name src))) -> In c (chars cs))
  /\ snd (generateRandomString len name src) = snd (randomBytes len src).
Proof.
  intros Hn. pose proof (charset_nonempty _ _ Hn) as Hcs.
  unfold generateRandomString. rewrite Hn.
  pose proof (randomBytes_length len src) as Hl.
  destruct (randomBytes len src) as [bytes src'] eqn:E. simpl in *.
  destruct (draw_fold cs Hcs bytes "") as [H1 H2].
  split; [ | split ].
  - rewrite H1, Hl. reflexivity.
  - intros c Hc. destruct (H2 c Hc) as [[]|H]. exact H.
  - reflexivity.
Qed.

Lemma generateRandomString_ext len name src src' :
  (forall i, (i < len)%nat -> src i = src' i) ->
  fst (generateRandomString len name src) = fst (generateRandomString len name src').
Proof.
  intros H. unfold generateRandomString.
  pose proof (randomBytes_ext len src src' H) as E.
  destruct (randomBytes len src) as [b1 s1]. destruct (randomBytes len src') as [b2 s2].
  simpl in *. subst b2. reflexivity.
Qed.

End RandomFacts.

(* ------------------------------------------------------------------ *)
(** ** Identifiers *)

Module UuidFacts.

Import TargetApp StringFacts RandomFacts.

Lemma hex_byte_shape (b : byte) :
  exists c1 c2, Enc.hex_byte (Enc.byteZ b) = String c1 (String c2 "")
                /\ is_hexdigit c1 = true /\ is_hexdigit c2 = true.
Proof.
  destruct b;
    (do 2 eexists; split; [ vm_compute; reflexivity | split; vm_compute; reflexivity ]).
Qed.

(** [(b & 0x0f) | 0x40]: the high digit is 4. *)
Lemma version_byte_shape (b : byte) :
  exists c, Enc.hex_byte (Z.lor (Z.land (Enc.byteZ b) 15) 64) = String "4" (String c "")
            /\ is_hexdigit c = true.
Proof.
  destruct b; (eexists; split; [ vm_compute; reflexivity | vm_compute; reflexivity ]).
Qed.

(** [(b & 0x3f) | 0x80]: the high digit is 8, 9, a or b. *)
Lemma variant_byte_shape (b : byte) :
  exists c1 c2, Enc.hex_byte (Z.lor (Z.land (Enc.byteZ b) 63) 128) = String c1 (String c2 "")
                /\ existsb (Ascii.eqb c1) ["8"; "9"; "a"; "b"]%char = true
                /\ is_hexdigit c2 = true.
Proof.
  destruct b;
    (do 2 eexists; split; [ vm_compute; reflexivity | split; vm_compute; reflexivity ]).
Qed.

Lemma generateUUID_shape src :
  exists a b c d e : string,
    fst (generateUUID src) = (a ++ "-" ++ b ++ "-4" ++ c ++ "-" ++ d ++ "-" ++ e)%string
    /\ String.length a = 8%nat /\ String.length b = 4%nat /\ String.length c = 3%nat
    /\ String.length d = 4%nat /\ String.length e = 12%nat
    /\ (exists v, get 0 d = Some v /\ existsb (Ascii.eqb v) ["8"; "9"; "a"; "b"]%char = true)
    /\ forallb is_hexdigit (chars (a ++ b ++ c ++ d ++ e)%string) = true.
Proof.
  unfold generateUUID, randomBytes.
  cbn [seq map nth set_nth Enc.hex fold_right Nat.add].
  destruct (version_byte_shape (src 6%nat)) as [v6 [E6 H6]]. rewrite E6.
  destruct (variant_byte_shape (src 8%nat)) as [v8 [w8 [E8 [H8 H8']]]]. rewrite E8.
  repeat match goal with
         | |- context [Enc.hex_byte (Enc.byteZ ?b)] =>
             let c1 := fresh "c" in let c2 := fresh "c" in
             let E := fresh "E" in let H1 := fresh "H" in let H2 := fresh "H" in
             destruct (hex_byte_shape b) as [c1 [c2 [E [H1 H2]]]]; rewrite E; clear E
         end.
  cbn [append Str.slice substring String.length Nat.sub fst].
  match goal with
  | |- exists a b c d e, ?u = _ /\ _ =>
      exists (substring 0 8 u), (substring 9 4 u), (substring 15 3 u),
             (substring 19 4 u), (substring 24 12 u)
  end.
  cbn [substring append String.length get chars list_ascii_of_string forallb].
  split; [ reflexivity | ].
  repeat (split; [ reflexivity | ]).
  split; [ exists v8; split; [ reflexivity | assumption ] | ].
  assert (Hv : is_hexdigit v8 = true).
  { revert H8. cbn [existsb]. rewrite !orb_true_iff, !Ascii.eqb_eq.
    intros [->|[->|[->|[->|Hno]]]]; try reflexivity; discriminate. }
  repeat match goal with H : is_hexdigit _ = true |- _ => rewrite H; clear H end.
  reflexivity.
Qed.

End UuidFacts.

(* ------------------------------------------------------------------ *)
(** ** Encodings of random bytes *)

Module EncFacts.

Import TargetApp StringFacts RandomFacts UuidFacts.

Lemma hex_drawn n src :
  String.length (Enc.hex (fst (randomBytes n src))) = (2 * n)%nat
  /\ forallb is_hexdigit (chars (Enc.hex (fst (randomBytes n src)))) = true.
Proof.
  split.
  - rewrite DigestFacts.hex_length, randomBytes_length; [ reflexivity | ].
    apply randomBytes_range.
  - unfold randomBytes. cbn [fst]. induction (seq 0 n) as [|i l IH]; [ reflexivity | ].
    cbn [map Enc.hex fold_right].
    destruct (hex_byte_shape (src i)) as [c1 [c2 [-> [H1 H2]]]].
    cbn [append chars list_ascii_of_string forallb]. rewrite H1, H2. exact IH.
Qed.

Lemma list_ind3 (P : list Z -> Prop) :
  P [] -> (forall a, P [a]) -> (forall a b, P [a; b]) ->
  (forall a b c rest, P rest -> P (a :: b :: c :: rest)) ->
  forall l, P l.
Proof.
  intros H0 H1 H2 H3. fix IH 1.
  intros [|a [|b [|c rest]]];
    [ exact H0 | apply H1 | apply H2 | apply H3; apply IH ].
Qed.

Lemma pick_length alphabet i :
  0 <= i < Z.of_nat (String.length alphabet) ->
  String.length (Enc.pick alphabet i) = 1%nat.
Proof. intros H. destruct (pick_in alphabet i H) as [c [-> _]]. reflexivity. Qed.

Lemma b64_text_length alphabet padded :
  String.length alphabet = 64%nat ->
  forall bs, Forall (fun b => 0 <= b < 256) bs ->
    String.length (Enc.b64 alphabet padded bs) = b64_length padded (List.length bs).
Proof.
  intros Ha. apply (list_ind3 (fun bs => Forall (fun b => 0 <= b < 256) bs ->
    String.length (Enc.b64 alphabet padded bs) = b64_length padded (List.length bs))).
  - reflexivity.
  - intros a H. inversion_clear H as [|? ? Hr _]. cbn [Enc.b64 List.length b64_length].
    rewrite !DigestFacts.length_append, !pick_length by (rewrite Ha; Z.to_euclidean_division_equations; lia).
    destruct padded; reflexivity.
  - intros a b H. inversion_clear H as [|? ? Hr H']. inversion_clear H' as [|? ? Hr' _].
    cbn [Enc.b64 List.length b64_length].
    rewrite !DigestFacts.length_append, !pick_length by (rewrite Ha; Z.to_euclidean_division_equations; lia).
    destruct padded; reflexivity.
  - intros a b c rest IH H.
    inversion_clear H as [|? ? Ha' H']. inversion_clear H' as [|? ? Hb' H''].
    inversion_clear H'' as [|? ? Hc' Hrest].
    cbn [Enc.b64 List.length b64_length].
    rewrite !DigestFacts.length_append, !pick_length, IH by (rewrite ?Ha; auto; Z.to_euclidean_division_equations; lia).
    reflexivity.
Qed.

End EncFacts.

(* ------------------------------------------------------------------ *)
(** ** Secrets, by type *)

Module SecretFacts.

Import TargetApp StringFacts RandomFacts UuidFacts EncFacts.

Lemma alpha_lower c :
  In c (chars "ABCDEFGHIJKLMNOPQRSTUVWXYZabcdefghijklmnopqrstuvwxyz") ->
  is_lower (Str.lower_char c) = true.
Proof.
  intros H. cbn in H.
  repeat (destruct H as [<-|H]; [ reflexivity | ]). destruct H.
Qed.

Lemma alphanumeric_chars c :
  In c (chars "ABCDEFGHIJKLMNOPQRSTUVWXYZabcdefghijklmnopqrstuvwxyz0123456789") ->
  is_alphanumeric c = true.
Proof.
  intros H. cbn in H.
  repeat (destruct H as [<-|H]; [ reflexivity | ]). destruct H.
Qed.

Lemma generateUUID_rest src : snd (generateUUID src) = snd (randomBytes 16 src).
Proof. reflexivity. Qed.

Lemma generateUUID_ext src src' :
  (forall i, (i < 16)%nat -> src i = src' i) ->
  fst (generateUUID src) = fst (generateUUID src').
Proof.
  intros H. unfold generateUUID.
  pose proof (randomBytes_ext 16 src src' H) as E.
  destruct (randomBytes 16 src) as [b1 s1]. destruct (randomBytes 16 src') as [b2 s2].
  simpl in E. subst b2. reflexivity.
Qed.

Lemma secretValue_of_case t t' clock src :
  Str.toLowerCase t = Str.toLowerCase t' ->
  secretValue_of t clock src = secretValue_of t' clock src.
Proof. unfold secretValue_of. intros ->. reflexivity. Qed.

Lemma secretValue_of_ext t clock src src' :
  (forall i, (i < 48)%nat -> src i = src' i) ->
  secretValue_of t clock src = secretValue_of t clock src'.
Proof.
  intros H. unfold secretValue_of.
  repeat match goal with
         | |- (if ?b then _ else _) = _ => destruct b
         end.
  - pose proof (generateRandomString_ext 4 "alpha" src src') as E1.
    pose proof (generateRandomString_drawn 4 "alpha" _ src eq_refl) as [_ [_ R1]].
    pose proof (generateRandomString_drawn 4 "alpha" _ src' eq_refl) as [_ [_ R2]].
    destruct (generateRandomString 4 "alpha" src) as [p1 s1].
    destruct (generateRandomString 4 "alpha" src') as [p2 s2].
    unfold randomBytes in R1, R2. cbn [fst snd] in E1, R1, R2.
    rewrite <- E1 by (intros; apply H; lia).
    subst s1 s2.
    pose proof (generateRandomString_ext 32 "alphanumeric"
                  (fun i => src (4 + i)%nat) (fun i => src' (4 + i)%nat)) as E2.
    destruct (generateRandomString 32 "alphanumeric" (fun i => src (4 + i)%nat)) as [k1 r1].
    destruct (generateRandomString 32 "alphanumeric" (fun i => src' (4 + i)%nat)) as [k2 r2].
    cbn [fst] in E2. rewrite <- E2 by (intros; apply H; lia). reflexivity.
  - pose proof (generateRandomString_ext 24 "alphanumericSpecial" src src') as E1.
    destruct (generateRandomString 24 "alphanumericSpecial" src) as [p1 s1].
    destruct (generateRandomString 24 "alphanumericSpecial" src') as [p2 s2].
    cbn [fst] in E1. rewrite <- E1 by (intros; apply H; lia). reflexivity.
  - pose proof (generateUUID_ext src src') as E1.
    pose proof (generateUUID_rest src) as R1. pose proof (generateUUID_rest src') as R2.
    destruct (generateUUID src) as [u1 s1]. destruct (generateUUID src') as [u2 s2].
    unfold randomBytes in R1, R2. cbn [fst snd] in E1, R1, R2.
    rewrite <- E1 by (intros; apply H; lia).
    subst s1 s2.
    pose proof (randomBytes_ext 32 (fun i => src (16 + i)%nat)
                  (fun i => src' (16 + i)%nat)) as E2.
    destruct (randomBytes 32 (fun i => src (16 + i)%nat)) as [g1 r1].
    destruct (randomBytes 32 (fun i => src' (16 + i)%nat)) as [g2 r2].
    cbn [fst] in E2. rewrite <- E2 by (intros; apply H; lia). reflexivity.
  - pose proof (generateUUID_ext src src') as E1.
    destruct (generateUUID src) as [u1 s1]. destruct (generateUUID src') as [u2 s2].
    cbn [fst] in E1. rewrite <- E1 by (intros; apply H; lia). reflexivity.
  - pose proof (randomBytes_ext 32 src src') as E1.
    destruct (randomBytes 32 src) as [g1 r1]. destruct (randomBytes 32 src') as [g2 r2].
    cbn [fst] in E1. rewrite <- E1 by (intros; apply H; lia). reflexivity.
  - pose proof (randomBytes_ext 32 src src') as E1.
    destruct (randomBytes 32 src) as [g1 r1]. destruct (randomBytes 32 src') as [g2 r2].
    cbn [fst] in E1. rewrite <- E1 by (intros; apply H; lia). reflexivity.
  - pose proof (randomBytes_ext 32 src src') as E1.
    destruct (randomBytes 32 src) as [g1 r1]. destruct (randomBytes 32 src') as [g2 r2].
    cbn [fst] in E1. rewrite <- E1 by (intros; apply H; lia). reflexivity.
Qed.

Lemma jwt_header_text :
  Enc.base64url (Str.bytes jwt_header) = "eyJhbGciOiJIUzI1NiIsInR5cCI6IkpXVCJ9".
Proof. vm_compute. reflexivity. Qed.

Lemma generateSecret_secret t c s :
  secret (generateSecret t c s) = fst (secretValue_of t c s).
Proof.
  unfold generateSecret. destruct (secretValue_of t c s) as [v m]. reflexivity.
Qed.

End SecretFacts.

(* ------------------------------------------------------------------ *)
(** ** The arguments of the generator *)

Module ArgFacts.

Import TargetApp StringFacts.

Lemma plain_cons c s : plain (String c s) = is_plain c && plain s.
Proof. reflexivity. Qed.

Lemma is_plain_inv c :
  is_plain c = true -> Str.is_space c = false /\ (Str.code c =? 44) = false.
Proof.
  unfold is_plain. rewrite !andb_true_iff, !negb_true_iff. tauto.
Qed.

Lemma trimEnd_plain s : plain s = true -> Str.trimEnd s = s.
Proof.
  induction s as [|c s IH]; [ reflexivity | ].
  rewrite plain_cons, andb_true_iff. intros [Hc Hs].
  cbn [Str.trimEnd]. rewrite (IH Hs).
  destruct s; [ | reflexivity ].
  apply is_plain_inv in Hc. destruct Hc as [Hc _]. rewrite Hc. reflexivity.
Qed.

Lemma trimStart_plain s : plain s = true -> Str.trimStart s = s.
Proof.
  destruct s as [|c s]; [ reflexivity | ].
  rewrite plain_cons, andb_true_iff. intros [Hc _]. cbn [Str.trimStart].
  apply is_plain_inv in Hc. destruct Hc as [Hc _]. rewrite Hc. reflexivity.
Qed.

Lemma trim_plain s : plain s = true -> Str.trim s = s.
Proof.
  intros H. unfold Str.trim. rewrite (trimStart_plain s H). apply trimEnd_plain, H.
Qed.

(** Commas end nothing but the parts: the text made of plain parts keeps
    its ends when trimmed. *)
Lemma trimEnd_append a b :
  b <> "" -> Str.trimEnd b = b -> Str.trimEnd (a ++ b) = (a ++ b)%string.
Proof.
  intros Hb Ht. induction a as [|c a IH]; [ exact Ht | ].
  cbn [append Str.trimEnd]. rewrite IH.
  destruct (a ++ b)%string eqn:E; [ | reflexivity ].
  destruct a; [ simpl in E; congruence | discriminate ].
Qed.

Lemma split_comma_plain s : plain s = true -> Str.split_comma s = [s].
Proof.
  induction s as [|c s IH]; [ reflexivity | ].
  rewrite plain_cons, andb_true_iff. intros [Hc Hs].
  cbn [Str.split_comma]. rewrite (IH Hs).
  apply is_plain_inv in Hc. destruct Hc as [_ Hc]. rewrite Hc. reflexivity.
Qed.

Lemma split_comma_append a rest :
  plain a = true ->
  Str.split_comma (a ++ "," ++ rest) = a :: Str.split_comma rest.
Proof.
  induction a as [|c a IH]; [ reflexivity | ].
  rewrite plain_cons, andb_true_iff. intros [Hc Hs].
  cbn [append Str.split_comma]. cbn [append] in IH. rewrite (IH Hs).
  apply is_plain_inv in Hc. destruct Hc as [_ Hc]. rewrite Hc. reflexivity.
Qed.

Lemma part_or_nonempty parts i fallback :
  fallback <> "" -> part_or parts i fallback <> "".
Proof.
  intros H. unfold part_or. destruct (nth_error parts i) as [p|]; [ | exact H ].
  destruct (p =? "")%string eqn:E; [ exact H | ].
  intros ->. discriminate.
Qed.

(** The argument string of the orchestration script, decoded. *)
Lemma parseArgs_triple p0 name clock :
  plain p0 = true -> p0 <> "" -> plain name = true -> name <> "" ->
  parseArgs [(p0 ++ "," ++ name ++ ",api-key")%string] clock
  = if Str.startsWith p0 "0x"
    then {| consumeAppAddress := Some p0; secretName := name; secretType := "api-key" |}
    else {| consumeAppAddress := None; secretName := p0; secretType := name |}.
Proof.
  intros Hp Hp0 Hn Hn0. unfold parseArgs. cbn [Str.join].
  assert (Ht : Str.trim (p0 ++ "," ++ name ++ ",api-key") = (p0 ++ "," ++ name ++ ",api-key")%string).
  { unfold Str.trim.
    assert (Hs : Str.trimStart (p0 ++ "," ++ name ++ ",api-key")
                 = (p0 ++ "," ++ name ++ ",api-key")%string).
    { destruct p0 as [|c p0]; [ congruence | ].
      rewrite plain_cons, andb_true_iff in Hp. destruct Hp as [Hc _].
      apply is_plain_inv in Hc. destruct Hc as [Hc _].
      cbn [append Str.trimStart]. rewrite Hc. reflexivity. }
    rewrite Hs.
    assert (Hx : (name ++ ",api-key")%string <> "")
      by (destruct name; discriminate).
    apply trimEnd_append; [ cbn; discriminate | ].
    apply (trimEnd_append "," (name ++ ",api-key")); [ exact Hx | ].
    apply trimEnd_append; [ discriminate | reflexivity ]. }
  rewrite Ht.
  assert (Hne : ((p0 ++ "," ++ name ++ ",api-key") =? "")%string = false).
  { destruct p0; [ congruence | reflexivity ]. }
  rewrite Hne.
  rewrite (split_comma_append p0 _ Hp).
  change (name ++ ",api-key")%string with (name ++ "," ++ "api-key")%string.
  rewrite (split_comma_append name _ Hn).
  cbn [Str.split_comma Str.code nat_of_ascii].
  change (Str.split_comma "api-key") with ["api-key"].
  cbn [map]. rewrite (trim_plain p0 Hp), (trim_plain name Hn).
  change (Str.trim "api-key") with "api-key".
  unfold part_or. cbn [nth_error].
  assert (E0 : (p0 =? "")%string = false) by (apply String.eqb_neq; assumption).
  assert (E1 : (name =? "")%string = false) by (apply String.eqb_neq; assumption).
  rewrite E0, E1. reflexivity.
Qed.

End ArgFacts.

(* ------------------------------------------------------------------ *)
(** ** The arguments, as the script writes them *)

Module ArgsFlow.

Import FullFlow FlowFacts.
Local Open Scope flow_scope.

(** The only argument string the producer execution announces. *)
Lemma executeTargetApp_args w c name lk args :
  In (LogArgs args) (out (executeTargetApp w c name lk)) ->
  args = (shown c ++ "," ++ name ++ ",api-key")%string.
Proof.
  set (P := fun ev => match ev with
                      | LogArgs a => (a =? shown c ++ "," ++ name ++ ",api-key")%string
                      | _ => true
                      end).
  assert (Hq : quiet P (executeTargetApp w c name)).
  { unfold executeTargetApp.
    repeat match goal with
           | |- quiet _ (bind _ _) => apply quiet_bind; [ | intros ? ]
           | |- quiet _ (emit (LogArgs _)) => apply quiet_emit, String.eqb_refl
           | |- quiet _ (waitForTask _ _) =>
               apply waitForTask_quiet; intros ev; destruct ev; simpl; auto; discriminate
           | |- quiet _ (fetchWorkerpoolOrder _) => apply fetchWorkerpoolOrder_quiet
           | |- quiet _ (createAppOrder _) => apply createAppOrder_quiet
           | |- quiet _ _ => solve [ auto with flow ]
           end. }
  intros Hin. pose proof (quiet_in _ _ lk _ Hq Hin) as H.
  apply String.eqb_eq in H. exact H.
Qed.

End ArgsFlow.

(* ------------------------------------------------------------------ *)
(** ** The run of the generator *)

Module MainFacts.

Import TargetApp.

Lemma output_success p n s :
  field (Some (output p n s)) "success" = Some (JBool (success p)).
Proof. reflexivity. Qed.

Lemma output_smsInfo p n s :
  field (Some (output p n s)) "smsInfo"
  = Some (obj [ ("pushed", Some (JBool (success p)));
                ("error", or_else (of_string (error p)) (Some JNull)) ]).
Proof.
  unfold output, obj.
  destruct (str_or (pushedName p) (Some n)); destruct (address p); reflexivity.
Qed.

Lemma output_error p n s :
  reported_error (output p n s) = or_else (of_string (error p)) (Some JNull).
Proof.
  unfold reported_error. rewrite output_smsInfo.
  unfold or_else. destruct (truthy (of_string (error p))) eqn:E.
  - destruct (error p); [ reflexivity | discriminate ].
  - reflexivity.
Qed.

(** A configured run in closed form. *)
Lemma main_push env cfg :
  parseAppSecret (IEXEC_APP_DEVELOPER_SECRET env) = Some cfg ->
  truthy (privateKey cfg) = true ->
  main env =
  let a := parseArgs (argv env) (clock env) in
  let pushed :=
    if str_truthy (targetAddress env)
    then pushSecretToSMS (sms env) (targetAddress env) (secretName a)
                         (secret (generated env)) cfg
    else ({| success := false; pushedName := None; address := None;
             error := Some "No Consume App Address provided" |}, []) in
  {| result_json := output (fst pushed) (secretName a) (generated env);
     stored := snd pushed |}.
Proof.
  intros Hc Hk. unfold main, targetAddress, generated. rewrite Hc, Hk. cbn [negb].
  destruct (str_truthy _); [ | reflexivity ].
  destruct (pushSecretToSMS _ _ _ _ _); reflexivity.
Qed.

Lemma configured_inv env :
  configured env = true ->
  exists cfg, parseAppSecret (IEXEC_APP_DEVELOPER_SECRET env) = Some cfg
              /\ truthy (privateKey cfg) = true.
Proof.
  unfold configured.
  destruct (parseAppSecret (IEXEC_APP_DEVELOPER_SECRET env)) as [cfg|];
    [ eauto | discriminate ].
Qed.

(** What a push leaves in the store, and what it answers. *)
Lemma pushSecretToSMS_cases sms a n v cfg :
  let r := pushSecretToSMS sms a n v cfg in
  (success (fst r) = true
   /\ exists addr, a = Some addr /\ addr <> "" /\ isAddress sms addr = true
                   /\ pushAppSecret sms addr v = Resolves true
                   /\ snd r = [(addr, v)])
  \/ (success (fst r) = false /\ snd r = []).
Proof.
  unfold pushSecretToSMS, and_then.
  destruct a as [addr|]; [ | right; split; reflexivity ].
  destruct (addr =? "")%string eqn:Ea; cbn [negb andb];
    [ right; split; reflexivity | ].
  destruct (isAddress sms addr) eqn:Ei; cbn [negb];
    [ | right; split; reflexivity ].
  destruct (getSigner sms); [ | right; split; reflexivity ].
  destruct (getAddress sms); [ | right; split; reflexivity ].
  destruct (pushAppSecret sms addr v) as [[|]|] eqn:Ep;
    try (right; split; reflexivity).
  left. split; [ reflexivity | ]. exists addr.
  apply String.eqb_neq in Ea. auto 10.
Qed.

End MainFacts.

(* ------------------------------------------------------------------ *)
(** ** The App Secret *)

Module ConfigFacts.

Lemma configured_iff env :
  configured env = true <->
  exists fields key,
    TargetApp.IEXEC_APP_DEVELOPER_SECRET env = TargetApp.Parses (JObj fields)
    /\ lookup "DEDICATED_PRIVATE_KEY" fields = Some key
    /\ truthy (Some key) = true.
Proof.
  unfold configured, TargetApp.parseAppSecret.
  destruct (TargetApp.IEXEC_APP_DEVELOPER_SECRET env) as [| |config].
  - split; [ discriminate | intros [fs [k [H _]]]; discriminate ].
  - split; [ discriminate | intros [fs [k [H _]]]; discriminate ].
  - destruct config as [|b|m e|s|items|fields]; cbn;
      try (split; [ discriminate | intros [fs [k [H _]]]; discriminate ]).
    split.
    + intros H. destruct (lookup "DEDICATED_PRIVATE_KEY" fields) as [key|] eqn:E;
        [ | discriminate ].
      exists fields, key. auto.
    + intros [fs [k [H [Hl Ht]]]]. injection H as <-. rewrite Hl. exact Ht.
Qed.

End ConfigFacts.

(* ------------------------------------------------------------------ *)
(** ** Occurrence of a text in a message *)

Module IncludesFacts.

Lemma prefix_iff p : forall s, prefix p s = true <-> exists post, s = (p ++ post)%string.
Proof.
  induction p as [|a p IH]; intros s; cbn [append].
  - split; [ intros _; exists s; reflexivity | intros _; destruct s; reflexivity ].
  - destruct s as [|b s]; cbn [prefix].
    + split; [ discriminate | intros [post H]; discriminate ].
    + destruct (ascii_dec a b) as [<-|Hne].
      * rewrite IH. split; intros [post H]; exists post; congruence.
      * split; [ discriminate | intros [post H]; congruence ].
Qed.

(** [s.includes(sub)] holds exactly when [sub] occurs somewhere in [s]. *)
Lemma includes_iff sub : forall s,
  Str.includes s sub = true <-> exists pre post, s = (pre ++ sub ++ post)%string.
Proof.
  induction s as [|c s IH]; cbn [Str.includes]; rewrite orb_true_iff, prefix_iff.
  - split.
    + intros [[post H]|H]; [ exists "", post; exact H | discriminate ].
    + intros [pre [post H]]. left. destruct pre; [ exists post; exact H | discriminate ].
  - rewrite IH. split.
    + intros [[post H]|[pre [post H]]].
      * exists "", post. exact H.
      * exists (String c pre), post. cbn [append]. congruence.
    + intros [pre [post H]]. destruct pre as [|c' pre].
      * left. exists post. exact H.
      * right. exists pre, post. cbn [append] in H. congruence.
Qed.

End IncludesFacts.

(* ------------------------------------------------------------------ *)
(** ** The status feed *)

Module WaitFacts.

Import FullFlow FlowFacts.

Lemma subscribe_first pre n post :
  Forall (fun m => settles m = Pending) pre -> settles n <> Pending ->
  subscribe (pre ++ n :: post) = (flat_map logged pre ++ logged n, settles n).
Proof.
  intros Hpre Hn. induction Hpre as [|m pre Hm _ IH]; cbn [app subscribe flat_map].
  - destruct (settles n); [ congruence | reflexivity | reflexivity ].
  - rewrite Hm, IH, <- app_assoc. reflexivity.
Qed.

End WaitFacts.

(* ------------------------------------------------------------------ *)
(** ** Stages that leave the lock file alone *)

Module FrameFacts.

Import FullFlow FlowFacts.
Local Open Scope flow_scope.

Section Detached.

Context {A B : Type}.

Lemma detached_ret (a : A) : detached (ret a).
Proof. exists (Ret a), []. split; [ reflexivity | discriminate ]. Qed.

Lemma detached_throw (e : Error) : detached (@throw A e).
Proof. exists (Throw e), []. split; [ reflexivity | discriminate ]. Qed.

Lemma detached_await (call : Sdk A) : detached (await call).
Proof. destruct call; [ apply detached_ret | apply detached_throw ]. Qed.

Lemma detached_bind (m : M A) (k : A -> M B) :
  detached m -> (forall a, detached (k a)) -> detached (bind m k).
Proof.
  intros [r [o [Hm Hr]]] Hk. destruct r as [a|e|c|].
  - destruct (Hk a) as [r' [o' [Hk' Hr']]]. exists r', (o ++ o'). split; [ | exact Hr' ].
    intros lk. unfold bind. rewrite Hm, Hk'. reflexivity.
  - exists (Throw e), o. split; [ | discriminate ].
    intros lk. unfold bind. rewrite Hm. reflexivity.
  - elim (Hr c). reflexivity.
  - exists Hang, o. split; [ | discriminate ].
    intros lk. unfold bind. rewrite Hm. reflexivity.
Qed.

Lemma detached_try_catch (m : M A) (h : Error -> M A) :
  detached m -> (forall e, detached (h e)) -> detached (try_catch m h).
Proof.
  intros [r [o [Hm Hr]]] Hh. destruct r as [a|e|c|].
  - exists (Ret a), o. split; [ | discriminate ].
    intros lk. unfold try_catch. rewrite Hm. reflexivity.
  - destruct (Hh e) as [r' [o' [Hh' Hr']]]. exists r', (o ++ o'). split; [ | exact Hr' ].
    intros lk. unfold try_catch. rewrite Hm, Hh'. reflexivity.
  - elim (Hr c). reflexivity.
  - exists Hang, o. split; [ | discriminate ].
    intros lk. unfold try_catch. rewrite Hm. reflexivity.
Qed.

End Detached.

Lemma detached_emit ev : detached (emit ev).
Proof. exists (Ret tt), [ev]. split; [ reflexivity | discriminate ]. Qed.

Lemma detached_emits evs : detached (emits evs).
Proof. exists (Ret tt), evs. split; [ reflexivity | discriminate ]. Qed.

Lemma detached_frame {A} (m : M A) lk lk' :
  detached m ->
  res (m lk') = res (m lk) /\ out (m lk') = out (m lk) /\ file (m lk) = lk
  /\ forall c, res (m lk) <> Exit c.
Proof.
  intros [r [o [Hm Hr]]]. rewrite !Hm. simpl. auto.
Qed.

Create HintDb frame.
#[export] Hint Resolve detached_ret detached_throw detached_await detached_emit
  detached_emits : frame.

Ltac detached_steps :=
  repeat match goal with
    | |- detached (bind _ _) => apply detached_bind; [ | intros ? ]
    | |- detached (try_catch _ _) => apply detached_try_catch; [ | intros ? ]
    | |- detached _ => solve [ auto with frame ]
    end.

Lemma waitForTask_detached obs id : detached (waitForTask obs id).
Proof.
  unfold waitForTask.
  apply detached_bind; [ auto with frame | intros _ ].
  apply detached_bind; [ auto with frame | intros f ].
  destruct (observe f) as [evs s].
  apply detached_bind; [ auto with frame | intros _ ].
  destruct s; auto with frame.
  exists Hang, []. split; [ reflexivity | discriminate ].
Qed.

Lemma fetchWorkerpoolOrder_detached r : detached (fetchWorkerpoolOrder r).
Proof.
  unfold fetchWorkerpoolOrder.
  apply detached_bind; [ auto with frame | intros orders ].
  destruct orders; auto with frame.
Qed.

Lemma createAppOrder_detached r : detached (createAppOrder r).
Proof. unfold createAppOrder. detached_steps. Qed.

#[export] Hint Resolve waitForTask_detached fetchWorkerpoolOrder_detached
  createAppOrder_detached : frame.

Lemma executeTargetApp_detached w c n : detached (executeTargetApp w c n).
Proof. unfold executeTargetApp. detached_steps. Qed.

Lemma executeConsumeApp_detached w : detached (executeConsumeApp w).
Proof. unfold executeConsumeApp. detached_steps. Qed.

Lemma setup_detached w : detached (setupTargetAppPermissions w).
Proof.
  unfold setupTargetAppPermissions.
  apply detached_try_catch; [ | intros e ].
  - apply detached_bind; [ auto with frame | intros isPushed ].
    destruct isPushed; auto with frame.
  - destruct (message e) as [m|]; [ destruct (_ && _) | ]; detached_steps.
Qed.

Lemma fetchResult_detached w l : detached (fetchResult w l).
Proof. unfold fetchResult. destruct (gateway w l); detached_steps. Qed.

End FrameFacts.

(* ------------------------------------------------------------------ *)
(** ** When an execution returns *)

Module ExecFacts.

Local Open Scope flow_scope.

Lemma await_ret {A} (call : Sdk A) lk a : res (await call lk) = Ret a -> call = Resolves a.
Proof. destruct call; cbn; congruence. Qed.

Lemma await_unit (call : Sdk unit) lk a : res (await call lk) = Ret a -> call = Resolves tt.
Proof. destruct a. apply await_ret. Qed.

Lemma createAppOrder_ret r lk a :
  res (createAppOrder r lk) = Ret a ->
  createApporder r = Resolves tt /\ signApporder r = Resolves tt.
Proof.
  unfold createAppOrder. intros H.
  apply res_bind_ret in H. destruct H as [u [H1 H2]].
  split; [ exact (await_unit _ _ _ H1) | exact (await_unit _ _ _ H2) ].
Qed.

Lemma fetchWorkerpoolOrder_ret r lk o :
  res (fetchWorkerpoolOrder r lk) = Ret o ->
  exists rest, fetchWorkerpoolOrderbook r = Resolves (o :: rest).
Proof.
  unfold fetchWorkerpoolOrder. intros H.
  apply res_bind_ret in H. destruct H as [orders [H1 H2]].
  apply await_ret in H1. destruct orders as [|o' rest]; [ discriminate | ].
  cbn in H2. injection H2 as ->. eauto.
Qed.

Lemma waitForTask_ret obs id lk t :
  res (waitForTask obs id lk) = Ret t ->
  exists f, obs = Resolves f /\ snd (observe f) = Fulfilled t.
Proof.
  destruct obs as [f|e]; [ | discriminate ].
  rewrite waitForTask_res. intros H. exists f. split; [ reflexivity | ].
  destruct (snd (observe f)); [ discriminate | congruence | discriminate ].
Qed.

Ltac ret_step H a Ha :=
  apply res_bind_ret in H; destruct H as [a [Ha H]]; cbv beta in H.

Lemma executeTargetApp_ret w c n lk r :
  res (executeTargetApp w c n lk) = Ret r -> completes (target w) r.
Proof.
  unfold executeTargetApp. intros H. cbv zeta in H.
  ret_step H u0 H0. ret_step H u1 H1. ret_step H o H2. ret_step H u3 H3.
  ret_step H u4 H4. ret_step H u5 H5. ret_step H d H6. ret_step H u7 H7.
  ret_step H t H8. ret_step H x H9. ret_step H l H10. ret_step H u11 H11.
  cbn in H. injection H as <-. cbn [dealId taskId resultLocation].
  destruct (createAppOrder_ret _ _ _ H1) as [Ha Hb].
  destruct (fetchWorkerpoolOrder_ret _ _ _ H2) as [rest Ho].
  destruct (waitForTask_ret _ _ _ _ H9) as [f [Hf Hs]].
  unfold completes. cbn [dealId taskId resultLocation].
  repeat split; eauto using await_ret, await_unit.
Qed.

Lemma executeConsumeApp_ret w lk r :
  res (executeConsumeApp w lk) = Ret r -> completes (consume w) r.
Proof.
  unfold executeConsumeApp. intros H. cbv zeta in H.
  ret_step H u0 H0. ret_step H u1 H1. ret_step H o H2.
  ret_step H u4 H4. ret_step H u5 H5. ret_step H d H6. ret_step H u7 H7.
  ret_step H t H8. ret_step H x H9. ret_step H l H10. ret_step H u11 H11.
  cbn in H. injection H as <-. cbn [dealId taskId resultLocation].
  destruct (createAppOrder_ret _ _ _ H1) as [Ha Hb].
  destruct (fetchWorkerpoolOrder_ret _ _ _ H2) as [rest Ho].
  destruct (waitForTask_ret _ _ _ _ H9) as [f [Hf Hs]].
  unfold completes. cbn [dealId taskId resultLocation].
  repeat split; eauto using await_ret, await_unit.
Qed.

Lemma waitForTask_fulfilled f t id lk :
  snd (observe f) = Fulfilled t ->
  waitForTask (Resolves f) id lk
  = mkStep (Ret t) lk (LogWaiting (substring 0 10 id) :: fst (observe f)).
Proof.
  unfold waitForTask, bind. cbn [await ret emit emits].
  destruct (observe f) as [evs s]. cbn [fst snd]. intros ->.
  cbn. rewrite app_nil_r. reflexivity.
Qed.

Lemma completes_target w c n lk r :
  completes (target w) r -> res (executeTargetApp w c n lk) = Ret r.
Proof.
  intros [H1 [H2 [[o [rest H3]] [H4 [H5 [H6 [H7 [[f [t [H8 H9]]] H10]]]]]]]].
  unfold executeTargetApp, createAppOrder, fetchWorkerpoolOrder. cbv zeta.
  rewrite H1, H2, H3, H4, H5, H6, H7, H8, H10.
  repeat progress (rewrite ?res_bind, ?file_bind, ?(waitForTask_fulfilled f t _ _ H9);
                   cbn [res file emit await ret]).
  destruct r; reflexivity.
Qed.

Lemma completes_consume w lk r :
  completes (consume w) r -> res (executeConsumeApp w lk) = Ret r.
Proof.
  intros [H1 [H2 [[o [rest H3]] [H4 [H5 [H6 [H7 [[f [t [H8 H9]]] H10]]]]]]]].
  unfold executeConsumeApp, createAppOrder, fetchWorkerpoolOrder. cbv zeta.
  rewrite H1, H2, H3, H4, H5, H6, H7, H8, H10.
  repeat progress (rewrite ?res_bind, ?file_bind, ?(waitForTask_fulfilled f t _ _ H9);
                   cbn [res file emit await ret]).
  destruct r; reflexivity.
Qed.

End ExecFacts.

(* ------------------------------------------------------------------ *)
(** ** How a run ends and what it prints *)

Module RunFacts.

Import FullFlow FlowFacts FrameFacts.
Local Open Scope flow_scope.

#[local] Arguments truthy : simpl never.
#[local] Arguments targetHash : simpl never.
#[local] Arguments field : simpl never.
#[local] Arguments member_opt : simpl never.
#[local] Arguments setupTargetAppPermissions : simpl never.
#[local] Arguments provision : simpl never.
#[local] Arguments consumption : simpl never.
#[local] Arguments verification : simpl never.
#[local] Arguments reuse : simpl never.
#[local] Arguments step1 : simpl never.
#[local] Arguments secretName : simpl never.
#[local] Arguments executeTargetApp : simpl never.
#[local] Arguments executeConsumeApp : simpl never.

Lemma halted_res {A B} (s : Step A) pre :
  res (@halted A B s pre) =
  match res s with
  | Throw _ => Exit 1
  | Exit c => Exit c
  | _ => Hang
  end.
Proof. unfold halted. destruct (res s); reflexivity. Qed.

Section Stages.

Variable w : World.

Lemma provision_res name lk :
  res (provision w name lk) =
  match res (executeTargetApp w (consumeApp (CONFIG w)) name lk) with
  | Ret r => Ret (fetched_digest w (resultLocation r))
  | Throw _ => Exit 1
  | Exit c => Exit c
  | Hang => Hang
  end.
Proof.
  rewrite provision_unfold. cbv zeta. unfold fetched_digest.
  destruct (res (executeTargetApp w (consumeApp (CONFIG w)) name lk)) as [r| | |];
    try reflexivity.
  destruct (gateway w (resultLocation r)) as [doc|]; [ | reflexivity ].
  destruct (truthy (Some doc)); [ | reflexivity ].
  destruct (truthy (targetHash (Some doc))); reflexivity.
Qed.

Lemma consumption_res lk :
  res (consumption w lk) =
  match res (executeConsumeApp w lk) with
  | Ret r => Ret (observed_digest w (resultLocation r))
  | Throw _ => Exit 1
  | Exit c => Exit c
  | Hang => Hang
  end.
Proof.
  rewrite consumption_unfold. cbv zeta. unfold observed_digest.
  destruct (res (executeConsumeApp w lk)) as [r| | |]; try reflexivity.
  destruct (gateway w (resultLocation r)) as [doc|]; [ | reflexivity ].
  destruct (truthy (Some doc)); reflexivity.
Qed.

Lemma step1_res e name lk :
  res (step1 w e name lk) =
  if reuse e then Ret (field e "secretHash") else res (provision w name lk).
Proof. unfold step1. destruct (reuse e); reflexivity. Qed.

(** How a run ends. *)
Lemma run_res lk :
  res (run w lk) =
  match wallet w with
  | Rejects _ => Exit 1
  | Resolves _ =>
      if setup_passes w then
        let s1 := step1 w (lockState w lk) (secretName w) lk in
        match res s1 with
        | Ret _ =>
            match res (consumption w (file s1)) with
            | Ret _ => Ret tt
            | Throw _ => Exit 1
            | Exit c => Exit c
            | Hang => Hang
            end
        | Throw _ => Exit 1
        | Exit c => Exit c
        | Hang => Hang
        end
      else Exit 1
  end.
Proof.
  rewrite run_unfold. destruct (wallet w) as [a|e]; [ | reflexivity ].
  pose proof (setup_res w lk) as Hs.
  destruct (detached_frame _ lk lk (setup_detached w)) as [_ [_ [_ Hx]]].
  assert (Hh : res (setupTargetAppPermissions w lk) <> Hang).
  { rewrite setup_unfold. destruct (permissionPush w) as [[|]|e]; try discriminate.
    destruct (already_exists e); discriminate. }
  cbv zeta. unfold halted.
  destruct (res (setupTargetAppPermissions w lk)) as [[]| |c|];
    destruct (setup_passes w);
    try (destruct Hs as [Hs1 Hs2];
         (discriminate (Hs1 eq_refl) || discriminate (Hs2 eq_refl)));
    try reflexivity; try (elim (Hx c); reflexivity); try (elim Hh; reflexivity).
  destruct (res (step1 w (lockState w lk) (secretName w) lk)) as [t| | |];
    try reflexivity.
  destruct (res (consumption w _)) as [c| | |]; reflexivity.
Qed.

Lemma setup_stage lk : forallb of_stage (out (setupTargetAppPermissions w lk)) = true.
Proof.
  apply forallb_forall. intros ev Hev.
  pose proof (quiet_in _ _ lk ev (setup_quiet w) Hev). destruct ev; simpl in *; auto.
Qed.

Lemma step1_stage e name lk : forallb of_stage (out (step1 w e name lk)) = true.
Proof.
  apply forallb_forall. intros ev Hev. unfold step1 in Hev.
  destruct (reuse e).
  - destruct Hev as [<-|[]]. reflexivity.
  - apply provision_events in Hev. destruct ev; simpl in *; auto; discriminate.
Qed.

Lemma consumption_stage lk : forallb of_stage (out (consumption w lk)) = true.
Proof.
  apply forallb_forall. intros ev Hev.
  pose proof (quiet_in _ _ lk ev (consumption_quiet w) Hev).
  destruct ev; simpl in *; auto; discriminate.
Qed.

(** What a run prints: the events of its stages and then, if it ends
    normally, the report of step 3. *)
Lemma run_out lk :
  exists pre,
    forallb of_stage pre = true
    /\ ((res (run w lk) = Ret tt
         /\ exists t c,
             res (step1 w (lockState w lk) (secretName w) lk) = Ret t
             /\ res (consumption w (file (step1 w (lockState w lk) (secretName w) lk)))
                = Ret c
             /\ out (run w lk) = pre ++ verification t c (lockState w lk))
        \/ (res (run w lk) <> Ret tt /\ out (run w lk) = pre)).
Proof.
  rewrite run_unfold. destruct (wallet w) as [a|e].
  2:{ eexists. split; [ | right; split; [ discriminate | reflexivity ] ]. reflexivity. }
  cbv zeta. unfold halted.
  pose proof (setup_stage lk) as H0.
  pose proof (step1_stage (lockState w lk) (secretName w) lk) as H1.
  pose proof (consumption_stage (file (step1 w (lockState w lk) (secretName w) lk))) as H2.
  destruct (res (setupTargetAppPermissions w lk)) as [[]| | |]; cbn [res out];
    try (eexists; split; [ | right; split; [ discriminate | reflexivity ] ];
         rewrite ?forallb_app, ?H0; reflexivity).
  destruct (res (step1 w (lockState w lk) (secretName w) lk)) as [t| | |]; cbn [res out];
    try (eexists; split; [ | right; split; [ discriminate | reflexivity ] ];
         rewrite ?forallb_app, ?H0, ?H1; reflexivity).
  destruct (res (consumption w _)) as [c| | |]; cbn [res out];
    try (eexists; split; [ | right; split; [ discriminate | reflexivity ] ];
         rewrite ?forallb_app, ?H0, ?H1, ?H2; reflexivity).
  exists ([LogWallet a] ++ out (setupTargetAppPermissions w lk)
          ++ out (step1 w (lockState w lk) (secretName w) lk)
          ++ out (consumption w (file (step1 w (lockState w lk) (secretName w) lk)))).
  split; [ rewrite ?forallb_app, ?H0, ?H1, ?H2; reflexivity | ].
  left. split; [ reflexivity | ]. exists t, c.
  repeat split. rewrite <- !app_assoc. reflexivity.
Qed.

(** The report of step 3 always holds one of the two verdicts, and
    nothing but events of step 3. *)
Lemma verification_events t c e :
  (In LogMatch (verification t c e) \/ In LogMismatch (verification t c e))
  /\ forallb of_verification (verification t c e) = true.
Proof.
  unfold verification, verdict.
  destruct (_ && _); [ destruct (truthy e) | destruct (negb _) ];
    (split; [ simpl; auto 10 | reflexivity ]).
Qed.

Lemma stage_not_verification pre ev :
  forallb of_stage pre = true -> of_verification ev = true -> ~ In ev pre.
Proof.
  intros Hp Hv Hin. rewrite forallb_forall in Hp. specialize (Hp ev Hin).
  unfold of_stage in Hp. rewrite Hv in Hp. discriminate.
Qed.

Lemma provision_exit name lk code :
  res (provision w name lk) = Exit code ->
  code = 1
  /\ exists e, res (executeTargetApp w (consumeApp (CONFIG w)) name lk) = Throw e
               /\ out (provision w name lk)
                  = out (executeTargetApp w (consumeApp (CONFIG w)) name lk)
                    ++ [LogErrorTarget (message e)].
Proof.
  destruct (detached_frame _ lk lk (executeTargetApp_detached w (consumeApp (CONFIG w)) name))
    as [_ [_ [_ Hx]]].
  rewrite provision_res, provision_unfold. cbv zeta.
  destruct (res (executeTargetApp w (consumeApp (CONFIG w)) name lk)) as [r|e|c|];
    try discriminate.
  - intros H. injection H as <-. split; [ reflexivity | ]. exists e. split; reflexivity.
  - elim (Hx c). reflexivity.
Qed.

Lemma consumption_exit lk code :
  res (consumption w lk) = Exit code ->
  code = 1
  /\ exists e, res (executeConsumeApp w lk) = Throw e
               /\ out (consumption w lk)
                  = out (executeConsumeApp w lk) ++ [LogErrorConsume (message e)].
Proof.
  destruct (detached_frame _ lk lk (executeConsumeApp_detached w)) as [_ [_ [_ Hx]]].
  rewrite consumption_res, consumption_unfold. cbv zeta.
  destruct (res (executeConsumeApp w lk)) as [r|e|c|]; try discriminate.
  - intros H. injection H as <-. split; [ reflexivity | ]. exists e. split; reflexivity.
  - elim (Hx c). reflexivity.
Qed.

Lemma step1_exit e name lk code :
  res (step1 w e name lk) = Exit code ->
  reuse e = false /\ res (provision w name lk) = Exit code
  /\ out (step1 w e name lk) = out (provision w name lk).
Proof.
  unfold step1. destruct (reuse e); [ discriminate | auto ].
Qed.

(** A run that ends the process does so with exit code 1, and the last
    thing it prints is the error that ended it. *)
Lemma run_exit lk code :
  res (run w lk) = Exit code ->
  code = 1
  /\ exists pre m,
      out (run w lk) = pre ++ [LogFatal m]
      \/ out (run w lk) = pre ++ [LogErrorTarget m]
      \/ out (run w lk) = pre ++ [LogErrorConsume m].
Proof.
  rewrite run_unfold. destruct (wallet w) as [a|e].
  2:{ intros H. injection H as <-. split; [ reflexivity | ].
      exists [], (message e). left. reflexivity. }
  cbv zeta. unfold halted.
  destruct (detached_frame _ lk lk (setup_detached w)) as [_ [_ [_ Hx]]].
  destruct (res (setupTargetAppPermissions w lk)) as [[]|e0|c0|]; cbn [res out];
    try discriminate.
  - destruct (res (step1 w (lockState w lk) (secretName w) lk)) as [t|e1|c1|] eqn:E1;
      cbn [res out]; try discriminate.
    + destruct (res (consumption w _)) as [c|e2|c2|] eqn:E2; cbn [res out];
        try discriminate.
      * intros H. injection H as <-. split; [ reflexivity | ].
        eexists _, (message e2). left. rewrite !app_assoc. reflexivity.
      * intros H. injection H as <-.
        destruct (consumption_exit _ _ E2) as [-> [e [_ Ho]]].
        split; [ reflexivity | ]. rewrite Ho.
        eexists _, (message e). right. right. rewrite !app_assoc. reflexivity.
    + intros H. injection H as <-. split; [ reflexivity | ].
      eexists _, (message e1). left. rewrite !app_assoc. reflexivity.
    + intros H. injection H as <-.
      destruct (step1_exit _ _ _ _ E1) as [_ [Ep Ho]].
      destruct (provision_exit _ _ _ Ep) as [-> [e [_ Ho']]].
      split; [ reflexivity | ]. rewrite Ho, Ho'.
      eexists _, (message e). right. left. rewrite !app_assoc. reflexivity.
  - intros H. injection H as <-. split; [ reflexivity | ].
    eexists _, (message e0). left. rewrite !app_assoc. reflexivity.
  - elim (Hx c0). reflexivity.
Qed.

End Stages.

End RunFacts.

(* ------------------------------------------------------------------ *)
(** ** The record and its re-use *)

Module RecordFacts.

Import FrameFacts RunFacts.

Lemma truthy_some v : truthy v = true -> exists j, v = Some j.
Proof. destruct v as [j|]; [ eauto | discriminate ]. Qed.

(** The record [saveLockState] writes reads back as it was written. *)
Lemma lock_record_fields w h :
  truthy h = true ->
  field (Some (lock_record w h)) "appAddress" = of_string (consumeApp (CONFIG w))
  /\ field (Some (lock_record w h)) "secretHash" = h.
Proof.
  intros Hh. destruct (truthy_some h Hh) as [j ->].
  unfold lock_record, obj. destruct (consumeApp (CONFIG w)); split; reflexivity.
Qed.

(** Only a run that passed the wallet and step 0 prints events of
    step 1. *)
Lemma run_reaches_step1 w lk ev :
  In ev (out (run w lk)) -> of_frame ev = false ->
  (exists a, wallet w = Resolves a) /\ setup_passes w = true
  /\ In ev (out (step1 w (lockState w lk) (secretName w) lk)).
Proof.
  intros Hin Hf.
  assert (Hs : In ev (out (step1 w (lockState w lk) (secretName w) lk))).
  { destruct (run_events w lk ev Hin) as [H|H]; [ congruence | exact H ]. }
  revert Hin. rewrite run_unfold. destruct (wallet w) as [a|e].
  2:{ intros [<-|[]]. discriminate. }
  cbv zeta. intros Hin. split; [ eauto | ]. split; [ | exact Hs ].
  apply (setup_res w lk).
  destruct (res (setupTargetAppPermissions w lk)) as [[]| | |] eqn:E0;
    [ reflexivity | exfalso .. ];
    unfold halted in Hin; rewrite E0 in Hin; cbn [out] in Hin;
    rewrite ?in_app_iff in Hin; cbn [In] in Hin;
    (destruct Hin as [[H|[]]|H]; [ subst ev; discriminate | ]);
    repeat match goal with
           | H : _ \/ _ |- _ => destruct H as [H|H]
           | H : False |- _ => destruct H
           | H : In ev (out (setupTargetAppPermissions w lk)) |- _ =>
               pose proof (quiet_in _ _ lk ev (setup_quiet w) H);
               destruct ev; discriminate
           | H : _ = ev |- _ => subst ev; discriminate
           end.
Qed.

(** A run that writes a record leaves it in the lock file. *)
Lemma run_record w lk data :
  In (WroteLock data) (out (run w lk)) ->
  exists h, truthy h = true /\ data = lock_record w h
            /\ file (run w lk) = Holds data
            /\ In (LogHashTarget h) (out (run w lk))
            /\ res (step1 w (lockState w lk) (secretName w) lk) = Ret h
            /\ file (step1 w (lockState w lk) (secretName w) lk) = Holds data.
Proof.
  intros Hin.
  destruct (run_reaches_step1 w lk _ Hin eq_refl) as [[a Hw] [Hs _]].
  destruct (run_writes w lk data Hin) as [Er Hp].
  destruct (provision_writes w _ lk data Hp) as [r [doc [Hr [Hg [Hd [Ht ->]]]]]].
  exists (targetHash (Some doc)). split; [ exact Ht | split; [ reflexivity | ] ].
  assert (E : provision w (secretName w) lk
              = mkStep (Ret (targetHash (Some doc)))
                  (Holds (lock_record w (targetHash (Some doc))))
                  ((out (executeTargetApp w (consumeApp (CONFIG w)) (secretName w) lk)
                    ++ [LogResult (resultLocation r)])
                   ++ [LogHashTarget (targetHash (Some doc));
                       WroteLock (lock_record w (targetHash (Some doc))); LogSaved])).
  { rewrite provision_unfold. cbv zeta. rewrite Hr, Hg, Hd, Ht. reflexivity. }
  split; [ | split; [ | split ] ].
  - rewrite run_file, Hw, Hs, branch_provision, E by assumption. reflexivity.
  - apply (run_step1 w lk a _ Hw Hs). rewrite branch_provision, E by assumption.
    cbn [out]. apply in_app_iff. right. left. reflexivity.
  - rewrite branch_provision, E by assumption. reflexivity.
  - rewrite branch_provision, E by assumption. reflexivity.
Qed.

(** In REUSE the run leaves the lock file alone and expects the recorded
    digest. *)
Lemma reuse_run w data :
  field (Some data) "appAddress" = of_string (consumeApp (CONFIG w)) ->
  truthy (field (Some data) "secretHash") = true ->
  lockState w (Holds data) = Some data
  /\ coordinator w (Holds data) = REUSE
  /\ file (run w (Holds data)) = Holds data
  /\ (forall ev, In ev (out (run w (Holds data))) -> of_provision ev = false)
  /\ (forall h, In (LogExpected h) (out (run w (Holds data))) ->
      h = field (Some data) "secretHash").
Proof.
  intros Ha Ht.
  assert (Hl : lockState w (Holds data) = Some data).
  { rewrite lockState_holds. apply strict_eq_string in Ha. rewrite Ha. reflexivity. }
  assert (Hr : reuse (lockState w (Holds data)) = true).
  { rewrite Hl, reuse_record. exact Ht. }
  split; [ exact Hl | ].
  split; [ unfold coordinator; rewrite Hr; reflexivity | ].
  split; [ | split ].
  - rewrite run_file. destruct (wallet w); [ | reflexivity ].
    destruct (setup_passes w); [ | reflexivity ].
    rewrite branch_reuse by assumption. reflexivity.
  - intros ev Hin. apply run_events in Hin. destruct Hin as [Hin|Hin].
    + destruct ev; simpl in *; try discriminate; reflexivity.
    + rewrite branch_reuse in Hin by assumption.
      destruct Hin as [<-|[]]. reflexivity.
  - intros h Hin. apply run_expected in Hin. destruct Hin as [t [Hres ->]].
    rewrite branch_reuse in Hres by assumption. cbn [res] in Hres.
    injection Hres as <-. rewrite Hl. unfold or_else. rewrite Ht. reflexivity.
Qed.

End RecordFacts.

(* ------------------------------------------------------------------ *)
(** ** The report of step 3 *)

Module VerdictFacts.

Import RunFacts.

Lemma verification_notes t c e :
  let equal := truthy t && truthy c && strict_eq t c in
  (In LogMatch (verification t c e) <-> equal = true)
  /\ (In LogPersistent (verification t c e) <-> equal = true /\ truthy e = true)
  /\ (In LogInitial (verification t c e) <-> equal = true /\ truthy e = false)
  /\ (In LogMissingTarget (verification t c e) -> truthy t = false).
Proof.
  unfold verification, verdict.
  destruct (truthy t && truthy c && strict_eq t c);
    destruct (truthy e); destruct (truthy t); cbn;
    repeat split; intros;
    repeat match goal with
           | H : _ \/ _ |- _ => destruct H
           | H : _ /\ _ |- _ => destruct H
           | H : False |- _ => destruct H
           end; try discriminate; auto 10.
Qed.

(** The events of step 3 a run prints are those of its report. *)
Lemma run_report w lk ev :
  of_verification ev = true ->
  (In ev (out (run w lk)) <->
   exists t c,
     res (run w lk) = Ret tt
     /\ res (step1 w (lockState w lk) (secretName w) lk) = Ret t
     /\ res (consumption w (file (step1 w (lockState w lk) (secretName w) lk))) = Ret c
     /\ In ev (verification t c (lockState w lk))).
Proof.
  intros Hv.
  destruct (run_out w lk) as [pre [Hpre [[Hr [t [c [H1 [H2 Ho]]]]]|[Hr Ho]]]]; rewrite Ho.
  - split.
    + intros Hin. apply in_app_iff in Hin. destruct Hin as [Hin|Hin].
      * elim (stage_not_verification pre ev Hpre Hv Hin).
      * exists t, c. auto.
    + intros [t' [c' [_ [H1' [H2' Hin]]]]].
      rewrite H1 in H1'. injection H1' as <-. rewrite H2 in H2'. injection H2' as <-.
      apply in_app_iff. auto.
  - split.
    + intros Hin. elim (stage_not_verification pre ev Hpre Hv Hin).
    + intros [t [c [H _]]]. elim (Hr H).
Qed.

End VerdictFacts.

(* ------------------------------------------------------------------ *)
(** ** What a match rests on *)

Module MatchFacts.

Import RunFacts.

Lemma run_ret_passed w lk :
  res (run w lk) = Ret tt -> (exists a, wallet w = Resolves a) /\ setup_passes w = true.
Proof.
  rewrite run_res. destruct (wallet w) as [a|e]; [ | discriminate ].
  destruct (setup_passes w); [ eauto | discriminate ].
Qed.

(** Once step 1 has returned, everything step 2 prints is printed. *)
Lemma run_step2 w lk a t ev :
  wallet w = Resolves a -> setup_passes w = true ->
  res (step1 w (lockState w lk) (secretName w) lk) = Ret t ->
  In ev (out (consumption w (file (step1 w (lockState w lk) (secretName w) lk)))) ->
  In ev (out (run w lk)).
Proof.
  intros Hw Hs H1 Hev. rewrite run_unfold, Hw. cbv zeta. unfold halted.
  apply (setup_res w lk) in Hs. rewrite Hs, H1.
  destruct (res (consumption w _)) as [c| | |]; cbn [out];
    rewrite ?in_app_iff; auto 10.
Qed.

(** A truthy digest returned by the provisioning branch was recorded. *)
Lemma provision_ret w name lk t :
  res (provision w name lk) = Ret t -> truthy t = true ->
  In (WroteLock (lock_record w t)) (out (provision w name lk))
  /\ exists r, res (executeTargetApp w (consumeApp (CONFIG w)) name lk) = Ret r
               /\ t = fetched_digest w (resultLocation r).
Proof.
  rewrite provision_res, provision_unfold. cbv zeta. unfold fetched_digest.
  destruct (res (executeTargetApp w (consumeApp (CONFIG w)) name lk)) as [r| | |];
    try discriminate.
  intros H Ht. injection H as <-. split; [ | eauto ].
  destruct (gateway w (resultLocation r)) as [doc|]; [ | discriminate ].
  destruct (truthy (Some doc)); [ | discriminate ].
  rewrite Ht. cbn [out]. apply in_app_iff. right. right. left. reflexivity.
Qed.

(** A truthy digest returned by step 2 was printed as the consumer's. *)
Lemma consumption_ret w lk c :
  res (consumption w lk) = Ret c -> truthy c = true ->
  In (LogHashConsume c) (out (consumption w lk)).
Proof.
  rewrite consumption_res, consumption_unfold. cbv zeta. unfold observed_digest.
  destruct (res (executeConsumeApp w lk)) as [r| | |]; try discriminate.
  intros H Ht. injection H as <-.
  destruct (gateway w (resultLocation r)) as [doc|]; [ | discriminate ].
  destruct (truthy (Some doc)); [ | discriminate ].
  cbn [out]. rewrite !in_app_iff. right. right. left. reflexivity.
Qed.

Lemma strict_eq_text x c : strict_eq (Some (JStr x)) c = true -> c = Some (JStr x).
Proof.
  destruct c as [[| | |s| |]|]; try discriminate. cbn.
  rewrite String.eqb_eq. congruence.
Qed.

End MatchFacts.

(* ------------------------------------------------------------------ *)
(** ** Provisioning anew *)

Module RenewFacts.

Import FullFlow FlowFacts FrameFacts ExecFacts RunFacts RecordFacts VerdictFacts MatchFacts.
Local Open Scope flow_scope.

#[local] Arguments truthy : simpl never.
#[local] Arguments targetHash : simpl never.
#[local] Arguments field : simpl never.
#[local] Arguments member_opt : simpl never.
#[local] Arguments secretName : simpl never.

(** A producer execution that completes, in closed form. *)
Lemma target_completed w c n lk r :
  completes (target w) r ->
  exists f,
    obsTask (target w) = Resolves f
    /\ executeTargetApp w c n lk
       = mkStep (Ret r) lk
           ([ LogStep1 c; LogArgs (shown c ++ "," ++ n ++ ",api-key");
              LogDeal (dealId r); LogWaiting (substring 0 10 (taskId r)) ]
            ++ fst (observe f) ++ [LogFinished]).
Proof.
  intros [H1 [H2 [[o [rest H3]] [H4 [H5 [H6 [H7 [[f [t [H8 H9]]] H10]]]]]]]].
  exists f. split; [ exact H8 | ].
  unfold executeTargetApp, createAppOrder, fetchWorkerpoolOrder. cbv zeta.
  rewrite H1, H2, H3, H4, H5, H6, H7, H8, H10.
  unfold bind. cbn [await ret emit].
  rewrite (waitForTask_fulfilled f t _ _ H9).
  destruct r. cbn. reflexivity.
Qed.

(** Provisioning when the producer's result carries a digest. *)
Lemma provision_renews w name lk r h :
  completes (target w) r ->
  fetched_digest w (resultLocation r) = Some (JStr h) -> h <> "" ->
  exists o,
    provision w name lk
    = mkStep (Ret (Some (JStr h))) (Holds (lock_record w (Some (JStr h)))) o
    /\ In (WroteLock (lock_record w (Some (JStr h)))) o.
Proof.
  intros Hr Hd Hh.
  pose proof (completes_target w (consumeApp (CONFIG w)) name lk r Hr) as Ht.
  assert (Hth : truthy (Some (JStr h)) = true).
  { unfold truthy. apply String.eqb_neq in Hh. rewrite Hh. reflexivity. }
  rewrite provision_unfold. cbv zeta. rewrite Ht.
  unfold fetched_digest in Hd.
  destruct (gateway w (resultLocation r)) as [doc|]; [ | discriminate ].
  destruct (truthy (Some doc)); [ | discriminate ].
  rewrite Hd, Hth. eexists. split; [ reflexivity | ].
  apply in_app_iff. right. right. left. reflexivity.
Qed.

(** Provisioning when the producer's result carries no digest. *)
Lemma provision_keeps w name lk r :
  completes (target w) r ->
  truthy (fetched_digest w (resultLocation r)) = false ->
  file (provision w name lk) = lk.
Proof.
  intros Hr Hd.
  pose proof (completes_target w (consumeApp (CONFIG w)) name lk r Hr) as Ht.
  rewrite provision_unfold. cbv zeta. rewrite Ht.
  unfold fetched_digest in Hd.
  destruct (gateway w (resultLocation r)) as [doc|]; [ | reflexivity ].
  destruct (truthy (Some doc)); [ | reflexivity ].
  rewrite Hd. reflexivity.
Qed.

(** What a completing producer execution prints, provisioning prints. *)
Lemma provision_shows w name lk r ev :
  completes (target w) r ->
  In ev [ LogArgs (shown (consumeApp (CONFIG w)) ++ "," ++ name ++ ",api-key");
          LogDeal (dealId r); LogResult (resultLocation r) ] ->
  In ev (out (provision w name lk)).
Proof.
  intros Hr Hev.
  destruct (target_completed w (consumeApp (CONFIG w)) name lk r Hr) as [f [_ E]].
  assert (Hin : In ev (out (executeTargetApp w (consumeApp (CONFIG w)) name lk)
                       ++ [LogResult (resultLocation r)])).
  { rewrite E. cbn [out]. apply in_app_iff.
    destruct Hev as [<-|[<-|[<-|[]]]];
      [ left; right; left; reflexivity
      | left; right; right; left; reflexivity
      | right; left; reflexivity ]. }
  rewrite provision_unfold. cbv zeta.
  replace (res (executeTargetApp w (consumeApp (CONFIG w)) name lk)) with (Ret r)
    by (rewrite E; reflexivity).
  destruct (gateway w (resultLocation r)) as [doc|]; cbn [out].
  - destruct (truthy (Some doc)); cbn [out]; [ | exact Hin ].
    destruct (truthy (targetHash (Some doc))); cbn [out];
      apply in_app_iff; left; exact Hin.
  - apply in_app_iff; left; exact Hin.
Qed.

(** A run in NEEDS_PROVISION that has passed step 0 provisions anew. *)
Lemma needs_provision_reprovisions w lk a :
  coordinator w lk = NEEDS_PROVISION ->
  wallet w = Resolves a -> setup_passes w = true ->
  reprovisions w lk.
Proof.
  intros Hc Hw Hs. apply needs_provision_iff in Hc. split.
  - intros Hret. rewrite run_res, Hw, Hs in Hret. cbv zeta in Hret.
    rewrite step1_res, Hc, provision_res in Hret.
    destruct (res (executeTargetApp w (consumeApp (CONFIG w)) (secretName w) lk))
      as [r| | |] eqn:E; try discriminate.
    exists r. exact (executeTargetApp_ret _ _ _ _ _ E).
  - intros r Hr.
    assert (Hshow : forall ev,
               In ev [ LogArgs (producer_args w); LogDeal (dealId r);
                       LogResult (resultLocation r) ] ->
               In ev (out (run w lk))).
    { intros ev Hev. apply (run_step1 w lk a _ Hw Hs).
      rewrite branch_provision by assumption.
      apply (provision_shows w (secretName w) lk r ev Hr Hev). }
    split; [ apply Hshow; left; reflexivity | ].
    split; [ apply Hshow; right; left; reflexivity | ].
    split; [ apply Hshow; right; right; left; reflexivity | ].
    split.
    + intros h Hd Hh.
      destruct (provision_renews w (secretName w) lk r h Hr Hd Hh) as [o [E Hin]].
      split; [ | split ].
      * rewrite run_file, Hw, Hs, branch_provision, E by assumption. reflexivity.
      * apply (run_step1 w lk a _ Hw Hs).
        rewrite branch_provision, E by assumption. exact Hin.
      * intros h' Hin'. apply run_expected in Hin'.
        destruct Hin' as [t [Hres ->]].
        rewrite branch_provision, E in Hres by assumption. cbn [res] in Hres.
        injection Hres as <-. unfold or_else, truthy.
        apply String.eqb_neq in Hh. rewrite Hh. reflexivity.
    + intros Hd.
      rewrite run_file, Hw, Hs, branch_provision by assumption.
      apply (provision_keeps w (secretName w) lk r Hr Hd).
Qed.

(** In REUSE the answers of the SDK to the producer execution are never
    consulted. *)
Lemma reuse_ignores_target w t lk :
  reuse (lockState w lk) = true ->
  run (with_target w t) lk = run w lk.
Proof.
  intros Hr.
  assert (E : step1 (with_target w t) (lockState w lk) (secretName w) lk
              = step1 w (lockState w lk) (secretName w) lk).
  { rewrite !branch_reuse by assumption. reflexivity. }
  rewrite (run_unfold (with_target w t)), (run_unfold w).
  change (wallet (with_target w t)) with (wallet w).
  change (setupTargetAppPermissions (with_target w t))
    with (setupTargetAppPermissions w).
  change (lockState (with_target w t) lk) with (lockState w lk).
  change (secretName (with_target w t)) with (secretName w).
  change (consumption (with_target w t)) with (consumption w).
  cbv zeta. rewrite E. reflexivity.
Qed.

(** A run in REUSE that ends normally has printed the recorded digest as
    the expected one. *)
Lemma reuse_expected w lk :
  reuse (lockState w lk) = true -> res (run w lk) = Ret tt ->
  In (LogExpected (field (lockState w lk) "secretHash")) (out (run w lk)).
Proof.
  intros Hr Hret.
  assert (Ht : truthy (field (lockState w lk) "secretHash") = true).
  { unfold reuse in Hr. apply andb_true_iff in Hr. tauto. }
  apply (run_report w lk (LogExpected (field (lockState w lk) "secretHash")) eq_refl).
  pose proof Hret as Hret'. rewrite run_res in Hret'.
  destruct (wallet w) as [a|e]; [ | discriminate ].
  destruct (setup_passes w); [ | discriminate ]. cbv zeta in Hret'.
  rewrite branch_reuse in * by assumption. cbn [res file] in *.
  destruct (res (consumption w lk)) as [c| | |] eqn:Ec; try discriminate.
  exists (field (lockState w lk) "secretHash"), c.
  repeat split; auto.
  left. unfold or_else. rewrite Ht. reflexivity.
Qed.

(** With the gateway linked, a provisioning run records the digest of the
    secret a configured generator made. *)
Lemma linked_provision env w lk :
  provisions w lk = true -> configured env = true ->
  let digest := Some (JStr (Sha256.sha256_hex
                             (TargetApp.secret (TargetApp.generated env)))) in
  exists a o,
    wallet w = Resolves a /\ setup_passes w = true
    /\ step1 (link env w) (lockState (link env w) lk) (secretName (link env w)) lk
       = mkStep (Ret digest) (Holds (lock_record w digest)) o
    /\ In (WroteLock (lock_record w digest)) o.
Proof.
  intros Hp Hc. cbv zeta. unfold provisions in Hp.
  destruct (wallet w) as [a|e] eqn:Hw; [ | discriminate ].
  apply andb_true_iff in Hp. destruct Hp as [Hp Hx].
  apply andb_true_iff in Hp. destruct Hp as [Hs Hr].
  apply negb_true_iff in Hr.
  destruct (res (executeTargetApp w (consumeApp (CONFIG w)) (secretName w) lk))
    as [r| | |] eqn:Er; try discriminate.
  exists a. eexists. split; [ reflexivity | split; [ exact Hs | ] ].
  change (lockState (link env w) lk) with (lockState w lk).
  change (secretName (link env w)) with (secretName w).
  rewrite branch_provision by assumption. rewrite provision_unfold. cbv zeta.
  change (consumeApp (CONFIG (link env w))) with (consumeApp (CONFIG w)).
  pose proof (linked_fetch env w (secretName w) lk) as Hfetch.
  change (executeTargetApp (link env w)) with (executeTargetApp w) in *.
  rewrite Er in *.
  rewrite (Hfetch r eq_refl), result_truthy, targetHash_main, Hc.
  rewrite DigestFacts.sha256_hex_truthy.
  split; [ reflexivity | ].
  apply in_app_iff. right. right. left. reflexivity.
Qed.

End RenewFacts.

(* ------------------------------------------------------------------ *)
(** ** What the result document holds *)

Module DocumentFacts.

Import TargetApp MainFacts.





End DocumentFacts.

(* ================================================================== *)
(** * The specification: the coordinator, the record and the store *)

Import MainFacts ExecFacts RunFacts RecordFacts VerdictFacts MatchFacts.
Import RenewFacts DocumentFacts.

(* ------------------------------------------------------------------ *)
(** ** The coordinator *)

(** C8 -- A record written for another consumer is never re-used:
    [getLockState] answers [null] as it does when there is no file, the
    run is in NEEDS_PROVISION and prints no re-use banner.  Once step 0 is
    passed the run provisions anew: it ends normally only if the producer
    execution completed; when that execution completes the deal was made
    with the generator's arguments and its result asked for, and a digest
    read from the result replaces the foreign record in the lock file and
    is the digest step 3 expects. *)
Theorem C8_foreign_record_not_reused :
  forall (w : World) (data : json),
    field (Some data) "appAddress" <> of_string (consumeApp (CONFIG w)) ->
    lockState w (Holds data) = lockState w NoFile
    /\ coordinator w (Holds data) = NEEDS_PROVISION
    /\ (forall h, ~ In (LogReuse h) (out (run w (Holds data))))
    /\ (forall a, wallet w = Resolves a -> setup_passes w = true ->
        reprovisions w (Holds data)).
Proof.
  intros w data Hne.
  assert (Hl : lockState w (Holds data) = Some JNull).
  { rewrite lockState_holds.
    destruct (strict_eq _ _) eqn:E; [ | reflexivity ].
    apply strict_eq_string in E. contradiction. }
  assert (Hc : coordinator w (Holds data) = NEEDS_PROVISION).
  { unfold coordinator. rewrite Hl. reflexivity. }
  split; [ exact Hl | split; [ exact Hc | split ] ].
  - apply needs_provision_run; assumption.
  - intros a Hw Hs. apply (needs_provision_reprovisions w (Holds data) a); assumption.
Qed.

Lemma C8_witness :
  coordinator (link (Sample.env (Resolves true)) (Sample.world Sample.digest0))
    (Holds Sample.foreign_record) = NEEDS_PROVISION
  /\ file (run (link (Sample.env (Resolves true)) (Sample.world Sample.digest0))
               (Holds Sample.foreign_record))
     = Holds (lock_record (link (Sample.env (Resolves true)) (Sample.world Sample.digest0))
                (Some (JStr Sample.digest0))).
Proof.
  destruct (C8_foreign_record_not_reused
              (link (Sample.env (Resolves true)) (Sample.world Sample.digest0))
              Sample.foreign_record) as [_ [Hc [_ Hre]]].
  { simpl. discriminate. }
  split; [ exact Hc | ].
  destruct (Hre Sample.owner eq_refl eq_refl) as [_ Hr].
  destruct (Hr (mkExecResult "0xdeal1" "0xdeal1-task0" (Some "/ipfs/target")))
    as [_ [_ [_ [Hd _]]]].
  { repeat split; try reflexivity.
    - exists "workerpoolorder", []. reflexivity.
    - exists Sample.completed, (Some (mkTask "COMPLETED")). split; reflexivity. }
  destruct (Hd Sample.digest0) as [Hf _];
    [ vm_compute; reflexivity | discriminate | exact Hf ].
Defined.

(** C10 -- A record for the target consumer whose digest is absent, null
    or empty (or otherwise falsy) is not re-used either: the run is in
    NEEDS_PROVISION, prints no re-use banner and, once step 0 is passed,
    provisions anew: it ends normally only if the producer execution
    completed; when that execution completes the deal was made with the
    generator's arguments and its result asked for, and a digest read from
    the result replaces the record in the lock file and is the digest
    step 3 expects. *)
Theorem C10_record_without_digest_not_reused :
  forall (w : World) (data : json),
    field (Some data) "appAddress" = of_string (consumeApp (CONFIG w)) ->
    truthy (field (Some data) "secretHash") = false ->
    coordinator w (Holds data) = NEEDS_PROVISION
    /\ (forall h, ~ In (LogReuse h) (out (run w (Holds data))))
    /\ (forall a, wallet w = Resolves a -> setup_passes w = true ->
        reprovisions w (Holds data)).
Proof.
  intros w data Ha Hh.
  assert (Hc : coordinator w (Holds data) = NEEDS_PROVISION).
  { destruct (coordinator w (Holds data)) eqn:E; [ reflexivity | ].
    apply reuse_iff in E. destruct E as [d [Hd [_ Ht]]].
    injection Hd as <-. congruence. }
  split; [ exact Hc | split ].
  - apply needs_provision_run; assumption.
  - intros a Hw Hs. apply (needs_provision_reprovisions w (Holds data) a); assumption.
Qed.

Lemma C10_witness :
  coordinator (link (Sample.env (Resolves true)) (Sample.world Sample.digest0))
    (Holds Sample.bare_record) = NEEDS_PROVISION
  /\ file (run (link (Sample.env (Resolves true)) (Sample.world Sample.digest0))
               (Holds Sample.bare_record))
     = Holds (lock_record (link (Sample.env (Resolves true)) (Sample.world Sample.digest0))
                (Some (JStr Sample.digest0))).
Proof.
  destruct (C10_record_without_digest_not_reused
              (link (Sample.env (Resolves true)) (Sample.world Sample.digest0))
              Sample.bare_record eq_refl eq_refl) as [Hc [_ Hre]].
  split; [ exact Hc | ].
  destruct (Hre Sample.owner eq_refl eq_refl) as [_ Hr].
  destruct (Hr (mkExecResult "0xdeal1" "0xdeal1-task0" (Some "/ipfs/target")))
    as [_ [_ [_ [Hd _]]]].
  { repeat split; try reflexivity.
    - exists "workerpoolorder", []. reflexivity.
    - exists Sample.completed, (Some (mkTask "COMPLETED")). split; reflexivity. }
  destruct (Hd Sample.digest0) as [Hf _];
    [ vm_compute; reflexivity | discriminate | exact Hf ].
Defined.

(** C2 -- The coordinator is in REUSE exactly when the lock file holds a
    Fingerprint Record, that is a document with a digest, as every
    document the script writes is, whose consumer identity equals the
    target consumer.  In REUSE the producer execution is skipped entirely:
    the run prints nothing of the provisioning branch and is the same
    whatever the SDK would answer to the producer's calls; the lock file is
    left as it is; and the expected digest of step 3 is the stored one,
    printed by every run that ends normally. *)
Theorem C2_reuse_iff_matching_fingerprint_record :
  forall (w : World) (lk : LockFile),
    (coordinator w lk = REUSE <->
     exists data, lk = Holds data
       /\ fingerprint_record data = true
       /\ field (Some data) "appAddress" = of_string (consumeApp (CONFIG w)))
    /\ (forall (w0 : World) (h : value),
        truthy h = true -> fingerprint_record (lock_record w0 h) = true)
    /\ (forall data, lk = Holds data -> coordinator w lk = REUSE ->
        file (run w lk) = lk
        /\ (forall ev, In ev (out (run w lk)) -> of_provision ev = false)
        /\ (forall t, run (with_target w t) lk = run w lk)
        /\ (forall h, In (LogExpected h) (out (run w lk)) ->
            h = field (Some data) "secretHash")
        /\ (res (run w lk) = Ret tt ->
            In (LogExpected (field (Some data) "secretHash")) (out (run w lk)))).
Proof.
  intros w lk. split; [ | split ].
  - rewrite reuse_iff. unfold fingerprint_record.
    split; intros [data [H1 [H2 H3]]]; exists data; auto.
  - intros w0 h Hh. unfold fingerprint_record.
    rewrite (proj2 (lock_record_fields w0 h Hh)). exact Hh.
  - intros data -> Hc.
    assert (Hr : reuse (lockState w (Holds data)) = true).
    { unfold coordinator in Hc. destruct (reuse _); congruence. }
    apply reuse_iff in Hc. destruct Hc as [d [Hd [Ha Ht]]]. injection Hd as <-.
    destruct (reuse_run w data Ha Ht) as [Hl [_ [Hf [Hev Hex]]]].
    split; [ exact Hf | split; [ exact Hev | split; [ | split; [ exact Hex | ] ] ] ].
    + intros t. apply reuse_ignores_target. exact Hr.
    + intros Hret. pose proof (reuse_expected w (Holds data) Hr Hret) as H.
      rewrite Hl in H. exact H.
Qed.

(* ------------------------------------------------------------------ *)
(** ** The record and the push *)

(** Against C1: the store rejects the push, and the digest of the secret
    it never received is recorded all the same. *)
Lemma C1_digest_recorded_without_push :
  ~ recorded_only_if_pushed (Sample.env (Rejects (Js.error "network timeout")))
      (Sample.world Sample.digest0) NoFile.
Proof.
  intros H.
  destruct (H (Sample.record Sample.digest0)) as [address [value [Hin _]]].
  - apply (nth_error_In _ 9). vm_compute. reflexivity.
  - vm_compute in Hin. exact Hin.
Qed.

(** C1 -- With the generator's document served by the result gateway, a
    Fingerprint Record is written only in NEEDS_PROVISION, only by a
    configured generator run, and its digest is the hex SHA-256 of the
    secret that run generated.  And it is written, and left in the lock
    file, by every run that obtains the result of a configured generator,
    whether or not the store accepted the secret: also when the store
    holds nothing. *)
Theorem C1_recorded_digest_is_generated_digest :
  forall (env : TargetApp.Env) (w : World) (lk : LockFile),
    let digest := Some (JStr (Sha256.sha256_hex
                               (TargetApp.secret (TargetApp.generated env)))) in
    (forall data, In (WroteLock data) (out (run (link env w) lk)) ->
        coordinator w lk = NEEDS_PROVISION
        /\ configured env = true
        /\ data = lock_record w digest)
    /\ (provisions w lk = true -> configured env = true ->
        In (WroteLock (lock_record w digest)) (out (run (link env w) lk))
        /\ file (run (link env w) lk) = Holds (lock_record w digest))
    /\ (provisions w lk = true -> configured env = true ->
        (forall addr, TargetApp.pushAppSecret (TargetApp.sms env) addr
                        (TargetApp.secret (TargetApp.generated env))
                      <> Resolves true) ->
        TargetApp.stored (TargetApp.main env) = []
        /\ In (WroteLock (lock_record w digest)) (out (run (link env w) lk))
        /\ file (run (link env w) lk) = Holds (lock_record w digest)).
Proof.
  intros env w lk digest.
  assert (Hwritten : provisions w lk = true -> configured env = true ->
                     In (WroteLock (lock_record w digest)) (out (run (link env w) lk))
                     /\ file (run (link env w) lk) = Holds (lock_record w digest)).
  { intros Hp Hc.
    destruct (linked_provision env w lk Hp Hc) as [a [o [Hw [Hs [E Hin]]]]].
    split.
    - apply (run_step1 (link env w) lk a _ Hw Hs). rewrite E. exact Hin.
    - rewrite linked_file, Hp, Hc. reflexivity. }
  split; [ | split; [ exact Hwritten | ] ].
  - intros data Hin.
    apply run_writes in Hin. destruct Hin as [Er Hin].
    change (lockState (link env w) lk) with (lockState w lk) in Er.
    change (secretName (link env w)) with (secretName w) in Hin.
    apply provision_writes in Hin.
    destruct Hin as [r [doc [Hr [Hg [_ [Ht ->]]]]]].
    change (consumeApp (CONFIG (link env w))) with (consumeApp (CONFIG w)) in Hr.
    rewrite (linked_fetch _ _ _ _ _ Hr) in Hg. injection Hg as <-.
    rewrite targetHash_main in *.
    split; [ apply needs_provision_iff; assumption | ].
    destruct (configured env); [ | discriminate ].
    split; reflexivity.
  - intros Hp Hc Hpush.
    split; [ | apply Hwritten; assumption ].
    destruct (TargetFacts.main_configured env Hc) as [p [_ [Hfail Hok]]].
    apply Hfail. destruct (TargetApp.success p); [ | reflexivity ].
    destruct (Hok eq_refl) as [addr Ha]. elim (Hpush addr Ha).
Qed.

Lemma C1_witness :
  TargetApp.stored (TargetApp.main (Sample.env (Rejects (Js.error "network timeout")))) = []
  /\ In (WroteLock
           (lock_record (Sample.world Sample.digest0)
              (Some (JStr (Sha256.sha256_hex
                             (TargetApp.secret
                                (TargetApp.generated
                                   (Sample.env (Rejects (Js.error "network timeout")))))))))) 
        (out (run (link (Sample.env (Rejects (Js.error "network timeout")))
                        (Sample.world Sample.digest0)) NoFile))
  /\ file (run (link (Sample.env (Rejects (Js.error "network timeout")))
                     (Sample.world Sample.digest0)) NoFile)
     = Holds (lock_record (Sample.world Sample.digest0)
                (Some (JStr (Sha256.sha256_hex
                               (TargetApp.secret
                                  (TargetApp.generated
                                     (Sample.env (Rejects (Js.error "network timeout"))))))))).
Proof.
  apply (proj2 (proj2 (C1_recorded_digest_is_generated_digest
                         (Sample.env (Rejects (Js.error "network timeout")))
                         (Sample.world Sample.digest0) NoFile))).
  - reflexivity.
  - reflexivity.
  - intros addr. discriminate.
Defined.

(* ------------------------------------------------------------------ *)
(** ** Failures of a push *)




(* ------------------------------------------------------------------ *)
(** ** What is persisted *)

(** With a store that fails with a network error the document does not
    contain the value. *)
Example network_error_keeps_value_out :
  value_kept_out_of_result (Sample.env (Rejects (Js.error "network timeout"))).
Proof. vm_compute. reflexivity. Qed.



(* ================================================================== *)
(** * The properties *)

Import StringFacts RandomFacts UuidFacts EncFacts SecretFacts ArgFacts ArgsFlow.
Import MainFacts ConfigFacts IncludesFacts WaitFacts FrameFacts ExecFacts RunFacts.
Import RecordFacts VerdictFacts MatchFacts.

(* ------------------------------------------------------------------ *)
(** ** The generator: random strings, identifiers and secret formats *)

(** X1 -- For each of the named character sets, [generateRandomString]
    returns exactly [length] characters, every one of them taken from that
    set, and uses up exactly [length] bytes of the random source. *)
Theorem X1_random_string_length_and_alphabet :
  forall (len : nat) (name cs : string) (src : TargetApp.Entropy),
    TargetApp.charset_named name TargetApp.charsets = Some cs ->
    String.length (fst (TargetApp.generateRandomString len name src)) = len
    /\ (forall c, In c (chars (fst (TargetApp.generateRandomString len name src))) ->
        In c (chars cs))
    /\ (forall i, snd (TargetApp.generateRandomString len name src) i = src (len + i)%nat).
Proof.
  intros len name cs src H.
  destruct (generateRandomString_drawn len name cs src H) as [Hl [Hc Hr]].
  split; [ exact Hl | split; [ exact Hc | ] ].
  intros i. rewrite Hr. reflexivity.
Qed.

Lemma X1_witness :
  String.length (fst (TargetApp.generateRandomString 6 "numeric" Sample.count_entropy)) = 6%nat
  /\ (forall c, In c (chars (fst (TargetApp.generateRandomString 6 "numeric"
                                     Sample.count_entropy))) ->
      In c (chars "0123456789"))
  /\ (forall i, snd (TargetApp.generateRandomString 6 "numeric" Sample.count_entropy) i
                = Sample.count_entropy (6 + i)%nat).
Proof.
  apply (X1_random_string_length_and_alphabet 6 "numeric" "0123456789"
           Sample.count_entropy).
  reflexivity.
Defined.

(** X2 -- Whatever the random source, [generateUUID] returns a version-4
    identifier: 36 characters in groups of 8, 4, 4, 4 and 12 hexadecimal
    digits (lower case) separated by hyphens, the third group starting
    with 4 and the fourth with 8, 9, a or b; it uses up 16 bytes. *)
Theorem X2_uuid_is_version_4 :
  forall src : TargetApp.Entropy,
    (exists a b c d e : string,
        fst (TargetApp.generateUUID src)
        = (a ++ "-" ++ b ++ "-4" ++ c ++ "-" ++ d ++ "-" ++ e)%string
        /\ String.length a = 8%nat /\ String.length b = 4%nat
        /\ String.length c = 3%nat /\ String.length d = 4%nat
        /\ String.length e = 12%nat
        /\ (exists v, get 0 d = Some v
                      /\ existsb (Ascii.eqb v) ["8"; "9"; "a"; "b"]%char = true)
        /\ forallb is_hexdigit (chars (a ++ b ++ c ++ d ++ e)%string) = true)
    /\ String.length (fst (TargetApp.generateUUID src)) = 36%nat
    /\ (forall i, snd (TargetApp.generateUUID src) i = src (16 + i)%nat).
Proof.
  intros src. split; [ apply generateUUID_shape | split ].
  - destruct (generateUUID_shape src) as [a [b [c [d [e [-> [Ha [Hb [Hc [Hd [He _]]]]]]]]]]].
    rewrite !DigestFacts.length_append, Ha, Hb, Hc, Hd, He. reflexivity.
  - intros i. reflexivity.
Qed.

(** X3 -- An api-key secret (the type is matched without regard to case)
    is four lower-case letters, an underscore, and 32 alphanumeric
    characters; the key length agrees with the [keyLength] of the
    metadata. *)
Theorem X3_api_key_format :
  forall (t : string) (clock : TargetApp.Clock) (src : TargetApp.Entropy),
    Str.toLowerCase t = "api-key" ->
    exists prefix key : string,
      TargetApp.secret (TargetApp.generateSecret t clock src)
      = (prefix ++ "_" ++ key)%string
      /\ String.length prefix = 4%nat
      /\ forallb is_lower (chars prefix) = true
      /\ String.length key = 32%nat
      /\ forallb is_alphanumeric (chars key) = true
      /\ field (Some (TargetApp.metadata (TargetApp.generateSecret t clock src)))
               "keyLength"
         = Some (JInt (Z.of_nat (String.length key))).
Proof.
  intros t clock src Ht.
  rewrite generateSecret_secret, TargetFacts.generateSecret_metadata.
  unfold TargetApp.secretValue_of. rewrite Ht. cbn [String.eqb Ascii.eqb Bool.eqb].
  destruct (generateRandomString_drawn 4 "alpha" _ src eq_refl) as [Hl [Hc _]].
  destruct (TargetApp.generateRandomString 4 "alpha" src) as [prefix src1].
  destruct (generateRandomString_drawn 32 "alphanumeric" _ src1 eq_refl) as [Hl' [Hc' _]].
  destruct (TargetApp.generateRandomString 32 "alphanumeric" src1) as [key src2].
  cbn [fst snd] in *.
  exists (Str.toLowerCase prefix), key.
  split; [ reflexivity | ].
  split; [ rewrite toLowerCase_length; exact Hl | ].
  split.
  { rewrite toLowerCase_chars, forallb_forall. intros c Hin.
    apply in_map_iff in Hin. destruct Hin as [c0 [<- Hin]].
    apply alpha_lower. auto. }
  split; [ exact Hl' | ].
  split.
  { rewrite forallb_forall. intros c Hin. apply alphanumeric_chars. auto. }
  rewrite Hl'. reflexivity.
Qed.

Lemma X3_witness :
  exists prefix key : string,
    TargetApp.secret (TargetApp.generateSecret "API-Key" Sample.clock0 Sample.count_entropy)
    = (prefix ++ "_" ++ key)%string
    /\ String.length prefix = 4%nat
    /\ forallb is_lower (chars prefix) = true
    /\ String.length key = 32%nat
    /\ forallb is_alphanumeric (chars key) = true
    /\ field (Some (TargetApp.metadata
                      (TargetApp.generateSecret "API-Key" Sample.clock0 Sample.count_entropy)))
             "keyLength"
       = Some (JInt (Z.of_nat (String.length key))).
Proof.
  apply (X3_api_key_format "API-Key" Sample.clock0 Sample.count_entropy).
  reflexivity.
Defined.

(** X4 -- The other secret formats, as generated: a password is 24
    characters of the alphanumericSpecial set; a uuid is the version-4
    identifier; hex is 64 hexadecimal digits (256 bits); a private key is
    0x followed by 64 hexadecimal digits; a token is the fixed JWT header,
    a payload and a 43-character signature, separated by dots; any other
    ASCII type (random included) gives 44 characters of base64. *)
Theorem X4_secret_formats :
  forall (t : string) (clock : TargetApp.Clock) (src : TargetApp.Entropy),
    let v := TargetApp.secret (TargetApp.generateSecret t clock src) in
    (Str.toLowerCase t = "password" ->
     String.length v = 24%nat
     /\ exists cs, TargetApp.charset_named "alphanumericSpecial" TargetApp.charsets = Some cs
                   /\ forall c, In c (chars v) -> In c (chars cs))
    /\ (Str.toLowerCase t = "uuid" -> v = fst (TargetApp.generateUUID src))
    /\ (Str.toLowerCase t = "hex" ->
        String.length v = 64%nat /\ forallb is_hexdigit (chars v) = true)
    /\ (Str.toLowerCase t = "private-key" ->
        exists h, v = ("0x" ++ h)%string /\ String.length h = 64%nat
                  /\ forallb is_hexdigit (chars h) = true)
    /\ (Str.toLowerCase t = "token" ->
        exists payload signature : string,
          v = ("eyJhbGciOiJIUzI1NiIsInR5cCI6IkpXVCJ9" ++ "." ++ payload ++ "."
               ++ signature)%string
          /\ String.length signature = 43%nat)
    /\ (ascii_only t = true -> recognised t = false -> String.length v = 44%nat).
Proof.
  intros t clock src v. subst v. rewrite generateSecret_secret.
  repeat split.
  - revert H. unfold TargetApp.secretValue_of. intros ->.
    cbn [String.eqb Ascii.eqb Bool.eqb].
    destruct (generateRandomString_drawn 24 "alphanumericSpecial" _ src eq_refl)
      as [Hl _].
    destruct (TargetApp.generateRandomString 24 "alphanumericSpecial" src) as [pw s1].
    exact Hl.
  - revert H. unfold TargetApp.secretValue_of. intros ->.
    cbn [String.eqb Ascii.eqb Bool.eqb].
    eexists. split; [ reflexivity | ].
    destruct (generateRandomString_drawn 24 "alphanumericSpecial" _ src eq_refl)
      as [_ [Hc _]].
    destruct (TargetApp.generateRandomString 24 "alphanumericSpecial" src) as [pw s1].
    exact Hc.
  - intros Ht. unfold TargetApp.secretValue_of. rewrite Ht.
    cbn [String.eqb Ascii.eqb Bool.eqb].
    destruct (TargetApp.generateUUID src) as [u s1]. reflexivity.
  - revert H. unfold TargetApp.secretValue_of. intros ->.
    cbn [String.eqb Ascii.eqb Bool.eqb].
    apply (hex_drawn 32 src).
  - revert H. unfold TargetApp.secretValue_of. intros ->.
    cbn [String.eqb Ascii.eqb Bool.eqb].
    apply (hex_drawn 32 src).
  - intros Ht. unfold TargetApp.secretValue_of. rewrite Ht.
    cbn [String.eqb Ascii.eqb Bool.eqb].
    exists (Enc.hex (fst (TargetApp.randomBytes 32 src))).
    split; [ reflexivity | apply (hex_drawn 32 src) ].
  - intros Ht. unfold TargetApp.secretValue_of. rewrite Ht.
    cbn [String.eqb Ascii.eqb Bool.eqb].
    destruct (TargetApp.generateUUID src) as [jti s1].
    exists (Enc.base64url
              (Str.bytes (TargetApp.jwt_payload (TargetApp.now_ms clock / 1000) jti))),
           (Enc.base64url (fst (TargetApp.randomBytes 32 s1))).
    split.
    + rewrite jwt_header_text. reflexivity.
    + unfold Enc.base64url.
      rewrite (b64_text_length Enc.b64_url false eq_refl), randomBytes_length;
        [ reflexivity | apply randomBytes_range ].
  - intros _ Hr. rewrite (unrecognised_value _ _ _ Hr). cbn [fst].
    unfold Enc.base64.
    rewrite (b64_text_length Enc.b64_std true eq_refl), randomBytes_length;
      [ reflexivity | apply randomBytes_range ].
Qed.

(** X5 -- The secret type selects the format without regard to case: two
    ASCII spellings that agree once lower-cased give the same value, digest
    and metadata; the [type] of the result is the spelling as given. *)
Theorem X5_type_matched_without_case :
  forall (t t' : string) (clock : TargetApp.Clock) (src : TargetApp.Entropy),
    ascii_only t = true -> ascii_only t' = true ->
    Str.toLowerCase t = Str.toLowerCase t' ->
    TargetApp.secret (TargetApp.generateSecret t clock src)
    = TargetApp.secret (TargetApp.generateSecret t' clock src)
    /\ TargetApp.hash (TargetApp.generateSecret t clock src)
       = TargetApp.hash (TargetApp.generateSecret t' clock src)
    /\ TargetApp.metadata (TargetApp.generateSecret t clock src)
       = TargetApp.metadata (TargetApp.generateSecret t' clock src)
    /\ TargetApp.type (TargetApp.generateSecret t clock src) = t.
Proof.
  intros t t' clock src _ _ H.
  rewrite !TargetFacts.generateSecret_hash, !generateSecret_secret,
    !TargetFacts.generateSecret_metadata, TargetFacts.generateSecret_type,
    (secretValue_of_case t t' clock src H).
  repeat split.
Qed.

Lemma X5_witness :
  TargetApp.secret (TargetApp.generateSecret "Private-KEY" Sample.clock0 Sample.count_entropy)
  = TargetApp.secret (TargetApp.generateSecret "private-key" Sample.clock0 Sample.count_entropy)
  /\ TargetApp.hash (TargetApp.generateSecret "Private-KEY" Sample.clock0 Sample.count_entropy)
     = TargetApp.hash (TargetApp.generateSecret "private-key" Sample.clock0 Sample.count_entropy)
  /\ TargetApp.metadata (TargetApp.generateSecret "Private-KEY" Sample.clock0 Sample.count_entropy)
     = TargetApp.metadata (TargetApp.generateSecret "private-key" Sample.clock0 Sample.count_entropy)
  /\ TargetApp.type (TargetApp.generateSecret "Private-KEY" Sample.clock0 Sample.count_entropy)
     = "Private-KEY".
Proof.
  apply (X5_type_matched_without_case "Private-KEY" "private-key"
           Sample.clock0 Sample.count_entropy); reflexivity.
Defined.

(** X6 -- No secret draws more than 48 bytes of the random source: two
    sources that agree on their first 48 bytes give the same secret,
    digest and metadata, for every type. *)
Theorem X6_secret_draws_at_most_48_bytes :
  forall (t : string) (clock : TargetApp.Clock) (src src' : TargetApp.Entropy),
    (forall i, (i < 48)%nat -> src i = src' i) ->
    TargetApp.generateSecret t clock src = TargetApp.generateSecret t clock src'.
Proof.
  intros t clock src src' H. unfold TargetApp.generateSecret.
  rewrite (secretValue_of_ext t clock src src' H). reflexivity.
Qed.

Lemma X6_witness :
  TargetApp.generateSecret "token" Sample.clock0 Sample.zero_entropy
  = TargetApp.generateSecret "token" Sample.clock0
      (fun i => if (i <? 48)%nat then x00%byte else xff%byte).
Proof.
  apply (X6_secret_draws_at_most_48_bytes "token" Sample.clock0 Sample.zero_entropy
           (fun i => if (i <? 48)%nat then x00%byte else xff%byte)).
  intros i Hi. apply Nat.ltb_lt in Hi. rewrite Hi. reflexivity.
Defined.

(* ------------------------------------------------------------------ *)
(** ** The generator: arguments *)

(** X7 -- Whatever the arguments, [parseArgs] returns a non-empty secret
    name and a non-empty secret type (a missing or empty part falls back
    to a fresh name and to the type random), and a consumer address is
    returned only if it starts with 0x; blank arguments give the fresh
    name, the type random and no address. *)
Theorem X7_parseArgs_never_empty :
  forall (args : list string) (clock : TargetApp.Clock),
    let a := TargetApp.parseArgs args clock in
    TargetApp.secretName a <> ""
    /\ TargetApp.secretType a <> ""
    /\ (forall addr, TargetApp.consumeAppAddress a = Some addr ->
        Str.startsWith addr "0x" = true)
    /\ (Str.trim (Str.join " " args) = "" ->
        a = {| TargetApp.consumeAppAddress := None;
               TargetApp.secretName := ("secret-" ++ Str.of_Z (TargetApp.now_ms clock))%string;
               TargetApp.secretType := "random" |}).
Proof.
  intros args clock a. subst a. unfold TargetApp.parseArgs.
  assert (Hf : ("secret-" ++ Str.of_Z (TargetApp.now_ms clock))%string <> "")
    by discriminate.
  assert (Hr : "random" <> "") by discriminate.
  destruct (Str.trim (Str.join " " args) =? "")%string eqn:E.
  - cbn. repeat split; try discriminate.
  - set (parts := map Str.trim (Str.split_comma (Str.trim (Str.join " " args)))).
    destruct (Str.startsWith (TargetApp.part_or parts 0 "") "0x") eqn:Es;
      cbn [TargetApp.secretName TargetApp.secretType TargetApp.consumeAppAddress].
    + split; [ apply part_or_nonempty, Hf | ].
      split; [ apply part_or_nonempty, Hr | ].
      split.
      * intros addr Ha.
        unfold TargetApp.part_or in Es. rewrite Ha in Es.
        destruct (addr =? "")%string; [ discriminate | exact Es ].
      * intros H. rewrite H in E. discriminate.
    + split; [ apply part_or_nonempty, Hf | ].
      split; [ apply part_or_nonempty, Hr | ].
      split; [ discriminate | ].
      intros H. rewrite H in E. discriminate.
Qed.

(** X8 -- The argument string the orchestration script hands to the
    producer is decoded by [parseArgs] as the script means it when the
    consumer address starts with 0x: address, secret name, and the type
    api-key.  When the configured address does not start with 0x (or is
    not configured, so that the text undefined stands in its place), the
    generator takes it for the secret name and the secret name for the
    type. *)
Theorem X8_script_arguments_decoded :
  forall (w : FullFlow.World) (c : option string) (name : string)
         (lk : FullFlow.LockFile) (args : string) (clock : TargetApp.Clock),
    In (FullFlow.LogArgs args) (FullFlow.out (FullFlow.executeTargetApp w c name lk)) ->
    plain (FullFlow.shown c) = true -> FullFlow.shown c <> "" ->
    plain name = true -> name <> "" ->
    TargetApp.parseArgs [args] clock
    = if Str.startsWith (FullFlow.shown c) "0x"
      then {| TargetApp.consumeAppAddress := Some (FullFlow.shown c);
              TargetApp.secretName := name;
              TargetApp.secretType := "api-key" |}
      else {| TargetApp.consumeAppAddress := None;
              TargetApp.secretName := FullFlow.shown c;
              TargetApp.secretType := name |}.
Proof.
  intros w c name lk args clock Hin Hp Hc Hn Hn0.
  rewrite (executeTargetApp_args w c name lk args Hin).
  apply parseArgs_triple; assumption.
Qed.

Lemma X8_witness :
  TargetApp.parseArgs
    [(Sample.consumer ++ ",app-secret-test-1700000000123,api-key")%string] Sample.clock0
  = if Str.startsWith (FullFlow.shown (Some Sample.consumer)) "0x"
    then {| TargetApp.consumeAppAddress := Some (FullFlow.shown (Some Sample.consumer));
            TargetApp.secretName := "app-secret-test-1700000000123";
            TargetApp.secretType := "api-key" |}
    else {| TargetApp.consumeAppAddress := None;
            TargetApp.secretName := FullFlow.shown (Some Sample.consumer);
            TargetApp.secretType := "app-secret-test-1700000000123" |}.
Proof.
  apply (X8_script_arguments_decoded (Sample.world Sample.digest0) (Some Sample.consumer)
           "app-secret-test-1700000000123" FullFlow.NoFile
           (Sample.consumer ++ ",app-secret-test-1700000000123,api-key")%string
           Sample.clock0).
  - apply (nth_error_In _ 1). vm_compute. reflexivity.
  - reflexivity.
  - discriminate.
  - reflexivity.
  - discriminate.
Defined.

(* ------------------------------------------------------------------ *)
(** ** The generator: configuration, store and report *)

(** X9 -- The generator takes itself to be configured exactly when the
    App Secret parses to a JSON object with a truthy
    [DEDICATED_PRIVATE_KEY].  Otherwise (no App Secret, one that does not
    parse, the JSON [null], a value that is not an object, or a missing or
    falsy key) it stores nothing and writes the fixed error document,
    which carries no digest. *)
Theorem X9_generator_needs_private_key :
  forall env : TargetApp.Env,
    (configured env = true <->
     exists fields key,
       TargetApp.IEXEC_APP_DEVELOPER_SECRET env = TargetApp.Parses (JObj fields)
       /\ lookup "DEDICATED_PRIVATE_KEY" fields = Some key
       /\ truthy (Some key) = true)
    /\ (configured env = false ->
        TargetApp.main env = TargetApp.mkRun TargetApp.not_configured []
        /\ field (Some (TargetApp.result_json (TargetApp.main env))) "success"
           = Some (JBool false)
        /\ targetHash (Some (TargetApp.result_json (TargetApp.main env))) = None).
Proof.
  intros env. split; [ apply configured_iff | ].
  intros H. rewrite (TargetFacts.main_unconfigured env H).
  repeat split.
Qed.

(** X10 -- The generator's result document says [success: true] exactly
    when the secret store took the secret.  The store then holds one
    secret: the generated value, for the address of the arguments (or
    else of [CONSUME_APP_ADDRESS]), which passed the address check; and
    the digest the document carries is the SHA-256 of that stored value. *)
Theorem X10_store_agrees_with_report :
  forall env : TargetApp.Env,
    (field (Some (TargetApp.result_json (TargetApp.main env))) "success"
     = Some (JBool true)
     <-> TargetApp.stored (TargetApp.main env) <> [])
    /\ (forall addr v,
        In (addr, v) (TargetApp.stored (TargetApp.main env)) ->
        TargetApp.stored (TargetApp.main env) = [(addr, v)]
        /\ v = TargetApp.secret (TargetApp.generated env)
        /\ targetAddress env = Some addr /\ addr <> ""
        /\ TargetApp.isAddress (TargetApp.sms env) addr = true
        /\ configured env = true
        /\ TargetApp.pushAppSecret (TargetApp.sms env) addr v = Resolves true
        /\ FullFlow.targetHash (Some (TargetApp.result_json (TargetApp.main env)))
           = Some (JStr (Sha256.sha256_hex v))).
Proof.
  intros env. destruct (configured env) eqn:Ec.
  - pose proof (targetHash_main env) as Hh. rewrite Ec in Hh.
    destruct (configured_inv env Ec) as [cfg [Hc Hk]].
    revert Hh. rewrite (main_push env cfg Hc Hk). cbv zeta.
    cbn [TargetApp.result_json TargetApp.stored]. intros Hh.
    destruct (TargetApp.str_truthy (targetAddress env)) eqn:Et.
    + pose proof (pushSecretToSMS_cases (TargetApp.sms env) (targetAddress env)
                    (TargetApp.secretName
                       (TargetApp.parseArgs (TargetApp.argv env) (TargetApp.clock env)))
                    (TargetApp.secret (TargetApp.generated env)) cfg) as Hp.
      cbv zeta in Hp.
      destruct (TargetApp.pushSecretToSMS _ _ _ _ _) as [p held].
      cbn [fst snd] in *. rewrite output_success.
      destruct Hp as [[Hs [addr [Ha [Hne [Hi [Hpush Hheld]]]]]]|[Hs Hheld]];
        rewrite Hs, Hheld.
      * split; [ split; [ discriminate | reflexivity ] | ].
        intros addr' v [H|[]]. injection H as <- <-.
        repeat split; auto.
      * split; [ split; [ discriminate | congruence ] | ].
        intros addr' v [].
    + cbn [fst snd]. rewrite output_success. cbn [TargetApp.success].
      split; [ split; [ discriminate | congruence ] | ].
      intros addr' v [].
  - rewrite (TargetFacts.main_unconfigured env Ec).
    cbn [TargetApp.result_json TargetApp.stored].
    split; [ split; [ discriminate | congruence ] | ].
    intros addr' v [].
Qed.

(** X11 -- A configured generator reports why nothing was stored: no
    address at all, an address that fails the address check, the store
    answering false, or the error message of the first SDK call that
    failed ([null] when that error has no message).  In each of these
    cases [success] is false; when every call succeeds it is true and the
    reported error is [null]. *)
Theorem X11_push_failure_reasons :
  forall env : TargetApp.Env,
    configured env = true ->
    let doc := TargetApp.result_json (TargetApp.main env) in
    let sdk := TargetApp.sms env in
    (TargetApp.str_truthy (targetAddress env) = false ->
     reported_error doc = Some (JStr "No Consume App Address provided")
     /\ field (Some doc) "success" = Some (JBool false))
    /\ (forall addr, targetAddress env = Some addr -> addr <> "" ->
        TargetApp.isAddress sdk addr = false ->
        reported_error doc
        = Some (JStr "Invalid or missing Consume App Address. Cannot push App Secret.")
        /\ field (Some doc) "success" = Some (JBool false))
    /\ (forall addr, targetAddress env = Some addr -> addr <> "" ->
        TargetApp.isAddress sdk addr = true ->
        match and_then (TargetApp.getSigner sdk) (fun _ =>
              and_then (TargetApp.getAddress sdk) (fun _ =>
                TargetApp.pushAppSecret sdk addr
                  (TargetApp.secret (TargetApp.generated env))))
        with
        | Resolves true =>
            reported_error doc = Some JNull
            /\ field (Some doc) "success" = Some (JBool true)
        | Resolves false =>
            reported_error doc
            = Some (JStr "Failed to push App Secret (SDK returned false)")
            /\ field (Some doc) "success" = Some (JBool false)
        | Rejects e =>
            reported_error doc = or_else (of_string (message e)) (Some JNull)
            /\ field (Some doc) "success" = Some (JBool false)
        end).
Proof.
  intros env Ec doc sdk. subst doc sdk.
  destruct (configured_inv env Ec) as [cfg [Hc Hk]].
  rewrite (main_push env cfg Hc Hk). cbv zeta. cbn [TargetApp.result_json].
  split; [ | split ].
  - intros ->. cbn [fst]. rewrite output_error, output_success. split; reflexivity.
  - intros addr Ha Hne Hi. rewrite Ha. cbn [TargetApp.str_truthy].
    apply String.eqb_neq in Hne. rewrite Hne. cbn [negb].
    unfold TargetApp.pushSecretToSMS. rewrite Hne, Hi. cbn [negb andb fst].
    rewrite output_error, output_success. split; reflexivity.
  - intros addr Ha Hne Hi. rewrite Ha. cbn [TargetApp.str_truthy].
    apply String.eqb_neq in Hne. rewrite Hne. cbn [negb].
    unfold TargetApp.pushSecretToSMS, and_then. rewrite Hne, Hi. cbn [negb andb].
    destruct (TargetApp.getSigner (TargetApp.sms env)) as [[]|e];
      [ | cbn [fst]; rewrite output_error, output_success; split; reflexivity ].
    destruct (TargetApp.getAddress (TargetApp.sms env)) as [wa|e];
      [ | cbn [fst]; rewrite output_error, output_success; split; reflexivity ].
    destruct (TargetApp.pushAppSecret (TargetApp.sms env) addr _) as [[|]|e];
      cbn [fst]; rewrite output_error, output_success; split; reflexivity.
Qed.

Lemma X11_witness :
  let doc := TargetApp.result_json
               (TargetApp.main (Sample.env (Rejects (Js.error "network timeout")))) in
  let sdk := TargetApp.sms (Sample.env (Rejects (Js.error "network timeout"))) in
  (TargetApp.str_truthy (targetAddress (Sample.env (Rejects (Js.error "network timeout"))))
   = false ->
   reported_error doc = Some (JStr "No Consume App Address provided")
   /\ field (Some doc) "success" = Some (JBool false))
  /\ (forall addr,
      targetAddress (Sample.env (Rejects (Js.error "network timeout"))) = Some addr ->
      addr <> "" ->
      TargetApp.isAddress sdk addr = false ->
      reported_error doc
      = Some (JStr "Invalid or missing Consume App Address. Cannot push App Secret.")
      /\ field (Some doc) "success" = Some (JBool false))
  /\ (forall addr,
      targetAddress (Sample.env (Rejects (Js.error "network timeout"))) = Some addr ->
      addr <> "" ->
      TargetApp.isAddress sdk addr = true ->
      match and_then (TargetApp.getSigner sdk) (fun _ =>
            and_then (TargetApp.getAddress sdk) (fun _ =>
              TargetApp.pushAppSecret sdk addr
                (TargetApp.secret
                   (TargetApp.generated (Sample.env (Rejects (Js.error "network timeout")))))))
      with
      | Resolves true =>
          reported_error doc = Some JNull
          /\ field (Some doc) "success" = Some (JBool true)
      | Resolves false =>
          reported_error doc
          = Some (JStr "Failed to push App Secret (SDK returned false)")
          /\ field (Some doc) "success" = Some (JBool false)
      | Rejects e =>
          reported_error doc = or_else (of_string (message e)) (Some JNull)
          /\ field (Some doc) "success" = Some (JBool false)
      end).
Proof.
  apply (X11_push_failure_reasons (Sample.env (Rejects (Js.error "network timeout")))).
  reflexivity.
Defined.

(* ------------------------------------------------------------------ *)
(** ** The orchestration script: waiting and executing *)

(** X12 -- The wait is decided by the first COMPLETED, FAILED or TIMEDOUT
    status of the feed: it returns on COMPLETED and throws on FAILED or
    TIMEDOUT, and whatever the feed delivers after that status, and however
    it ends, does not change the result; the lock file is not touched. *)
Theorem X12_first_terminal_status_decides :
  forall (pre post : list Notice) (n : Notice) (e : FeedEnd)
         (taskId : string) (lk : LockFile),
    Forall (fun m => settles m = Pending) pre -> settles n <> Pending ->
    res (waitForTask (Resolves (mkFeed (pre ++ n :: post) e)) taskId lk)
    = match settles n with
      | Fulfilled t => Ret t
      | Rejected err => Throw err
      | Pending => Hang
      end
    /\ file (waitForTask (Resolves (mkFeed (pre ++ n :: post) e)) taskId lk) = lk.
Proof.
  intros pre post n e taskId lk Hpre Hn.
  unfold waitForTask, bind, observe. cbn [await ret emit notices ending].
  rewrite (subscribe_first pre n post Hpre Hn).
  destruct (settles n) as [|t|err]; [ congruence | | ]; split; reflexivity.
Qed.

Lemma X12_witness :
  res (waitForTask
         (Resolves (mkFeed ([mkNotice "TASK_UPDATED" (Some (mkTask "ACTIVE"))]
                            ++ mkNotice "TASK_FAILED" (Some (mkTask "FAILED"))
                            :: [mkNotice "TASK_COMPLETED" (Some (mkTask "COMPLETED"))])
                           Completed))
         "0xdeal1-task0" NoFile)
  = match settles (mkNotice "TASK_FAILED" (Some (mkTask "FAILED"))) with
    | Fulfilled t => Ret t
    | Rejected err => Throw err
    | Pending => Hang
    end
  /\ file (waitForTask
             (Resolves (mkFeed ([mkNotice "TASK_UPDATED" (Some (mkTask "ACTIVE"))]
                                ++ mkNotice "TASK_FAILED" (Some (mkTask "FAILED"))
                                :: [mkNotice "TASK_COMPLETED" (Some (mkTask "COMPLETED"))])
                               Completed))
             "0xdeal1-task0" NoFile)
     = NoFile.
Proof.
  apply (X12_first_terminal_status_decides
           [mkNotice "TASK_UPDATED" (Some (mkTask "ACTIVE"))]
           [mkNotice "TASK_COMPLETED" (Some (mkTask "COMPLETED"))]
           (mkNotice "TASK_FAILED" (Some (mkTask "FAILED"))) Completed
           "0xdeal1-task0" NoFile).
  - repeat constructor.
  - discriminate.
Defined.

(** X13 -- A remote execution, of the producer or of the consumer, returns
    exactly when every SDK call resolved, a workerpool order was on offer
    and the status feed settled the wait as completed; the result then
    carries the deal id, the task id and the result location the SDK
    answered. *)
Theorem X13_execution_returns_iff_completes :
  forall (w : World) (c : option string) (name : string) (lk : LockFile)
         (r : ExecResult),
    (res (executeTargetApp w c name lk) = Ret r <-> completes (target w) r)
    /\ (res (executeConsumeApp w lk) = Ret r <-> completes (consume w) r).
Proof.
  intros w c name lk r. split; split.
  - apply executeTargetApp_ret.
  - apply completes_target.
  - apply executeConsumeApp_ret.
  - apply completes_consume.
Qed.

(** X14 -- Step 0, the two remote executions and the fetching of a result
    neither read nor write the lock file, and never end the process
    themselves: started with another lock file they return the same
    result and print the same events, and leave that file as it is. *)
Theorem X14_remote_stages_ignore_lock_file :
  forall (w : World) (c : option string) (name : string)
         (location : option string) (lk lk' : LockFile),
    executeTargetApp w c name lk'
    = mkStep (res (executeTargetApp w c name lk)) lk' (out (executeTargetApp w c name lk))
    /\ executeConsumeApp w lk'
       = mkStep (res (executeConsumeApp w lk)) lk' (out (executeConsumeApp w lk))
    /\ setupTargetAppPermissions w lk'
       = mkStep (res (setupTargetAppPermissions w lk)) lk'
                (out (setupTargetAppPermissions w lk))
    /\ fetchResult w location lk'
       = mkStep (res (fetchResult w location lk)) lk' (out (fetchResult w location lk))
    /\ (forall code,
        res (executeTargetApp w c name lk) <> Exit code
        /\ res (executeConsumeApp w lk) <> Exit code
        /\ res (setupTargetAppPermissions w lk) <> Exit code
        /\ res (fetchResult w location lk) <> Exit code).
Proof.
  intros w c name location lk lk'.
  destruct (executeTargetApp_detached w c name) as [r1 [o1 [H1 N1]]].
  destruct (executeConsumeApp_detached w) as [r2 [o2 [H2 N2]]].
  destruct (setup_detached w) as [r3 [o3 [H3 N3]]].
  destruct (fetchResult_detached w location) as [r4 [o4 [H4 N4]]].
  rewrite !H1, !H2, !H3, !H4. cbn [res out]. repeat split; auto.
Qed.

(* ------------------------------------------------------------------ *)
(** ** The orchestration script: step 0 and the producer's digest *)

(** X15 -- Step 0 lets the run go on in exactly two cases: the secret
    store accepted the push, or the push failed with an error whose
    message contains the text already exists.  In every other case it
    throws: the error of the SDK, or Push returned false when the store
    answered false. *)
Theorem X15_setup_tolerates_already_exists :
  forall (w : World) (lk : LockFile),
    (res (setupTargetAppPermissions w lk) = Ret tt <->
     permissionPush w = Resolves true
     \/ exists e pre post,
         permissionPush w = Rejects e
         /\ message e = Some (pre ++ "already exists" ++ post)%string)
    /\ (forall e, res (setupTargetAppPermissions w lk) = Throw e ->
        permissionPush w = Rejects e
        \/ (permissionPush w = Resolves false /\ e = Js.error "Push returned false")).
Proof.
  intros w lk. rewrite setup_unfold. unfold already_exists.
  destruct (permissionPush w) as [[|]|e]; cbn [res].
  - split; [ split; auto | discriminate ].
  - split.
    + split; [ discriminate | ].
      intros [H|[e [pre [post [H _]]]]]; discriminate.
    + intros e H. injection H as <-. auto.
  - split.
    + destruct (message e) as [m|] eqn:Em.
      * destruct (negb (m =? "")%string && Str.includes m "already exists") eqn:E;
          cbn [res].
        -- split; [ intros _ | reflexivity ].
           apply andb_true_iff in E. destruct E as [_ E].
           apply includes_iff in E. destruct E as [pre [post ->]].
           right. exists e, pre, post. auto.
        -- split; [ discriminate | ].
           intros [H|[e' [pre [post [H Hm]]]]]; [ discriminate | ].
           injection H as H. subst e'. rewrite Em in Hm. injection Hm as ->.
           apply andb_false_iff in E. destruct E as [E|E].
           ++ destruct pre; discriminate.
           ++ assert (Hi : Str.includes (pre ++ "already exists" ++ post) "already exists"
                           = true) by (apply includes_iff; eauto).
              cbn [append] in Hi. congruence.
      * cbn [res]. split; [ discriminate | ].
        intros [H|[e' [pre [post [H Hm]]]]]; [ discriminate | ].
        injection H as H. subst e'. congruence.
    + intros e'. destruct (match message e with Some m => _ | None => false end);
        cbn [res]; [ discriminate | ]. intros H. injection H as <-. auto.
Qed.

(** X16 -- The digest step 1 reads from the producer's result: the
    explicit [secretInfo.hash] when it is truthy; otherwise the legacy
    [generatedSecret.sha256] when that is truthy; otherwise the (falsy)
    explicit value.  It is truthy exactly when one of the two is. *)
Theorem X16_producer_digest_fallback :
  forall targetData : value,
    let explicit := member_opt (field targetData "secretInfo") "hash" in
    let legacy := field (field targetData "generatedSecret") "sha256" in
    (truthy explicit = true -> targetHash targetData = explicit)
    /\ (truthy explicit = false -> truthy legacy = true -> targetHash targetData = legacy)
    /\ (truthy explicit = false -> truthy legacy = false ->
        targetHash targetData = explicit)
    /\ truthy (targetHash targetData) = truthy explicit || truthy legacy.
Proof.
  intros targetData explicit legacy. subst explicit legacy. unfold targetHash.
  assert (Hg : truthy (field (field targetData "generatedSecret") "sha256") = true ->
               truthy (field targetData "generatedSecret") = true).
  { destruct (field targetData "generatedSecret") as [j|]; [ | discriminate ].
    apply field_truthy_object. }
  destruct (truthy (member_opt (field targetData "secretInfo") "hash")) eqn:E1;
    destruct (truthy (field (field targetData "generatedSecret") "sha256")) eqn:E2;
    cbn [negb andb orb]; rewrite ?andb_false_r, ?E1, ?E2, ?Hg by reflexivity;
    cbn [negb andb orb]; rewrite ?E1, ?E2;
    repeat split; intros; try discriminate; reflexivity.
Qed.

(* ------------------------------------------------------------------ *)
(** ** The orchestration script: how a run ends *)

(** X17 -- How a run of the script ends, when it ends.  No error escapes
    it; when it ends the process the exit code is 1 and the last thing
    printed is the error that ended it (a fatal error, or the error of the
    producer or of the consumer stage); and it ends normally exactly when
    it printed a verdict, match or mismatch. *)
Theorem X17_run_outcomes :
  forall (w : World) (lk : LockFile),
    (forall e, res (run w lk) <> Throw e)
    /\ (forall code, res (run w lk) = Exit code ->
        code = 1
        /\ exists pre m,
            out (run w lk) = pre ++ [LogFatal m]
            \/ out (run w lk) = pre ++ [LogErrorTarget m]
            \/ out (run w lk) = pre ++ [LogErrorConsume m])
    /\ (res (run w lk) = Ret tt <->
        In LogMatch (out (run w lk)) \/ In LogMismatch (out (run w lk))).
Proof.
  intros w lk. split; [ | split ].
  - intros e. rewrite run_res. destruct (wallet w); [ | discriminate ].
    destruct (setup_passes w); [ | discriminate ]. cbv zeta.
    destruct (res (step1 w _ _ lk)) as [t| | |]; try discriminate.
    destruct (res (consumption w _)) as [c| | |]; discriminate.
  - apply run_exit.
  - destruct (run_out w lk) as [pre [Hpre [[Hr [t [c [_ [_ Ho]]]]]|[Hr Ho]]]]; rewrite Ho.
    + split; [ intros _ | intros _; exact Hr ].
      destruct (verification_events t c (lockState w lk)) as [[H|H] _];
        [ left | right ]; apply in_app_iff; auto.
    + split; [ intros H; elim (Hr H) | ].
      intros [H|H]; exfalso; revert H; apply stage_not_verification; auto.
Qed.

(** X18 -- When no workerpool order is on offer for the producer, a run
    that provisions stops there: the producer execution fails with the
    error No TEE workerpool order available before any request order is
    made, and the run ends with exit code 1, the lock file untouched. *)
Theorem X18_no_workerpool_order :
  forall (w : World) (lk : LockFile) (a : string),
    wallet w = Resolves a -> setup_passes w = true ->
    coordinator w lk = NEEDS_PROVISION ->
    createApporder (target w) = Resolves tt ->
    signApporder (target w) = Resolves tt ->
    fetchWorkerpoolOrderbook (target w) = Resolves [] ->
    run w lk
    = mkStep (Exit 1) lk
        ([LogWallet a] ++ out (setupTargetAppPermissions w lk)
         ++ [ LogStep1 (consumeApp (CONFIG w));
              LogErrorTarget (Some "No TEE workerpool order available") ]).
Proof.
  intros w lk a Hw Hs Hc H1 H2 H3. apply needs_provision_iff in Hc.
  assert (E : executeTargetApp w (consumeApp (CONFIG w)) (secretName w) lk
              = mkStep (Throw (Js.error "No TEE workerpool order available")) lk
                  [LogStep1 (consumeApp (CONFIG w))]).
  { unfold executeTargetApp, createAppOrder, fetchWorkerpoolOrder, bind.
    rewrite H1, H2, H3. reflexivity. }
  rewrite run_unfold, Hw. cbv zeta.
  destruct (detached_frame _ lk lk (setup_detached w)) as [_ [_ [Hf _]]].
  apply (setup_res w lk) in Hs. rewrite Hs.
  rewrite branch_provision by assumption.
  rewrite provision_unfold. cbv zeta. rewrite E. reflexivity.
Qed.

Lemma X18_witness :
  run Sample.no_workers NoFile
  = mkStep (Exit 1) NoFile
      ([LogWallet Sample.owner] ++ out (setupTargetAppPermissions Sample.no_workers NoFile)
       ++ [ LogStep1 (consumeApp (CONFIG Sample.no_workers));
            LogErrorTarget (Some "No TEE workerpool order available") ]).
Proof.
  apply (X18_no_workerpool_order Sample.no_workers NoFile Sample.owner); reflexivity.
Defined.

(* ------------------------------------------------------------------ *)
(** ** The orchestration script: the record and the next run *)

(** X19 -- A record written by one run is read back by the next: the lock
    file holds exactly the record written, and any later run for the same
    consumer (whatever else has changed) finds it, is in REUSE, runs no
    producer, leaves the file as it is, and expects the digest the first
    run printed as the producer's. *)
Theorem X19_written_record_is_reused :
  forall (w w' : World) (lk : LockFile) (data : json),
    In (WroteLock data) (out (run w lk)) ->
    consumeApp (CONFIG w') = consumeApp (CONFIG w) ->
    file (run w lk) = Holds data
    /\ lockState w' (file (run w lk)) = Some data
    /\ coordinator w' (file (run w lk)) = REUSE
    /\ file (run w' (file (run w lk))) = file (run w lk)
    /\ (forall ev, In ev (out (run w' (file (run w lk)))) -> of_provision ev = false)
    /\ (forall h, In (LogExpected h) (out (run w' (file (run w lk)))) ->
        In (LogHashTarget h) (out (run w lk))).
Proof.
  intros w w' lk data Hin Hc.
  destruct (run_record w lk data Hin) as [h [Ht [Hd [Hf [Hl _]]]]].
  destruct (lock_record_fields w h Ht) as [Fa Fh].
  rewrite <- Hd in Fa, Fh. rewrite <- Hc in Fa. rewrite <- Fh in Ht.
  destruct (reuse_run w' data Fa Ht) as [R1 [R2 [R3 [R4 R5]]]].
  rewrite Hf. repeat split; auto.
  intros h' Hh'. rewrite (R5 h' Hh'), Fh. exact Hl.
Qed.

Lemma X19_witness :
  file (run (link (Sample.env (Resolves true)) (Sample.world Sample.digest0)) NoFile)
  = Holds (Sample.record Sample.digest0)
  /\ lockState (Sample.world "ffff")
       (file (run (link (Sample.env (Resolves true)) (Sample.world Sample.digest0)) NoFile))
     = Some (Sample.record Sample.digest0)
  /\ coordinator (Sample.world "ffff")
       (file (run (link (Sample.env (Resolves true)) (Sample.world Sample.digest0)) NoFile))
     = REUSE
  /\ file (run (Sample.world "ffff")
             (file (run (link (Sample.env (Resolves true)) (Sample.world Sample.digest0))
                        NoFile)))
     = file (run (link (Sample.env (Resolves true)) (Sample.world Sample.digest0)) NoFile)
  /\ (forall ev,
      In ev (out (run (Sample.world "ffff")
                    (file (run (link (Sample.env (Resolves true))
                                     (Sample.world Sample.digest0)) NoFile)))) ->
      of_provision ev = false)
  /\ (forall h,
      In (LogExpected h)
         (out (run (Sample.world "ffff")
                 (file (run (link (Sample.env (Resolves true))
                                  (Sample.world Sample.digest0)) NoFile)))) ->
      In (LogHashTarget h)
         (out (run (link (Sample.env (Resolves true)) (Sample.world Sample.digest0))
                   NoFile))).
Proof.
  apply (X19_written_record_is_reused
           (link (Sample.env (Resolves true)) (Sample.world Sample.digest0))
           (Sample.world "ffff") NoFile (Sample.record Sample.digest0)).
  - apply (nth_error_In _ 9). vm_compute. reflexivity.
  - reflexivity.
Defined.

(** X20 -- A failure of the consumer execution after a record has been
    written ends the run with exit code 1 and no verdict, the last thing
    printed being the consumer's error; the record stays in the lock file,
    so that the next run is in REUSE. *)
Theorem X20_consumer_failure_keeps_record :
  forall (w : World) (lk : LockFile) (data : json) (e : Error),
    In (WroteLock data) (out (run w lk)) ->
    res (executeConsumeApp w lk) = Throw e ->
    res (run w lk) = Exit 1
    /\ file (run w lk) = Holds data
    /\ (exists pre, out (run w lk) = pre ++ [LogErrorConsume (message e)])
    /\ ~ In LogMatch (out (run w lk))
    /\ ~ In LogMismatch (out (run w lk))
    /\ coordinator w (file (run w lk)) = REUSE.
Proof.
  intros w lk data e Hin He.
  destruct (run_reaches_step1 w lk _ Hin eq_refl) as [[a Hw] [Hs _]].
  destruct (run_record w lk data Hin) as [h [Ht [Hd [Hf [_ [H1 F1]]]]]].
  destruct (detached_frame _ lk (Holds data) (executeConsumeApp_detached w))
    as [Er [Eo _]].
  rewrite He in Er.
  assert (Hres : res (run w lk) = Exit 1).
  { rewrite run_res, Hw, Hs. cbv zeta. rewrite H1, F1, consumption_res, Er. reflexivity. }
  split; [ exact Hres | split; [ exact Hf | split; [ | split; [ | split ] ] ] ].
  - rewrite run_unfold, Hw. cbv zeta. apply (setup_res w lk) in Hs. rewrite Hs, H1, F1.
    rewrite consumption_unfold. cbv zeta. rewrite Er. unfold halted. cbn [res out file].
    eexists. rewrite !app_assoc. reflexivity.
  - intros Hm. apply (run_report w lk LogMatch eq_refl) in Hm.
    destruct Hm as [t [c [Hr _]]]. congruence.
  - intros Hm. apply (run_report w lk LogMismatch eq_refl) in Hm.
    destruct Hm as [t [c [Hr _]]]. congruence.
  - rewrite Hf. destruct (lock_record_fields w h Ht) as [Fa Fh].
    rewrite <- Hd in Fa, Fh. rewrite <- Fh in Ht.
    apply (reuse_run w data Fa Ht).
Qed.

Lemma X20_witness :
  res (run (link (Sample.env (Resolves true)) Sample.consumer_fails) NoFile) = Exit 1
  /\ file (run (link (Sample.env (Resolves true)) Sample.consumer_fails) NoFile)
     = Holds (Sample.record Sample.digest0)
  /\ (exists pre,
      out (run (link (Sample.env (Resolves true)) Sample.consumer_fails) NoFile)
      = pre ++ [LogErrorConsume (message (Js.error "Task ended with status TIMEDOUT"))])
  /\ ~ In LogMatch (out (run (link (Sample.env (Resolves true)) Sample.consumer_fails) NoFile))
  /\ ~ In LogMismatch (out (run (link (Sample.env (Resolves true)) Sample.consumer_fails) NoFile))
  /\ coordinator (link (Sample.env (Resolves true)) Sample.consumer_fails)
       (file (run (link (Sample.env (Resolves true)) Sample.consumer_fails) NoFile))
     = REUSE.
Proof.
  apply (X20_consumer_failure_keeps_record
           (link (Sample.env (Resolves true)) Sample.consumer_fails) NoFile
           (Sample.record Sample.digest0) (Js.error "Task ended with status TIMEDOUT")).
  - apply (nth_error_In _ 9). vm_compute. reflexivity.
  - vm_compute. reflexivity.
Defined.

(* ------------------------------------------------------------------ *)
(** ** The orchestration script: the verdict *)

(** X21 -- The note printed under a match depends on the lock file alone:
    it is the persistent-verification note exactly when [getLockState]
    returned a record (for this consumer, with or without a digest), and
    the initial-provisioning note exactly when it returned none.  The
    missing-target note is printed only when the expected digest is shown
    as Unknown. *)
Theorem X21_verdict_notes :
  forall (w : World) (lk : LockFile),
    (In LogPersistent (out (run w lk))
     <-> In LogMatch (out (run w lk)) /\ truthy (lockState w lk) = true)
    /\ (In LogInitial (out (run w lk))
        <-> In LogMatch (out (run w lk)) /\ truthy (lockState w lk) = false)
    /\ (In LogMissingTarget (out (run w lk)) ->
        In LogMismatch (out (run w lk))
        /\ In (LogExpected (Some (JStr "Unknown"))) (out (run w lk))).
Proof.
  intros w lk.
  rewrite (run_report w lk LogPersistent eq_refl), (run_report w lk LogInitial eq_refl),
    (run_report w lk LogMatch eq_refl), (run_report w lk LogMissingTarget eq_refl),
    (run_report w lk LogMismatch eq_refl),
    (run_report w lk (LogExpected (Some (JStr "Unknown"))) eq_refl).
  split; [ | split ].
  - split.
    + intros [t [c [Hr [H1 [H2 Hin]]]]].
      apply (verification_notes t c (lockState w lk)) in Hin. destruct Hin as [He Ht].
      split; [ | exact Ht ]. exists t, c. repeat split; auto.
      apply (verification_notes t c (lockState w lk)). exact He.
    + intros [[t [c [Hr [H1 [H2 Hin]]]]] Ht]. exists t, c. repeat split; auto.
      apply (verification_notes t c (lockState w lk)) in Hin.
      apply (verification_notes t c (lockState w lk)). auto.
  - split.
    + intros [t [c [Hr [H1 [H2 Hin]]]]].
      apply (verification_notes t c (lockState w lk)) in Hin. destruct Hin as [He Ht].
      split; [ | exact Ht ]. exists t, c. repeat split; auto.
      apply (verification_notes t c (lockState w lk)). exact He.
    + intros [[t [c [Hr [H1 [H2 Hin]]]]] Ht]. exists t, c. repeat split; auto.
      apply (verification_notes t c (lockState w lk)) in Hin.
      apply (verification_notes t c (lockState w lk)). auto.
  - intros [t [c [Hr [H1 [H2 Hin]]]]].
    apply (verification_notes t c (lockState w lk)) in Hin.
    split; exists t, c; repeat split; auto;
      unfold verification, verdict, or_else; rewrite Hin; cbn; auto.
Qed.

(** X22 -- A record for this consumer that carries no digest makes the run
    provision a new secret; when the digests then match, the run writes a
    new record and yet prints the persistent-verification note, not the
    initial-provisioning one. *)
Theorem X22_persistent_note_after_provisioning :
  forall (w : World) (data : json),
    field (Some data) "appAddress" = of_string (consumeApp (CONFIG w)) ->
    truthy (Some data) = true ->
    truthy (field (Some data) "secretHash") = false ->
    In LogMatch (out (run w (Holds data))) ->
    coordinator w (Holds data) = NEEDS_PROVISION
    /\ (exists data', In (WroteLock data') (out (run w (Holds data))))
    /\ In LogPersistent (out (run w (Holds data)))
    /\ ~ In LogInitial (out (run w (Holds data))).
Proof.
  intros w data Ha Hd Hh Hm.
  assert (Hl : lockState w (Holds data) = Some data).
  { rewrite lockState_holds. apply strict_eq_string in Ha. rewrite Ha. reflexivity. }
  assert (Hr : reuse (lockState w (Holds data)) = false).
  { rewrite Hl, reuse_record. exact Hh. }
  split; [ unfold coordinator; rewrite Hr; reflexivity | ].
  pose proof Hm as Hm'.
  apply (run_report w _ LogMatch eq_refl) in Hm'.
  destruct Hm' as [t [c [Hret [H1 [H2 Hin]]]]].
  apply (verification_notes t c (lockState w (Holds data))) in Hin.
  destruct (run_ret_passed w _ Hret) as [[a Hw] Hs].
  split; [ | split ].
  - exists (lock_record w t). apply (run_step1 w _ a _ Hw Hs).
    rewrite branch_provision in * by assumption.
    apply provision_ret; [ exact H1 | ].
    destruct (truthy t); [ reflexivity | discriminate ].
  - apply (run_report w _ LogPersistent eq_refl). exists t, c. repeat split; auto.
    apply (verification_notes t c (lockState w (Holds data))).
    rewrite Hl. auto.
  - intros Hi. apply (run_report w _ LogInitial eq_refl) in Hi.
    destruct Hi as [t' [c' [_ [_ [_ Hi]]]]].
    apply (verification_notes t' c' (lockState w (Holds data))) in Hi.
    rewrite Hl in Hi. destruct Hi as [_ Hi]. congruence.
Qed.

Lemma X22_witness :
  coordinator (link (Sample.env (Resolves true)) (Sample.world Sample.digest0))
              (Holds Sample.bare_record) = NEEDS_PROVISION
  /\ (exists data',
      In (WroteLock data')
         (out (run (link (Sample.env (Resolves true)) (Sample.world Sample.digest0))
                   (Holds Sample.bare_record))))
  /\ In LogPersistent
        (out (run (link (Sample.env (Resolves true)) (Sample.world Sample.digest0))
                  (Holds Sample.bare_record)))
  /\ ~ In LogInitial
         (out (run (link (Sample.env (Resolves true)) (Sample.world Sample.digest0))
                   (Holds Sample.bare_record))).
Proof.
  apply (X22_persistent_note_after_provisioning
           (link (Sample.env (Resolves true)) (Sample.world Sample.digest0))
           Sample.bare_record).
  - reflexivity.
  - reflexivity.
  - reflexivity.
  - apply (nth_error_In _ 20). vm_compute. reflexivity.
Defined.

(** X23 -- In a run that provisions, with the generator's document served
    by the result gateway, the match verdict is printed only if the
    generator was configured and the consumer reported exactly the hex
    SHA-256 of the secret that generator run produced; that digest is then
    also the one in the record the run wrote. *)
Theorem X23_match_certifies_generated_secret :
  forall (env : TargetApp.Env) (w : World) (lk : LockFile),
    coordinator w lk = NEEDS_PROVISION ->
    In LogMatch (out (run (link env w) lk)) ->
    configured env = true
    /\ In (LogHashConsume
             (Some (JStr (Sha256.sha256_hex (TargetApp.secret (TargetApp.generated env))))))
          (out (run (link env w) lk))
    /\ In (WroteLock
             (lock_record w
                (Some (JStr (Sha256.sha256_hex
                               (TargetApp.secret (TargetApp.generated env)))))))
          (out (run (link env w) lk)).
Proof.
  intros env w lk Hc Hm.
  apply needs_provision_iff in Hc.
  change (lockState w lk) with (lockState (link env w) lk) in Hc.
  apply (run_report _ _ LogMatch eq_refl) in Hm.
  destruct Hm as [t [c [Hret [H1 [H2 Hin]]]]].
  apply (verification_notes t c (lockState (link env w) lk)) in Hin.
  apply andb_true_iff in Hin. destruct Hin as [Hin He].
  apply andb_true_iff in Hin. destruct Hin as [Ht Hcc].
  destruct (run_ret_passed _ _ Hret) as [[a Hw] Hs].
  pose proof H1 as H1'. rewrite branch_provision in H1' by assumption.
  destruct (provision_ret _ _ _ _ H1' Ht) as [Hwrote [r [Hr Hfd]]].
  change (consumeApp (CONFIG (link env w))) with (consumeApp (CONFIG w)) in Hr.
  unfold fetched_digest in Hfd.
  rewrite (linked_fetch _ _ _ _ _ Hr), result_truthy, targetHash_main in Hfd.
  destruct (configured env); [ | subst t; discriminate ].
  subst t. apply strict_eq_text in He. subst c.
  split; [ reflexivity | split ].
  - apply (run_step2 _ lk a _ _ Hw Hs H1). apply consumption_ret; assumption.
  - apply (run_step1 _ lk a _ Hw Hs). rewrite branch_provision by assumption.
    exact Hwrote.
Qed.

Lemma X23_witness :
  configured (Sample.env (Resolves true)) = true
  /\ In (LogHashConsume
           (Some (JStr (Sha256.sha256_hex
                          (TargetApp.secret (TargetApp.generated (Sample.env (Resolves true))))))))
        (out (run (link (Sample.env (Resolves true)) (Sample.world Sample.digest0)) NoFile))
  /\ In (WroteLock
           (lock_record (Sample.world Sample.digest0)
              (Some (JStr (Sha256.sha256_hex
                             (TargetApp.secret
                                (TargetApp.generated (Sample.env (Resolves true))))))))) 
        (out (run (link (Sample.env (Resolves true)) (Sample.world Sample.digest0)) NoFile)).
Proof.
  apply (X23_match_certifies_generated_secret
           (Sample.env (Resolves true)) (Sample.world Sample.digest0) NoFile).
  - reflexivity.
  - apply (nth_error_In _ 20). vm_compute. reflexivity.
Defined.

(** X24 -- In REUSE the match verdict is printed only if the consumer
    reported a digest strictly equal to the one recorded in the lock file;
    the note printed with it is then the persistent-verification one. *)
Theorem X24_reuse_match_certifies_recorded_digest :
  forall (w : World) (data : json),
    coordinator w (Holds data) = REUSE ->
    In LogMatch (out (run w (Holds data))) ->
    In LogPersistent (out (run w (Holds data)))
    /\ exists observed,
        strict_eq (field (Some data) "secretHash") observed = true
        /\ In (LogHashConsume observed) (out (run w (Holds data)))
        /\ (forall d, field (Some data) "secretHash" = Some (JStr d) ->
            observed = Some (JStr d)).
Proof.
  intros w data Hc Hm.
  apply reuse_iff in Hc. destruct Hc as [d0 [Hd [Ha Ht]]]. injection Hd as <-.
  destruct (reuse_run w data Ha Ht) as [Hl _].
  assert (Hr : reuse (lockState w (Holds data)) = true).
  { rewrite Hl, reuse_record. exact Ht. }
  pose proof Hm as Hm'.
  apply (run_report w _ LogMatch eq_refl) in Hm'.
  destruct Hm' as [t [c [Hret [H1 [H2 Hin]]]]].
  apply (verification_notes t c (lockState w (Holds data))) in Hin.
  destruct (run_ret_passed w _ Hret) as [[a Hw] Hs].
  rewrite branch_reuse in H1, H2 by assumption. cbn [res file] in H1, H2.
  injection H1 as <-. rewrite Hl in Hin.
  apply andb_true_iff in Hin. destruct Hin as [Hin He].
  apply andb_true_iff in Hin. destruct Hin as [_ Hcc].
  split.
  - apply (run_report w _ LogPersistent eq_refl). exists (field (Some data) "secretHash"), c.
    rewrite branch_reuse by assumption. cbn [res file]. rewrite Hl.
    repeat split; auto.
    apply (verification_notes (field (Some data) "secretHash") c (Some data)).
    rewrite Ht, Hcc, He. split; [ reflexivity | ].
    apply (field_truthy_object data "secretHash"). exact Ht.
  - exists c. split; [ exact He | split ].
    + apply (run_step2 w _ a (field (lockState w (Holds data)) "secretHash") _ Hw Hs).
      * rewrite branch_reuse by assumption. reflexivity.
      * rewrite branch_reuse by assumption. cbn [file].
        apply consumption_ret; assumption.
    + intros d Hd. rewrite Hd in He. apply strict_eq_text. exact He.
Qed.

Lemma X24_witness :
  In LogPersistent
     (out (run (Sample.world Sample.digest0) (Holds (Sample.record Sample.digest0))))
  /\ exists observed,
      strict_eq (field (Some (Sample.record Sample.digest0)) "secretHash") observed = true
      /\ In (LogHashConsume observed)
            (out (run (Sample.world Sample.digest0) (Holds (Sample.record Sample.digest0))))
      /\ (forall d,
          field (Some (Sample.record Sample.digest0)) "secretHash" = Some (JStr d) ->
          observed = Some (JStr d)).
Proof.
  apply (X24_reuse_match_certifies_recorded_digest
           (Sample.world Sample.digest0) (Sample.record Sample.digest0)).
  - reflexivity.
  - apply (nth_error_In _ 12). vm_compute. reflexivity.
Defined.
